(** * Verification of the subprocess transport of claude-agent-sdk-go

    The development embeds the Go code of the transport
    ([SubprocessCLITransport]), of [processQuery] and of
    [validateAndConfigurePermissions] as Rocq functions and proves the
    properties the specification states about them.

    Conventions.
    - A Go [string] is a [string] of bytes ([ascii]); [len] is [String.length].
    - A Go [int] is a [Z].
    - A nil-able pointer [*T] read by the code is an [option T].
    - Operating-system effects (files, pipes, the child process, the
      environment) are explicit inputs of the functions: each function
      takes what the system returned to it and returns what it did. *)

From Stdlib Require Import ZArith List String Ascii Bool Lia PeanoNat.
Import ListNotations.

Set Warnings "-register-all,-notation-for-abbreviation,-abstract-large-number".

Local Open Scope string_scope.
Local Open Scope list_scope.

(* ===================================================================== *)
(** * The Go standard library functions the transport calls              *)
(* ===================================================================== *)

Module GoStrings.

Definition bytes := list ascii.

Definition b (n : nat) : ascii := ascii_of_nat n.

(** [len(s)] as a Go [int]. *)
Definition len (s : string) : Z := Z.of_nat (String.length s).

(** The six ASCII characters of [unicode.IsSpace]:
    tab, line feed, vertical tab, form feed, carriage return, space. *)
Definition isASCIISpace (c : ascii) : bool :=
  let n := nat_of_ascii c in
  (Nat.leb 9 n && Nat.leb n 13) || Nat.eqb n 32.

(** The white space runes of two bytes in UTF-8: U+0085 and U+00A0. *)
Definition isSpace2 (c1 c2 : ascii) : bool :=
  Nat.eqb (nat_of_ascii c1) 194 &&
  (Nat.eqb (nat_of_ascii c2) 133 || Nat.eqb (nat_of_ascii c2) 160).

(** The white space runes of three bytes in UTF-8: U+1680,
    U+2000..U+200A, U+2028, U+2029, U+202F, U+205F, U+3000. *)
Definition isSpace3 (c1 c2 c3 : ascii) : bool :=
  let n1 := nat_of_ascii c1 in
  let n2 := nat_of_ascii c2 in
  let n3 := nat_of_ascii c3 in
  (Nat.eqb n1 225 && Nat.eqb n2 154 && Nat.eqb n3 128) ||
  (Nat.eqb n1 226 && Nat.eqb n2 128 &&
     ((Nat.leb 128 n3 && Nat.leb n3 138) ||
      Nat.eqb n3 168 || Nat.eqb n3 169 || Nat.eqb n3 175)) ||
  (Nat.eqb n1 226 && Nat.eqb n2 129 && Nat.eqb n3 159) ||
  (Nat.eqb n1 227 && Nat.eqb n2 128 && Nat.eqb n3 128).

(** Number of bytes of the white space rune that starts [l]
    (0 when [l] does not start with one). *)
Definition spaceRuneLen (l : bytes) : nat :=
  match l with
  | [] => 0
  | c1 :: r1 =>
      if isASCIISpace c1 then 1
      else match r1 with
           | [] => 0
           | c2 :: r2 =>
               if isSpace2 c1 c2 then 2
               else match r2 with
                    | [] => 0
                    | c3 :: _ => if isSpace3 c1 c2 c3 then 3 else 0
                    end
           end
  end.

(** The same, for the rune that ends a string, read on the reversed
    string (last byte first). *)
Definition spaceRuneLenRev (l : bytes) : nat :=
  match l with
  | [] => 0
  | c1 :: r1 =>
      if isASCIISpace c1 then 1
      else match r1 with
           | [] => 0
           | c2 :: r2 =>
               if isSpace2 c2 c1 then 2
               else match r2 with
                    | [] => 0
                    | c3 :: _ => if isSpace3 c3 c2 c1 then 3 else 0
                    end
           end
  end.

(** Drop leading runes as long as [runeLen] finds one. *)
Fixpoint dropRunes (runeLen : bytes -> nat) (fuel : nat) (l : bytes) : bytes :=
  match fuel with
  | O => l
  | S fuel' =>
      match runeLen l with
      | O => l
      | k => dropRunes runeLen fuel' (skipn k l)
      end
  end.

(** [strings.TrimLeftFunc(s, unicode.IsSpace)] *)
Definition trimLeftSpace (l : bytes) : bytes :=
  dropRunes spaceRuneLen (List.length l) l.

(** [strings.TrimRightFunc(s, unicode.IsSpace)] *)
Definition trimRightSpace (l : bytes) : bytes :=
  rev (dropRunes spaceRuneLenRev (List.length l) (rev l)).

(** [strings.TrimSpace] *)
Definition TrimSpace (s : string) : string :=
  string_of_list_ascii
    (trimRightSpace (trimLeftSpace (list_ascii_of_string s))).

(** [strings.Split(s, sep)] for a separator of one byte: the pieces of
    [s] between the occurrences of [sep]; always at least one piece. *)
Fixpoint splitBytes (sep : ascii) (cur : bytes) (l : bytes) : list string :=
  match l with
  | [] => [string_of_list_ascii (rev cur)]
  | c :: r =>
      if Ascii.eqb c sep
      then string_of_list_ascii (rev cur) :: splitBytes sep [] r
      else splitBytes sep (c :: cur) r
  end.

Definition Split (s : string) (sep : ascii) : list string :=
  splitBytes sep [] (list_ascii_of_string s).

(** [strings.Join(elems, sep)] *)
Fixpoint Join (elems : list string) (sep : string) : string :=
  match elems with
  | [] => ""
  | [e] => e
  | e :: rest => e ++ sep ++ Join rest sep
  end%string.

(** [strings.HasPrefix] *)
Definition HasPrefix (s p : string) : bool := String.prefix p s.

(** [strings.HasSuffix] *)
Definition HasSuffix (s p : string) : bool :=
  let n := String.length s in
  let m := String.length p in
  Nat.leb m n && String.eqb (String.substring (n - m) m s) p.

Definition LF : ascii := b 10.
Definition CR : ascii := b 13.

(** Writing aid for texts that contain double quotes: every apostrophe of
    [s] stands for a double quote. *)
Fixpoint q (s : string) : string :=
  match s with
  | EmptyString => EmptyString
  | String c r => String (if Ascii.eqb c (b 39) then b 34 else c) (q r)
  end.

(** [strings.Repeat] *)
Fixpoint Repeat (s : string) (count : nat) : string :=
  match count with
  | O => ""
  | S n => (s ++ Repeat s n)%string
  end.

End GoStrings.

Import GoStrings.

(* ===================================================================== *)
(** * [bufio.Scanner] with the [bufio.ScanLines] split function          *)
(* ===================================================================== *)

Module Bufio.

(** The raw lines of a byte stream: the pieces between line feeds; the
    bytes after the last line feed form a last line when there are any. *)
Fixpoint rawLines (cur : bytes) (l : bytes) : list bytes :=
  match l with
  | [] => match cur with [] => [] | _ => [rev cur] end
  | c :: r =>
      if Ascii.eqb c LF then rev cur :: rawLines [] r
      else rawLines (c :: cur) r
  end.

(** [dropCR]: a line loses one trailing carriage return. *)
Definition dropCR (raw : bytes) : bytes :=
  match rev raw with
  | c :: r => if Ascii.eqb c CR then rev r else raw
  | [] => raw
  end.

(** The largest size the scanner's buffer reaches: it starts with the
    capacity of the slice given to [Buffer] and doubles up to
    [maxTokenSize]; it never shrinks. *)
Definition bufferLimit (initialSize maxTokenSize : Z) : Z :=
  Z.max initialSize maxTokenSize.

(** [Scan] until it returns false: the tokens delivered, and whether the
    scanner stopped with [ErrTooLong] (a line that fills the whole
    buffer without its line feed). *)
Fixpoint scanTokens (limit : Z) (raws : list bytes) : list string * bool :=
  match raws with
  | [] => ([], false)
  | raw :: rest =>
      if (limit <=? Z.of_nat (List.length raw))%Z then ([], true)
      else let (ts, tooLong) := scanTokens limit rest in
           (string_of_list_ascii (dropCR raw) :: ts, tooLong)
  end.

Definition scanLines (limit : Z) (data : string) : list string * bool :=
  scanTokens limit (rawLines [] (list_ascii_of_string data)).

End Bufio.

(* ===================================================================== *)
(** * Errors of the SDK                                                  *)
(* ===================================================================== *)

Inductive SDKError : Type :=
| CLIConnectionError (message : string)
| CLIJSONDecodeError (limit size : Z)
| ProcessError (message : string) (exitCode : Z)
| MessageParseError (message : string)
| ContextError
| PlainError (message : string).

Definition isConnectionError (e : SDKError) : bool :=
  match e with CLIConnectionError _ => true | _ => false end.

Definition isDecodeError (e : SDKError) : bool :=
  match e with CLIJSONDecodeError _ _ => true | _ => false end.

(* ===================================================================== *)
(** * [ReadMessages]: the reader of the child's stdout                   *)
(* ===================================================================== *)

Module Reader.

(** What [cmd.Wait] returned. *)
Inductive WaitResult := WaitOK | WaitExitError (exitCode : Z) | WaitOtherError.

Section ReadMessages.

(** [map[string]interface{}], the target of [json.Unmarshal]. *)
Context {JSONObject : Type}.

(** [json.Unmarshal([]byte(s), &data)] on a fresh [data]: the decoded
    object when the error is nil. *)
Variable Unmarshal : string -> option JSONObject.

(** Fields of the transport the reader uses. *)
Variable maxBufferSize : Z.
Variable ScannerInitialBufferSize : option Z.

(** [ctxDone k]: the context is done when the reader looks at it after
    the [k]-th line was scanned. *)
Variable ctxDone : nat -> bool.

(** What the goroutine does, in order: the writes to [jsonBuffer]
    (with the buffer's content after the write) and the sends on the
    two channels. *)
Inductive event :=
| WriteString (jsonBuffer : string)
| SendMsg (data : JSONObject)
| SendErr (e : SDKError).

Inductive loopEnd := Running (jsonBuffer : string) | Returned.

(** [for _, jsonLine := range jsonLines { ... }] *)
Fixpoint forJSONLines (jsonLines : list string) (jsonBuffer : string)
  : list event * loopEnd :=
  match jsonLines with
  | [] => ([], Running jsonBuffer)
  | jsonLine :: rest =>
      let jsonLine := TrimSpace jsonLine in
      if String.eqb jsonLine "" then forJSONLines rest jsonBuffer
      else
        let jsonBuffer := (jsonBuffer ++ jsonLine)%string in
        if (len jsonBuffer >? maxBufferSize)%Z then
          ([WriteString jsonBuffer;
            SendErr (CLIJSONDecodeError maxBufferSize (len jsonBuffer))],
           Returned)
        else
          match Unmarshal jsonBuffer with
          | Some data =>
              let (evs, e) := forJSONLines rest "" in
              (WriteString jsonBuffer :: SendMsg data :: evs, e)
          | None =>
              let (evs, e) := forJSONLines rest jsonBuffer in
              (WriteString jsonBuffer :: evs, e)
          end
  end.

(** [for scanner.Scan() { ... }] over the lines the scanner delivers;
    [k] counts the lines scanned so far. *)
Fixpoint forScan (k : nat) (lines : list string) (jsonBuffer : string)
  : list event * loopEnd :=
  match lines with
  | [] => ([], Running jsonBuffer)
  | line :: rest =>
      if ctxDone k then ([], Returned)
      else
        let line := TrimSpace line in
        if String.eqb line "" then forScan (S k) rest jsonBuffer
        else
          match forJSONLines (Split line LF) jsonBuffer with
          | (evs, Running jsonBuffer') =>
              let (evs', e) := forScan (S k) rest jsonBuffer' in
              (evs ++ evs', e)
          | (evs, Returned) => (evs, Returned)
          end
  end.

Definition initialSize : Z :=
  match ScannerInitialBufferSize with
  | Some n => if (n >? 0)%Z then n else (64 * 1024)%Z
  | None => (64 * 1024)%Z
  end.

(** The goroutine of [ReadMessages] on the bytes [stdout] of the child;
    [readErr] is the error (other than end of file) that ended the
    reads, if any, and [wait] what [cmd.Wait] returned. *)
Definition ReadMessages (stdout : string) (readErr : option string)
    (wait : WaitResult) : list event :=
  let (lines, tooLong) :=
    Bufio.scanLines (Bufio.bufferLimit initialSize maxBufferSize) stdout in
  match forScan 0 lines "" with
  | (evs, Returned) => evs
  | (evs, Running _) =>
      if tooLong || match readErr with Some _ => true | None => false end
      then evs ++ [SendErr (CLIConnectionError "error reading from stdout")]
      else match wait with
           | WaitExitError code =>
               evs ++ [SendErr (ProcessError "command failed" code)]
           | _ => evs
           end
  end.

(** The values sent on the message channel and on the error channel. *)
Fixpoint msgCh (evs : list event) : list JSONObject :=
  match evs with
  | [] => []
  | SendMsg d :: r => d :: msgCh r
  | _ :: r => msgCh r
  end.

Fixpoint errCh (evs : list event) : list SDKError :=
  match evs with
  | [] => []
  | SendErr e :: r => e :: errCh r
  | _ :: r => errCh r
  end.

End ReadMessages.

End Reader.


(** [m[key]] on a map given by its entries: the value of the entry, if
    any. *)
Fixpoint mapGet {V : Type} (m : list (string * V)) (key : string) : option V :=
  match m with
  | [] => None
  | (k, v) :: r => if String.eqb k key then Some v else mapGet r key
  end.

(** [m[key] = v]. *)
Fixpoint mapSet {V : Type} (m : list (string * V)) (key : string) (v : V)
  : list (string * V) :=
  match m with
  | [] => [(key, v)]
  | (k, v0) :: r =>
      if String.eqb k key then (k, v) :: r else (k, v0) :: mapSet r key v
  end.

(* ===================================================================== *)
(** * [encoding/json]: what [json.Unmarshal] accepts                      *)
(* ===================================================================== *)

(** The reader and the settings builder call [json.Unmarshal] with a
    [map[string]interface{}] as target.  The functions above take it as an
    argument; this module gives the instance used to run them: the JSON
    grammar of RFC 8259 as the scanner of [encoding/json] checks it, with
    its bound on the nesting, and the decoding into the map, where
    [strconv.ParseFloat] refuses the numbers that are too large for a
    [float64].  String literals keep their escapes.  A number keeps its
    literal: it stands for the [float64] nearest to it, which exists for
    every literal the decoder accepts. *)

Module JSON.

Inductive value : Type :=
| Null
| Bool (v : bool)
| Number (literal : string)
| Str (raw : string)
| Array (elems : list value)
| Object (members : list (string * value)).

(** A [map[string]interface{}]: nil, or its entries, one for each key
    (the map keeps the last value stored for a key). *)
Inductive GoMap : Type :=
| NilMap
| Map (members : list (string * value)).

Definition isWS (c : ascii) : bool :=
  let n := nat_of_ascii c in
  Nat.eqb n 32 || Nat.eqb n 9 || Nat.eqb n 10 || Nat.eqb n 13.

Fixpoint skipWS (l : bytes) : bytes :=
  match l with
  | c :: r => if isWS c then skipWS r else l
  | [] => []
  end.

Definition isDigit (c : ascii) : bool :=
  let n := nat_of_ascii c in Nat.leb 48 n && Nat.leb n 57.

Definition isHex (c : ascii) : bool :=
  let n := nat_of_ascii c in
  isDigit c || (Nat.leb 65 n && Nat.leb n 70) || (Nat.leb 97 n && Nat.leb n 102).

Definition isEscape (c : ascii) : bool :=
  existsb (Ascii.eqb c)
    (list_ascii_of_string "\/bfnrt" ++ [b 34]).

(** The body of a string literal, after its opening quote: the raw
    content and what follows the closing quote. *)
Fixpoint scanString (acc : bytes) (l : bytes) : option (bytes * bytes) :=
  match l with
  | [] => None
  | c :: r =>
      if Ascii.eqb c (b 34) then Some (rev acc, r)
      else if Ascii.eqb c (b 92) then
        match r with
        | e :: r1 =>
            if isEscape e then scanString (e :: c :: acc) r1
            else if Ascii.eqb e (b 117) then
              match r1 with
              | h1 :: h2 :: h3 :: h4 :: r2 =>
                  if isHex h1 && isHex h2 && isHex h3 && isHex h4
                  then scanString (h4 :: h3 :: h2 :: h1 :: e :: c :: acc) r2
                  else None
              | _ => None
              end
            else None
        | [] => None
        end
      else if Nat.ltb (nat_of_ascii c) 32 then None
      else scanString (c :: acc) r
  end.

(** The longest prefix of digits. *)
Fixpoint digits (l : bytes) : bytes * bytes :=
  match l with
  | c :: r => if isDigit c then let (ds, r') := digits r in (c :: ds, r')
              else ([], l)
  | [] => ([], [])
  end.

Definition scanInt (l : bytes) : option (bytes * bytes) :=
  match l with
  | c :: r =>
      if Ascii.eqb c (b 48) then Some ([c], r)
      else if isDigit c then let (ds, r') := digits r in Some (c :: ds, r')
      else None
  | [] => None
  end.

Definition scanFrac (l : bytes) : option (bytes * bytes) :=
  match l with
  | c :: r =>
      if Ascii.eqb c (b 46) then
        match digits r with
        | ([], _) => None
        | (ds, r') => Some (c :: ds, r')
        end
      else Some ([], l)
  | [] => Some ([], [])
  end.

Definition scanExp (l : bytes) : option (bytes * bytes) :=
  match l with
  | c :: r =>
      if Ascii.eqb c (b 101) || Ascii.eqb c (b 69) then
        let (sign, r1) :=
          match r with
          | s :: r0 => if Ascii.eqb s (b 43) || Ascii.eqb s (b 45)
                       then ([s], r0) else ([], r)
          | [] => ([], r)
          end in
        match digits r1 with
        | ([], _) => None
        | (ds, r') => Some (c :: sign ++ ds, r')
        end
      else Some ([], l)
  | [] => Some ([], [])
  end.

Definition scanNumber (l : bytes) : option (bytes * bytes) :=
  let (sign, l1) :=
    match l with
    | c :: r => if Ascii.eqb c (b 45) then ([c], r) else ([], l)
    | [] => ([], l)
    end in
  match scanInt l1 with
  | None => None
  | Some (i, l2) =>
      match scanFrac l2 with
      | None => None
      | Some (f, l3) =>
          match scanExp l3 with
          | None => None
          | Some (e, l4) => Some (sign ++ i ++ f ++ e, l4)
          end
      end
  end.

(** [l] starts with the bytes of [w]: what follows them. *)
Fixpoint stripPrefix (w l : bytes) : option bytes :=
  match w, l with
  | [], _ => Some l
  | x :: w', y :: l' => if Ascii.eqb x y then stripPrefix w' l' else None
  | _ :: _, [] => None
  end.

Section Compound.

Variable parseValue : bytes -> option (value * bytes).

(** The elements of an array after the first one was announced: a value,
    then a comma and more, or the closing bracket. *)
Fixpoint parseElems (fuel : nat) (acc : list value) (l : bytes)
  : option (list value * bytes) :=
  match fuel with
  | O => None
  | S fuel' =>
      match parseValue (skipWS l) with
      | None => None
      | Some (v, r) =>
          match skipWS r with
          | c :: r' =>
              if Ascii.eqb c (b 44) then parseElems fuel' (v :: acc) r'
              else if Ascii.eqb c (b 93) then Some (rev (v :: acc), r')
              else None
          | [] => None
          end
      end
  end.

(** The members of an object: a string, a colon, a value, then a comma
    and more, or the closing brace. *)
Fixpoint parseMembers (fuel : nat) (acc : list (string * value)) (l : bytes)
  : option (list (string * value) * bytes) :=
  match fuel with
  | O => None
  | S fuel' =>
      match skipWS l with
      | q :: r0 =>
          if Ascii.eqb q (b 34) then
            match scanString [] r0 with
            | None => None
            | Some (k, r1) =>
                match skipWS r1 with
                | c :: r2 =>
                    if Ascii.eqb c (b 58) then
                      match parseValue (skipWS r2) with
                      | None => None
                      | Some (v, r3) =>
                          let acc' := (string_of_list_ascii k, v) :: acc in
                          match skipWS r3 with
                          | d :: r4 =>
                              if Ascii.eqb d (b 44)
                              then parseMembers fuel' acc' r4
                              else if Ascii.eqb d (b 125)
                                   then Some (rev acc', r4)
                                   else None
                          | [] => None
                          end
                      end
                    else None
                | [] => None
                end
            end
          else None
      | [] => None
      end
  end.

(** One JSON value at the start of [l] (no leading white space), the
    values inside it being read by [parseValue]. *)
Definition parseValueStep (l : bytes) : option (value * bytes) :=
  match l with
  | [] => None
  | c :: r =>
      if Ascii.eqb c (b 123) then
        match skipWS r with
        | d :: r' =>
            if Ascii.eqb d (b 125) then Some (Object [], r')
            else match parseMembers (List.length r) [] r with
                 | Some (ms, r'') => Some (Object ms, r'')
                 | None => None
                 end
        | [] => None
        end
      else if Ascii.eqb c (b 91) then
        match skipWS r with
        | d :: r' =>
            if Ascii.eqb d (b 93) then Some (Array [], r')
            else match parseElems (List.length r) [] r with
                 | Some (vs, r'') => Some (Array vs, r'')
                 | None => None
                 end
        | [] => None
        end
      else if Ascii.eqb c (b 34) then
        match scanString [] r with
        | Some (s, r') => Some (Str (string_of_list_ascii s), r')
        | None => None
        end
      else if Ascii.eqb c (b 116) then
        option_map (fun r' => (Bool true, r'))
          (stripPrefix (list_ascii_of_string "true") l)
      else if Ascii.eqb c (b 102) then
        option_map (fun r' => (Bool false, r'))
          (stripPrefix (list_ascii_of_string "false") l)
      else if Ascii.eqb c (b 110) then
        option_map (fun r' => (Null, r'))
          (stripPrefix (list_ascii_of_string "null") l)
      else
        match scanNumber l with
        | Some (n, r') => Some (Number (string_of_list_ascii n), r')
        | None => None
        end
  end.

End Compound.

(** One JSON value at the start of [l]; [fuel] bounds the depth of the
    nesting. *)
Fixpoint parseValue (fuel : nat) (l : bytes) : option (value * bytes) :=
  match fuel with
  | O => None
  | S fuel' => parseValueStep (parseValue fuel') l
  end.

(** A value whose text shows where it ends (every value but a number). *)
Definition delimited (v : value) : bool :=
  match v with
  | Number _ => false
  | _ => true
  end.

(** The text ends with JSON white space. *)
Definition endsWithWS (l : bytes) : bool :=
  match rev l with
  | c :: _ => isWS c
  | [] => false
  end.

(** The whole text is one JSON value between optional white space. *)
Definition parse (s : string) : option value :=
  let l := skipWS (list_ascii_of_string s) in
  match parseValue (S (List.length l)) l with
  | Some (v, r) => match skipWS r with [] => Some v | _ => None end
  | None => None
  end.

(** ** The bound on the nesting *)

(** [maxNestingDepth]: the scanner gives up once more arrays and objects
    than this are open at the same time. *)
Definition maxNestingDepth : Z := 10000%Z.

(** The largest number of arrays and objects open at the same time while
    the scanner reads the text of [v]. *)
Fixpoint depth (v : value) : Z :=
  match v with
  | Array elems => (1 + fold_right Z.max 0 (map depth elems))%Z
  | Object members =>
      (1 + fold_right Z.max 0 (map (fun '(_, x) => depth x) members))%Z
  | _ => 0%Z
  end.

(** [checkValid]: the scanner accepts the whole text, one JSON value
    between optional white space, nested no deeper than
    [maxNestingDepth]. *)
Definition checkValid (s : string) : option value :=
  match parse s with
  | Some v => if (depth v <=? maxNestingDepth)%Z then Some v else None
  | None => None
  end.

(** ** Numbers: [strconv.ParseFloat] *)

Definition digitValue (c : ascii) : Z := (Z.of_nat (nat_of_ascii c) - 48)%Z.

(** The digits before the exponent, as [readFloat] reads them: [mant] is
    the number the digits write, [nd] how many there are and [dp] where
    the decimal point stands among them; zeros before the first other
    digit only move the point. *)
Fixpoint readMantissa (l : bytes) (sawdot : bool) (mant nd dp : Z)
  : (Z * Z * Z) * bytes :=
  match l with
  | c :: r =>
      if Ascii.eqb c (b 46) then
        if sawdot then ((mant, nd, dp), l)
        else readMantissa r true mant nd nd
      else if isDigit c then
        if Ascii.eqb c (b 48) && (nd =? 0)%Z
        then readMantissa r sawdot mant nd (dp - 1)%Z
        else readMantissa r sawdot (mant * 10 + digitValue c)%Z (nd + 1)%Z dp
      else ((mant, nd, if sawdot then dp else nd), l)
  | [] => ((mant, nd, if sawdot then dp else nd), [])
  end.

(** The digits of the exponent: once the exponent has reached 10000 the
    digits that follow are ignored. *)
Definition readExponent (ds : bytes) : Z :=
  fold_left (fun e c => if (e <? 10000)%Z then (e * 10 + digitValue c)%Z else e)
    ds 0%Z.

(** Half way between the largest [float64] and [2^1024]: a number of this
    size or more rounds to infinity. *)
Definition float64Limit : Z := (2 ^ 1024 - 2 ^ 970)%Z.

(** [strconv.ParseFloat(literal, 64)] returns a range error, for the
    literal of a JSON number: its value, [mant * 10^(dp - nd)], rounds to
    infinity.  A value too small for a [float64] is no error (it gives
    zero). *)
Definition rangeError (literal : string) : bool :=
  let l := list_ascii_of_string literal in
  let l1 := match l with
            | c :: r => if Ascii.eqb c (b 45) then r else l
            | [] => l
            end in
  let '((mant, nd, dp0), rest) := readMantissa l1 false 0%Z 0%Z 0%Z in
  let dp :=
    match rest with
    | c :: r =>
        if Ascii.eqb c (b 101) || Ascii.eqb c (b 69) then
          let '(esign, ds) :=
            match r with
            | s :: r0 => if Ascii.eqb s (b 43) then (1%Z, r0)
                         else if Ascii.eqb s (b 45) then ((-1)%Z, r0)
                         else (1%Z, r)
            | [] => (1%Z, r)
            end in
          (dp0 + readExponent ds * esign)%Z
        else dp0
    | [] => dp0
    end in
  if (mant =? 0)%Z then false
  else if (dp >? 310)%Z then true
  else if (dp <? -330)%Z then false
  else if (nd <=? dp)%Z then (float64Limit <=? mant * 10 ^ (dp - nd))%Z
  else (float64Limit * 10 ^ (nd - dp) <=? mant)%Z.

(** ** Decoding into [map[string]interface{}] *)

(** What the decoder stores for a value: the value itself, but nil for a
    number [ParseFloat] refuses ([convertNumber] returns nil with its
    error). *)
Fixpoint stored (v : value) : value :=
  match v with
  | Number n => if rangeError n then Null else v
  | Array elems => Array (map stored elems)
  | Object members => Object (map (fun '(k, x) => (k, stored x)) members)
  | _ => v
  end.

(** The decoder saves no error while it stores [v]: every number in it
    is in the range of [float64]. *)
Fixpoint inRange (v : value) : bool :=
  match v with
  | Number n => negb (rangeError n)
  | Array elems => forallb inRange elems
  | Object members => forallb (fun '(_, x) => inRange x) members
  | _ => true
  end.

(** [json.Unmarshal([]byte(s), &m)] on the map [m]: the map afterwards
    and whether the error is nil.  A text the scanner refuses leaves the
    map as it was.  An object stores its members in the map, one after
    the other (a nil map is made first); a number out of range is stored
    as nil, the decoding goes on, and the error is returned at the end.
    The text [null] makes the map nil.  Every other value is an error
    and leaves the map as it was. *)
Definition UnmarshalInto (s : string) (m : GoMap) : GoMap * bool :=
  match checkValid s with
  | Some (Object ms) =>
      let old := match m with Map l => l | NilMap => [] end in
      (Map (fold_left (fun acc '(k, v) => mapSet acc k (stored v)) ms old),
       inRange (Object ms))
  | Some Null => (NilMap, true)
  | _ => (m, false)
  end.

(** [json.Unmarshal([]byte(s), &data)] with [data] a fresh (nil)
    [map[string]interface{}], as the reader calls it: the map when the
    error is nil. *)
Definition Unmarshal (s : string) : option GoMap :=
  let (m, ok) := UnmarshalInto s NilMap in
  if ok then Some m else None.

End JSON.


(* ===================================================================== *)
(** * The version probe: [checkClaudeVersion] and [compareVersions]      *)
(* ===================================================================== *)

Module Version.

(** cli_version.go *)
Definition BundledCLIVersion : string := "2.0.76".
Definition RecommendedCLIVersion : string := "2.0.76".
Definition MinimumCLIVersion : string := "2.0.50".

(** The constant of the transport the probe compares with. *)
Definition minimumClaudeCodeVersion : string := "2.0.0".

Definition maxInt : Z := (2 ^ 63 - 1)%Z.
Definition minInt : Z := (- 2 ^ 63)%Z.

(** The value of a string of decimal digits, [None] when a byte is not a
    digit. *)
Fixpoint decimal (acc : Z) (l : bytes) : option Z :=
  match l with
  | [] => Some acc
  | c :: r =>
      if JSON.isDigit c
      then decimal (10 * acc + Z.of_nat (nat_of_ascii c - 48))%Z r
      else None
  end.

(** [n, _ := strconv.Atoi(s)]: the integer the call returns, its error
    being dropped: 0 on a syntax error, the nearest [int] when the value
    is out of range. *)
Definition Atoi (s : string) : Z :=
  let l := list_ascii_of_string s in
  let (neg, ds) :=
    match l with
    | c :: r => if Ascii.eqb c (b 45) then (true, r)
                else if Ascii.eqb c (b 43) then (false, r)
                else (false, l)
    | [] => (false, l)
    end in
  match ds with
  | [] => 0%Z
  | _ =>
      match decimal 0 ds with
      | None => 0%Z
      | Some n =>
          if neg then (if (n >? 2 ^ 63)%Z then minInt else - n)%Z
          else (if (n >? maxInt)%Z then maxInt else n)%Z
      end
  end.

(** [compareVersions]: the loop over the first three parts; a missing
    part counts as 0. *)
Fixpoint compareParts (n : nat) (parts1 parts2 : list string) : Z :=
  match n with
  | O => 0%Z
  | S n' =>
      let num1 := match parts1 with p :: _ => Atoi p | [] => 0%Z end in
      let num2 := match parts2 with p :: _ => Atoi p | [] => 0%Z end in
      if (num1 <? num2)%Z then (-1)%Z
      else if (num1 >? num2)%Z then 1%Z
      else compareParts n' (tl parts1) (tl parts2)
  end.

Definition compareVersions (v1 v2 : string) : Z :=
  compareParts 3 (Split v1 (b 46)) (Split v2 (b 46)).

(** A match of [[0-9]+\.[0-9]+\.[0-9]+] that starts at the first byte of
    [l]: each run of digits is taken whole (a shorter run is followed by a
    digit, where the pattern wants a dot or ends). *)
Definition matchSemver (l : bytes) : option bytes :=
  match JSON.digits l with
  | ([], _) => None
  | (d1, c1 :: r1) =>
      if Ascii.eqb c1 (b 46) then
        match JSON.digits r1 with
        | ([], _) => None
        | (d2, c2 :: r2) =>
            if Ascii.eqb c2 (b 46) then
              match JSON.digits r2 with
              | ([], _) => None
              | (d3, _) => Some (d1 ++ c1 :: d2 ++ c2 :: d3)
              end
            else None
        | (_, []) => None
        end
      else None
  | (_, []) => None
  end.

(** [re.FindStringSubmatch(s)[1]]: the leftmost match. *)
Fixpoint findSemver (l : bytes) : option bytes :=
  match matchSemver l with
  | Some m => Some m
  | None => match l with
            | [] => None
            | _ :: r => findSemver r
            end
  end.

(** What the function does to the outside. *)
Inductive effect :=
| RunProbe (path : string) (args : list string)
| PrintStderr (text : string).

Definition warning (version : string) : string :=
  "Warning: Claude Code version " ++ version ++
  " is unsupported in the Agent SDK. " ++
  "Minimum required version is " ++ minimumClaudeCodeVersion ++ ". " ++
  "Some features may not work correctly.".

(** [checkClaudeVersion].  [skipEnv] is what
    [os.Getenv("CLAUDE_AGENT_SDK_SKIP_VERSION_CHECK")] returns; [probe] is
    what [cmd.Output()] returns if the probe is run: the output, or [None]
    for an error (which includes the two-second deadline).  The result is
    the error returned ([None] for nil) and the effects, in order. *)
Definition checkClaudeVersion (cliPath : string) (skipEnv : string)
    (probe : option string) : option SDKError * list effect :=
  if negb (String.eqb skipEnv "") then (None, [])
  else
    match probe with
    | None => (None, [RunProbe cliPath ["-v"]])
    | Some output =>
        let versionStr := TrimSpace output in
        match findSemver (list_ascii_of_string versionStr) with
        | None => (None, [RunProbe cliPath ["-v"]])
        | Some m =>
            let version := string_of_list_ascii m in
            if (compareVersions version minimumClaudeCodeVersion <? 0)%Z
            then (None, [RunProbe cliPath ["-v"];
                         PrintStderr (warning version ++ String LF "")])
            else (None, [RunProbe cliPath ["-v"]])
        end
    end.

End Version.


(* ===================================================================== *)
(** * [ClaudeAgentOptions] and the values it carries                     *)
(* ===================================================================== *)

(** The declarations of these structs are not part of the source tree;
    the records list the fields the transport, [processQuery] and the
    helpers read.  A Go [func] value is a name ([nat]); a Go map that the
    code ranges over is the list of its entries in the order of the
    range; a [float64] is kept as the text [%.2f] prints for it. *)

Inductive GoFunc : Type := goFunc (name : nat).

(** A value of type [interface{}] as far as the code inspects it. *)
Inductive GoValue : Type :=
| GoNil
| GoString (s : string)
| GoOther (v : JSON.value).

Record AgentDefinition : Type := {
  agentDescription : string;
  agentPrompt : string;
  agentTools : list string;
  agentModel : option string
}.

Inductive McpServerConfig : Type :=
| McpSdkServerConfig (Type_ : string) (Name : string) (Instance : nat)
| McpExternalServerConfig (config : JSON.value).

Record SdkPluginConfig : Type := {
  pluginType : string;
  pluginPath : string
}.

Record HookMatcher : Type := {
  Matcher : string;
  hookCallbacks : list GoFunc;
  hookTimeout : option string
}.

(** [SystemPrompt interface{}] by its dynamic type. *)
Inductive SystemPromptValue : Type :=
| SystemPromptNil
| SystemPromptString (sp : string)
| SystemPromptMap (sp : list (string * GoValue))
| SystemPromptPreset (Append : option string)
| SystemPromptOtherType.

(** [Tools interface{}] by its dynamic type. *)
Inductive ToolsValue : Type :=
| ToolsNil
| ToolsList (tools : list string)
| ToolsMap (tools : list (string * GoValue))
| ToolsPreset
| ToolsOtherType.

(** The sandbox configuration, as the JSON value [json.Marshal] gives
    for it. *)
Inductive SandboxSettings : Type := sandboxSettings (json : JSON.value).

Record ClaudeAgentOptions : Type := {
  SystemPrompt : SystemPromptValue;
  Tools : ToolsValue;
  AllowedTools : list string;
  DisallowedTools : list string;
  MaxTurns : option Z;
  Model : option string;
  FallbackModel : option string;
  Betas : list string;
  MaxBudgetUSD : option string;
  MaxThinkingTokens : option Z;
  PermissionMode : option string;
  PermissionPromptToolName : option string;
  ContinueConversation : bool;
  Resume : option string;
  ForkSession : bool;
  Settings : option string;
  Sandbox : option SandboxSettings;
  AddDirs : list string;
  McpServers : list (string * McpServerConfig);
  IncludePartialMessages : bool;
  Agents : list (string * AgentDefinition);
  SettingSources : option (list string);
  Plugins : list SdkPluginConfig;
  ExtraArgs : list (string * option string);
  Env : list (string * string);
  EnableFileCheckpointing : bool;
  Cwd : option string;
  MaxBufferSize : option Z;
  ScannerInitialBufferSize : option Z;
  MessageChannelBufferSize : option Z;
  Stderr : option GoFunc;
  CanUseTool : option GoFunc;
  Hooks : list (string * list HookMatcher)
}.

(** [&ClaudeAgentOptions{}]: every field has its zero value. *)
Definition zeroOptions : ClaudeAgentOptions := {|
  SystemPrompt := SystemPromptNil;
  Tools := ToolsNil;
  AllowedTools := [];
  DisallowedTools := [];
  MaxTurns := None;
  Model := None;
  FallbackModel := None;
  Betas := [];
  MaxBudgetUSD := None;
  MaxThinkingTokens := None;
  PermissionMode := None;
  PermissionPromptToolName := None;
  ContinueConversation := false;
  Resume := None;
  ForkSession := false;
  Settings := None;
  Sandbox := None;
  AddDirs := [];
  McpServers := [];
  IncludePartialMessages := false;
  Agents := [];
  SettingSources := None;
  Plugins := [];
  ExtraArgs := [];
  Env := [];
  EnableFileCheckpointing := false;
  Cwd := None;
  MaxBufferSize := None;
  ScannerInitialBufferSize := None;
  MessageChannelBufferSize := None;
  Stderr := None;
  CanUseTool := None;
  Hooks := []
|}.

(** [newOpts.PermissionPromptToolName = v] on a copy of the struct. *)
Definition setPermissionPromptToolName (o : ClaudeAgentOptions)
    (v : option string) : ClaudeAgentOptions := {|
  SystemPrompt := SystemPrompt o;
  Tools := Tools o;
  AllowedTools := AllowedTools o;
  DisallowedTools := DisallowedTools o;
  MaxTurns := MaxTurns o;
  Model := Model o;
  FallbackModel := FallbackModel o;
  Betas := Betas o;
  MaxBudgetUSD := MaxBudgetUSD o;
  MaxThinkingTokens := MaxThinkingTokens o;
  PermissionMode := PermissionMode o;
  PermissionPromptToolName := v;
  ContinueConversation := ContinueConversation o;
  Resume := Resume o;
  ForkSession := ForkSession o;
  Settings := Settings o;
  Sandbox := Sandbox o;
  AddDirs := AddDirs o;
  McpServers := McpServers o;
  IncludePartialMessages := IncludePartialMessages o;
  Agents := Agents o;
  SettingSources := SettingSources o;
  Plugins := Plugins o;
  ExtraArgs := ExtraArgs o;
  Env := Env o;
  EnableFileCheckpointing := EnableFileCheckpointing o;
  Cwd := Cwd o;
  MaxBufferSize := MaxBufferSize o;
  ScannerInitialBufferSize := ScannerInitialBufferSize o;
  MessageChannelBufferSize := MessageChannelBufferSize o;
  Stderr := Stderr o;
  CanUseTool := CanUseTool o;
  Hooks := Hooks o
|}.

(* ===================================================================== *)
(** * helpers.go: [validateAndConfigurePermissions]                      *)
(* ===================================================================== *)

Module Helpers.

(** The heap of [ClaudeAgentOptions] structs: an address is an index. *)
Definition Heap := list ClaudeAgentOptions.

(** [*ClaudeAgentOptions]: nil or an address. *)
Definition Ptr := option nat.

(** [&v] for a fresh struct [v]: the heap grows by one cell. *)
Definition alloc (h : Heap) (v : ClaudeAgentOptions) : Heap * nat :=
  (h ++ [v], List.length h).

Definition deref (h : Heap) (a : nat) : option ClaudeAgentOptions := nth_error h a.

Inductive outcome : Type :=
| Returned (options : Ptr) (err : option SDKError)
| NilDereference.

(** [validateAndConfigurePermissions(options, isStreaming)] on the heap
    [h]: what it returns and the heap it leaves. *)
Definition validateAndConfigurePermissions (h : Heap) (options : Ptr)
    (isStreaming : bool) : outcome * Heap :=
  match options with
  | None =>
      let (h', a) := alloc h zeroOptions in
      (Returned (Some a) None, h')
  | Some p =>
      match deref h p with
      | None => (NilDereference, h)
      | Some o =>
          match CanUseTool o with
          | Some _ =>
              if negb isStreaming then
                (Returned None
                   (Some (PlainError "can_use_tool callback requires streaming mode")),
                 h)
              else
                match PermissionPromptToolName o with
                | Some _ =>
                    (Returned None
                       (Some (PlainError
                          "can_use_tool callback cannot be used with permission_prompt_tool_name")),
                     h)
                | None =>
                    let stdio := "stdio" in
                    let newOpts := setPermissionPromptToolName o (Some stdio) in
                    let (h', a) := alloc h newOpts in
                    (Returned (Some a) None, h')
                end
          | None => (Returned (Some p) None, h)
          end
      end
  end.

End Helpers.


(* ===================================================================== *)
(** * The subprocess transport: settings, command line, [Connect]        *)
(* ===================================================================== *)

From Stdlib Require Import DecimalString.

(** What a Go function call comes to: a value, a returned error, or a
    run-time panic. *)
Inductive result (A : Type) : Type :=
| Ok (a : A)
| Err (e : SDKError)
| Panic (reason : string).

Arguments Ok {A} a.
Arguments Err {A} e.
Arguments Panic {A} reason.

Definition bind {A B : Type} (r : result A) (f : A -> result B) : result B :=
  match r with
  | Ok a => f a
  | Err e => Err e
  | Panic m => Panic m
  end.

Notation "x <- r ;; k" := (bind r (fun x => k))
  (at level 61, r at next level, right associativity).

(** [fmt.Sprintf("%d", n)] *)
Definition itoa (n : Z) : string := NilZero.string_of_int (Z.to_int n).

Module Transport.

Definition defaultMaxBufferSize : Z := (1024 * 1024)%Z.
Definition windowsCmdLengthLimit : Z := 8000%Z.
Definition nonWindowsCmdLengthLimit : Z := 100000%Z.

(** [prompt interface{}] by its dynamic type. *)
Inductive Prompt : Type :=
| PromptString (s : string)
| PromptChan
| PromptOther.

(** [*exec.Cmd] as far as the transport reads it: [Process] is set once
    the child is started, [ProcessState] once it was waited for. *)
Record Cmd : Type := {
  Path : string;
  Args : list string;
  Dir : string;
  cmdEnv : list string;
  Process : bool;
  ProcessState : option Z
}.

(** A pipe end held by the transport. *)
Inductive Pipe : Type := OpenPipe | ClosedPipe.

Record SubprocessCLITransport : Type := {
  prompt : Prompt;
  isStreaming : bool;
  options : ClaudeAgentOptions;
  cliPath : string;
  cwd : string;
  cmd : option Cmd;
  stdin : option Pipe;
  stdout : option Pipe;
  stderr : option Pipe;
  ready : bool;
  exitError : option SDKError;
  maxBufferSize : Z;
  tempFiles : list string
}.

(** [NewSubprocessCLITransport]; [findCLI] is what the search for the
    binary returns when [cliPath] is empty. *)
Definition NewSubprocessCLITransport (prompt : Prompt)
    (options : option ClaudeAgentOptions) (cliPath : string)
    (findCLI : result string) : result SubprocessCLITransport :=
  let options := match options with Some o => o | None => zeroOptions end in
  let isStreaming := match prompt with PromptChan => true | _ => false end in
  cliPath <- (if String.eqb cliPath "" then findCLI else Ok cliPath) ;;
  let cwd := match Cwd options with Some c => c | None => "" end in
  let maxBufferSize :=
    match MaxBufferSize options with Some n => n | None => defaultMaxBufferSize end in
  Ok {| prompt := prompt; isStreaming := isStreaming; options := options;
        cliPath := cliPath; cwd := cwd; cmd := None;
        stdin := None; stdout := None; stderr := None;
        ready := false; exitError := None;
        maxBufferSize := maxBufferSize; tempFiles := [] |}.

(** The arguments of [json.Marshal] in the transport. *)
Inductive Marshalable : Type :=
| MSettings (settingsObj : list (string * JSON.value))
| MMcpConfig (serversForCLI : list (string * McpServerConfig))
| MAgents (agents : list (string * AgentDefinition)).

(** The two mutexes of the transport: [mu] guards the state, [writeMu]
    serialises the writes to stdin. *)
Inductive mutex : Type := mu | writeMu.

(** What a method of the transport does, in order: operations on the
    mutexes and effects on the outside. *)
Inductive effect : Type :=
| Lock (m : mutex)
| Unlock (m : mutex)
| RLock (m : mutex)
| RUnlock (m : mutex)
| VersionProbe (e : Version.effect)
| StdinWrite (data : string)
| KillProcess
| WaitProcess
| WaitStderrReader
| CreateTemp (name : string)
| WriteFile (name : string) (content : string)
| CloseFile (name : string)
| RemoveFile (name : string)
| PrintStderr (text : string)
| StartProcess (c : Cmd)
| StartStderrReader
| CloseStdin.

(** The effect is an operation on a mutex. *)
Definition touchesMutex (e : effect) : bool :=
  match e with
  | Lock _ | Unlock _ | RLock _ | RUnlock _ => true
  | _ => false
  end.

(** No effect of the list is an operation on a mutex. *)
Definition quiet (effs : list effect) : bool :=
  forallb (fun e => negb (touchesMutex e)) effs.

(** The answers of the operating system. *)
Record OS : Type := {
  Getenv : string -> string;
  Environ : list string;
  (** [os.ReadFile]: the content, or [None] for an error *)
  ReadFile : string -> option string;
  (** [os.CreateTemp("", "claude-agents-*.json")]: the name of the file *)
  createTemp : option string;
  (** [tempFile.WriteString] succeeds *)
  writeString : bool;
  (** [os.Stat(path)]: nil error ([None]), or an error and whether
      [os.IsNotExist] holds of it *)
  Stat : string -> option bool;
  isWindows : bool;
  (** [cmd.Output()] of the version probe *)
  probeOutput : option string;
  StdinPipe : bool;
  StdoutPipe : bool;
  StderrPipe : bool;
  Start : bool;
  (** [t.stdin.Write] succeeds *)
  stdinWrite : bool;
  (** [os.Remove(name)] succeeds *)
  Remove : string -> bool;
  (** [t.stdin.Close()] in [EndInput] returns a nil error *)
  stdinClose : bool
}.


Section Build.

(** [json.Unmarshal(data, &settingsObj)]: the map afterwards and whether
    the error is nil. *)
Variable UnmarshalInto : string -> JSON.GoMap -> JSON.GoMap * bool.

(** [json.Marshal]: the text it returns, and its error ([None] for nil,
    else the message). *)
Variable Marshal : Marshalable -> string.
Variable MarshalError : Marshalable -> option string.

Variable os : OS.
Variable SDKVersion : string.

Definition sandboxJSON (s : SandboxSettings) : JSON.value :=
  match s with sandboxSettings j => j end.

(** The settings text is read into [settingsObj]: as JSON when it looks
    like an object, else (or when that fails) as the file it names. *)
Definition loadSettings (settings : string) (settingsObj : JSON.GoMap)
  : result JSON.GoMap :=
  let settingsStr := TrimSpace settings in
  if HasPrefix settingsStr "{" && HasSuffix settingsStr "}" then
    let (obj1, ok) := UnmarshalInto settingsStr settingsObj in
    if ok then Ok obj1
    else
      match ReadFile os settingsStr with
      | Some data =>
          let (obj2, ok2) := UnmarshalInto data obj1 in
          if ok2 then Ok obj2
          else Err (PlainError ("failed to parse settings file " ++ settingsStr)%string)
      | None => Ok obj1
      end
  else
    match ReadFile os settingsStr with
    | None => Ok settingsObj
    | Some data =>
        let (obj, ok) := UnmarshalInto data settingsObj in
        if ok then Ok obj
        else Err (PlainError ("failed to parse settings file " ++ settingsStr)%string)
    end.

(** [buildSettingsValue] *)
Definition buildSettingsValue (t : SubprocessCLITransport) : result string :=
  match Settings (options t), Sandbox (options t) with
  | None, None => Ok ""
  | Some settings, None => Ok settings
  | settings, Some sandbox =>
      let settingsObj := JSON.Map [] in
      settingsObj <- match settings with
                     | Some s => loadSettings s settingsObj
                     | None => Ok settingsObj
                     end ;;
      match settingsObj with
      | JSON.NilMap => Panic "assignment to entry in nil map"
      | JSON.Map ms =>
          let settingsObj := mapSet ms "sandbox" (sandboxJSON sandbox) in
          match MarshalError (MSettings settingsObj) with
          | Some e =>
              Err (PlainError ("failed to marshal settings: " ++ e)%string)
          | None => Ok (Marshal (MSettings settingsObj))
          end
      end
  end.

Definition isGoString (v : option GoValue) (s : string) : bool :=
  match v with
  | Some (GoString s') => String.eqb s' s
  | _ => false
  end.

Definition nonNil (v : option GoValue) : bool :=
  match v with
  | None | Some GoNil => false
  | Some _ => true
  end.

Definition systemPromptArgs (o : ClaudeAgentOptions) : result (list string) :=
  match SystemPrompt o with
  | SystemPromptNil => Ok ["--system-prompt"; ""]
  | SystemPromptString sp => Ok ["--system-prompt"; sp]
  | SystemPromptMap sp =>
      if isGoString (mapGet sp "type") "preset" && nonNil (mapGet sp "append")
      then match mapGet sp "append" with
           | Some (GoString a) => Ok ["--append-system-prompt"; a]
           | _ => Panic "interface conversion: interface {} is not string"
           end
      else Ok []
  | SystemPromptPreset (Some a) => Ok ["--append-system-prompt"; a]
  | SystemPromptPreset None => Ok []
  | SystemPromptOtherType => Ok []
  end.

Definition toolsArgs (o : ClaudeAgentOptions) : list string :=
  match Tools o with
  | ToolsNil => []
  | ToolsList [] => ["--tools"; ""]
  | ToolsList tools => ["--tools"; Join tools ","]
  | ToolsMap tools =>
      if isGoString (mapGet tools "type") "preset" then ["--tools"; "default"]
      else []
  | ToolsPreset => ["--tools"; "default"]
  | ToolsOtherType => []
  end.

Definition flagValue {A : Type} (flag : string) (show : A -> string)
    (v : option A) : list string :=
  match v with
  | Some a => [flag; show a]
  | None => []
  end.

Definition flagList (flag : string) (l : list string) : list string :=
  match l with
  | [] => []
  | _ => [flag; Join l ","]
  end.

Definition flagBool (flag : string) (v : bool) : list string :=
  if v then [flag] else [].

Definition id_string (s : string) : string := s.

(** The servers as the command line gets them: an SDK server without its
    instance. *)
Definition serversForCLI (servers : list (string * McpServerConfig))
  : list (string * McpServerConfig) :=
  map (fun '(name, config) =>
         match config with
         | McpSdkServerConfig ty nm _ => (name, McpSdkServerConfig ty nm 0)
         | _ => (name, config)
         end) servers.

Definition mcpArgs (o : ClaudeAgentOptions) : list string :=
  match McpServers o with
  | [] => []
  | servers => ["--mcp-config"; Marshal (MMcpConfig (serversForCLI servers))]
  end.

Definition agentsArgs (o : ClaudeAgentOptions) : list string :=
  match Agents o with
  | [] => []
  | agents => ["--agents"; Marshal (MAgents agents)]
  end.

Definition settingSourcesArgs (o : ClaudeAgentOptions) : list string :=
  match SettingSources o with
  | Some sources => ["--setting-sources"; Join sources ","]
  | None => ["--setting-sources"; ""]
  end.

Definition pluginArgs (o : ClaudeAgentOptions) : list string :=
  flat_map (fun p => if String.eqb (pluginType p) "local"
                     then ["--plugin-dir"; pluginPath p] else [])
           (Plugins o).

Definition extraArgs (o : ClaudeAgentOptions) : list string :=
  flat_map (fun '(flag, value) =>
              match value with
              | None => [("--" ++ flag)%string]
              | Some v => [("--" ++ flag)%string; v]
              end) (ExtraArgs o).

Definition inputArgs (t : SubprocessCLITransport) : result (list string) :=
  if isStreaming t then Ok ["--input-format"; "stream-json"]
  else match prompt t with
       | PromptString p => Ok ["--print"; "--"; p]
       | _ => Panic "interface conversion: interface {} is not string"
       end.

(** The arguments [buildCommand] appends before those of the agents;
    [sp] and [settingsValue] are what the system prompt and
    [buildSettingsValue] gave. *)
Definition argsBeforeAgents (o : ClaudeAgentOptions) (sp : list string)
    (settingsValue : string) : list string :=
  ["--output-format"; "stream-json"; "--verbose"]
  ++ sp
  ++ toolsArgs o
  ++ flagList "--allowedTools" (AllowedTools o)
  ++ flagList "--disallowedTools" (DisallowedTools o)
  ++ flagValue "--max-turns" itoa (MaxTurns o)
  ++ flagValue "--model" id_string (Model o)
  ++ flagValue "--fallback-model" id_string (FallbackModel o)
  ++ flagList "--betas" (Betas o)
  ++ flagValue "--max-budget-usd" id_string (MaxBudgetUSD o)
  ++ flagValue "--max-thinking-tokens" itoa (MaxThinkingTokens o)
  ++ flagValue "--permission-mode" id_string (PermissionMode o)
  ++ flagValue "--permission-prompt-tool" id_string (PermissionPromptToolName o)
  ++ flagBool "--continue" (ContinueConversation o)
  ++ flagValue "--resume" id_string (Resume o)
  ++ flagBool "--fork-session" (ForkSession o)
  ++ (if String.eqb settingsValue "" then [] else ["--settings"; settingsValue])
  ++ flat_map (fun dir => ["--add-dir"; dir]) (AddDirs o)
  ++ mcpArgs o
  ++ flagBool "--include-partial-messages" (IncludePartialMessages o).

(** The arguments [buildCommand] appends after those of the agents. *)
Definition argsAfterAgents (o : ClaudeAgentOptions) (input : list string)
  : list string :=
  settingSourcesArgs o ++ pluginArgs o ++ extraArgs o ++ input.

(** The argument vector [buildCommand] has built when it reaches the
    check of the length. *)
Definition buildArgs (t : SubprocessCLITransport) : result (list string) :=
  let o := options t in
  sp <- systemPromptArgs o ;;
  settingsValue <- buildSettingsValue t ;;
  input <- inputArgs t ;;
  Ok (argsBeforeAgents o sp settingsValue
      ++ agentsArgs o
      ++ argsAfterAgents o input).

Definition cmdLengthLimit : Z :=
  if isWindows os then windowsCmdLengthLimit else nonWindowsCmdLengthLimit.

(** [args[i] = v]; the index is in range where the code uses it. *)
Fixpoint setNth (args : list string) (i : nat) (v : string) : list string :=
  match args, i with
  | [], _ => []
  | _ :: r, O => v :: r
  | a :: r, S j => a :: setNth r j v
  end.

(** The index of the first ["--agents"] that is followed by another
    argument: where the loop over [args] stops. *)
Fixpoint findAgentsFlag (i : nat) (args : list string) : option nat :=
  match args with
  | arg :: ((_ :: _) as rest) =>
      if String.eqb arg "--agents" then Some i else findAgentsFlag (S i) rest
  | _ => None
  end.

Record built : Type := {
  builtArgs : list string;
  builtTempFiles : list string;
  builtEffects : list effect
}.

(** The last part of [buildCommand]: the check of the length and the
    move of the agents to a temporary file. *)
Definition spillAgents (t : SubprocessCLITransport) (args : list string) : built :=
  let cmdStr := Join args " " in
  let unchanged := {| builtArgs := args; builtTempFiles := tempFiles t;
                      builtEffects := [] |} in
  if (len cmdStr >? cmdLengthLimit)%Z
     && (0 <? Z.of_nat (List.length (Agents (options t))))%Z
  then
    match findAgentsFlag 0 args with
    | None => unchanged
    | Some i =>
        let agentsJSONValue := nth (S i) args "" in
        match createTemp os with
        | None =>
            {| builtArgs := args; builtTempFiles := tempFiles t;
               builtEffects :=
                 [PrintStderr "Warning: Failed to create temp file for long command"] |}
        | Some name =>
            if writeString os then
              {| builtArgs := setNth args (S i) ("@" ++ name)%string;
                 builtTempFiles := tempFiles t ++ [name];
                 builtEffects :=
                   [CreateTemp name; WriteFile name agentsJSONValue;
                    CloseFile name;
                    PrintStderr
                      ("Command line length (" ++ itoa (len cmdStr) ++
                       ") exceeds limit (" ++ itoa cmdLengthLimit ++
                       "). Using temp file for --agents: " ++ name)%string] |}
            else
              {| builtArgs := args; builtTempFiles := tempFiles t;
                 builtEffects :=
                   [CreateTemp name; CloseFile name; RemoveFile name;
                    PrintStderr "Warning: Failed to write to temp file"] |}
        end
    end
  else unchanged.

(** [buildCommand] *)
Definition buildCommand (t : SubprocessCLITransport) : result built :=
  args <- buildArgs t ;;
  Ok (spillAgents t args).

(** [buildEnv] *)
Definition buildEnv (t : SubprocessCLITransport) : list string :=
  Environ os
  ++ map (fun '(k, v) => (k ++ "=" ++ v)%string) (Env (options t))
  ++ ["CLAUDE_CODE_ENTRYPOINT=sdk-go"]
  ++ [("CLAUDE_AGENT_SDK_VERSION=" ++ SDKVersion)%string]
  ++ (if EnableFileCheckpointing (options t)
      then ["CLAUDE_CODE_ENABLE_SDK_FILE_CHECKPOINTING=true"] else [])
  ++ (if String.eqb (cwd t) "" then [] else [("PWD=" ++ cwd t)%string]).

Definition errorText (e : SDKError) : string :=
  match e with
  | CLIConnectionError m => m
  | CLIJSONDecodeError _ _ => "JSON message exceeded maximum buffer size"
  | ProcessError m _ => m
  | MessageParseError m => m
  | ContextError => "context done"
  | PlainError m => m
  end.

(** What a method returns: its result and the transport it leaves, with
    the effects in order. *)
Record ret (A : Type) : Type := {
  value : result A;
  after : SubprocessCLITransport;
  effects : list effect
}.

Arguments value {A} r.
Arguments after {A} r.
Arguments effects {A} r.

Definition setCmd (t : SubprocessCLITransport) (c : option Cmd)
    (files : list string) : SubprocessCLITransport :=
  {| prompt := prompt t; isStreaming := isStreaming t; options := options t;
     cliPath := cliPath t; cwd := cwd t; cmd := c;
     stdin := stdin t; stdout := stdout t; stderr := stderr t;
     ready := ready t; exitError := exitError t;
     maxBufferSize := maxBufferSize t; tempFiles := files |}.

Definition setPipes (t : SubprocessCLITransport)
    (i o e : option Pipe) : SubprocessCLITransport :=
  {| prompt := prompt t; isStreaming := isStreaming t; options := options t;
     cliPath := cliPath t; cwd := cwd t; cmd := cmd t;
     stdin := i; stdout := o; stderr := e;
     ready := ready t; exitError := exitError t;
     maxBufferSize := maxBufferSize t; tempFiles := tempFiles t |}.

Definition setReady (t : SubprocessCLITransport) (r : bool)
    (err : option SDKError) : SubprocessCLITransport :=
  {| prompt := prompt t; isStreaming := isStreaming t; options := options t;
     cliPath := cliPath t; cwd := cwd t; cmd := cmd t;
     stdin := stdin t; stdout := stdout t; stderr := stderr t;
     ready := r; exitError := err;
     maxBufferSize := maxBufferSize t; tempFiles := tempFiles t |}.

Definition withDir (c : Cmd) (dir : string) : Cmd :=
  {| Path := Path c; Args := Args c; Dir := dir; cmdEnv := cmdEnv c;
     Process := Process c; ProcessState := ProcessState c |}.

Definition withEnv (c : Cmd) (env : list string) : Cmd :=
  {| Path := Path c; Args := Args c; Dir := Dir c; cmdEnv := env;
     Process := Process c; ProcessState := ProcessState c |}.

Definition started (c : Cmd) : Cmd :=
  {| Path := Path c; Args := Args c; Dir := Dir c; cmdEnv := cmdEnv c;
     Process := true; ProcessState := ProcessState c |}.

(** [t.options.Stderr != nil || t.options.ExtraArgs["debug-to-stderr"] != nil] *)
Definition shouldPipeStderr (o : ClaudeAgentOptions) : bool :=
  match Stderr o with
  | Some _ => true
  | None => match mapGet (ExtraArgs o) "debug-to-stderr" with
            | Some (Some _) => true
            | _ => false
            end
  end.

(** The body of [Connect], between [t.mu.Lock()] and the deferred
    [t.mu.Unlock()]. *)
Definition connectBody (t : SubprocessCLITransport) : ret unit :=
  match cmd t with
  | Some _ => {| value := Ok tt; after := t; effects := [] |}
  | None =>
      let (verr, veffs) :=
        Version.checkClaudeVersion (cliPath t)
          (Getenv os "CLAUDE_AGENT_SDK_SKIP_VERSION_CHECK") (probeOutput os) in
      let e0 := map VersionProbe veffs in
      match verr with
      | Some e => {| value := Err e; after := t; effects := e0 |}
      | None =>
          match buildCommand t with
          | Panic m => {| value := Panic m; after := t; effects := e0 |}
          | Err e =>
              {| value := Err (PlainError
                   ("failed to build command: " ++ errorText e)%string);
                 after := t; effects := e0 |}
          | Ok bc =>
              let e1 := e0 ++ builtEffects bc in
              let c := {| Path := cliPath t; Args := builtArgs bc; Dir := "";
                          cmdEnv := []; Process := false;
                          ProcessState := None |} in
              let t1 := setCmd t (Some c) (builtTempFiles bc) in
              let missing :=
                negb (String.eqb (cwd t) "")
                && match Stat os (cwd t) with Some true => true | _ => false end in
              if missing then
                {| value := Err (CLIConnectionError
                     ("working directory does not exist: " ++ cwd t)%string);
                   after := t1; effects := e1 |}
              else
                let c := if String.eqb (cwd t) "" then c else withDir c (cwd t) in
                let c := withEnv c (buildEnv t) in
                let t2 := setCmd t1 (Some c) (tempFiles t1) in
                if negb (StdinPipe os) then
                  {| value := Err (CLIConnectionError "failed to create stdin pipe");
                     after := setPipes t2 None (stdout t2) (stderr t2);
                     effects := e1 |}
                else
                let t3 := setPipes t2 (Some OpenPipe) (stdout t2) (stderr t2) in
                if negb (StdoutPipe os) then
                  {| value := Err (CLIConnectionError "failed to create stdout pipe");
                     after := setPipes t3 (stdin t3) None (stderr t3);
                     effects := e1 |}
                else
                let t4 := setPipes t3 (stdin t3) (Some OpenPipe) (stderr t3) in
                let pipeErr := shouldPipeStderr (options t) in
                if pipeErr && negb (StderrPipe os) then
                  {| value := Err (CLIConnectionError "failed to create stderr pipe");
                     after := setPipes t4 (stdin t4) (stdout t4) None;
                     effects := e1 |}
                else
                let t5 := if pipeErr
                          then setPipes t4 (stdin t4) (stdout t4) (Some OpenPipe)
                          else t4 in
                if negb (Start os) then
                  let e := CLIConnectionError "failed to start Claude Code" in
                  {| value := Err e; after := setReady t5 (ready t5) (Some e);
                     effects := e1 |}
                else
                let c := started c in
                let t6 := setCmd t5 (Some c) (tempFiles t5) in
                let e2 := e1 ++ [StartProcess c]
                          ++ (if pipeErr then [StartStderrReader] else []) in
                if negb (isStreaming t) then
                  {| value := Ok tt;
                     after := setReady
                                (setPipes t6 (Some ClosedPipe) (stdout t6) (stderr t6))
                                true (exitError t6);
                     effects := e2 ++ [CloseStdin] |}
                else
                  {| value := Ok tt; after := setReady t6 true (exitError t6);
                     effects := e2 |}
          end
      end
  end.

(** [Connect] *)
Definition Connect (t : SubprocessCLITransport) : ret unit :=
  let r := connectBody t in
  {| value := value r; after := after r;
     effects := [Lock mu] ++ effects r ++ [Unlock mu] |}.

(** [Write].  Without a command ([t.cmd] nil) the read of
    [t.cmd.ProcessState] is a nil dereference. *)
Definition Write (t : SubprocessCLITransport) (data : string) : ret unit :=
  if negb (ready t) || match stdin t with None => true | Some _ => false end then
    {| value := Err (CLIConnectionError "transport is not ready for writing");
       after := t; effects := [RLock mu; RUnlock mu] |}
  else
    match cmd t with
    | None => {| value := Panic "nil pointer dereference"; after := t;
                 effects := [RLock mu] |}
    | Some c =>
        match ProcessState c, exitError t with
        | Some code, _ =>
            {| value := Err (CLIConnectionError
                 ("cannot write to terminated process (exit code: "
                  ++ itoa code ++ ")")%string);
               after := t; effects := [RLock mu; RUnlock mu] |}
        | None, Some e =>
            {| value := Err (CLIConnectionError
                 ("cannot write to process that exited with error: "
                  ++ errorText e)%string);
               after := t; effects := [RLock mu; RUnlock mu] |}
        | None, None =>
            if stdinWrite os then
              {| value := Ok tt; after := t;
                 effects := [RLock mu; RUnlock mu; Lock writeMu;
                             StdinWrite data; Unlock writeMu] |}
            else
              let e := CLIConnectionError "failed to write to process stdin" in
              {| value := Err e; after := setReady t false (Some e);
                 effects := [RLock mu; RUnlock mu; Lock writeMu;
                             Lock mu; Unlock mu; Unlock writeMu] |}
        end
    end.

(** [EndInput] *)
Definition EndInput (t : SubprocessCLITransport) : ret unit :=
  match stdin t with
  | Some _ =>
      {| value := if stdinClose os then Ok tt
                  else Err (PlainError "close of stdin failed");
         after := setPipes t None (stdout t) (stderr t);
         effects := [Lock writeMu; Lock mu; CloseStdin; Unlock mu; Unlock writeMu] |}
  | None =>
      {| value := Ok tt; after := t;
         effects := [Lock writeMu; Lock mu; Unlock mu; Unlock writeMu] |}
  end.

(** [IsReady] *)
Definition IsReady (t : SubprocessCLITransport) : ret bool :=
  {| value := Ok (ready t); after := t; effects := [RLock mu; RUnlock mu] |}.

(** What [Close] does to a transport with a command, between taking and
    releasing the mutexes: it closes stdin, kills the child if it runs,
    waits for it and for the stderr reader, and removes the temporary
    files. *)
Definition closeEffects (t : SubprocessCLITransport) (c : Cmd) : list effect :=
  match stdin t with Some _ => [CloseStdin] | None => [] end
  ++ (if Process c && match ProcessState c with None => true | _ => false end
      then [KillProcess] else [])
  ++ (if Process c then [WaitProcess] else [])
  ++ [WaitStderrReader]
  ++ flat_map
       (fun f => if Remove os f then [RemoveFile f]
                 else [RemoveFile f;
                       PrintStderr ("Warning: Failed to remove temp file " ++ f)%string])
       (tempFiles t).

(** [Close] *)
Definition Close (t : SubprocessCLITransport) : ret unit :=
  let t1 := setReady t false (exitError t) in
  match cmd t1 with
  | None =>
      {| value := Ok tt; after := t1;
         effects := [Lock writeMu; Lock mu; Unlock mu; Unlock writeMu] |}
  | Some c =>
      let t2 := setPipes t1 None (stdout t1) (stderr t1) in
      {| value := Ok tt;
         after := setReady (setCmd t2 None []) (ready t2) None;
         effects := [Lock writeMu; Lock mu] ++ closeEffects t1 c
                    ++ [Unlock mu; Unlock writeMu] |}
  end.

(** A call of a method of the transport. *)
Inductive call : Type :=
| CallConnect
| CallWrite (data : string)
| CallReadMessages
| CallEndInput
| CallIsReady
| CallClose.

(** The effects of a call on the transport [t]; [ReadMessages] starts its
    goroutine, which touches no mutex. *)
Definition callEffects (t : SubprocessCLITransport) (c : call) : list effect :=
  match c with
  | CallConnect => effects (Connect t)
  | CallWrite data => effects (Write t data)
  | CallReadMessages => []
  | CallEndInput => effects (EndInput t)
  | CallIsReady => effects (IsReady t)
  | CallClose => effects (Close t)
  end.

(** The close paths. *)
Definition isClosePath (c : call) : bool :=
  match c with
  | CallEndInput | CallClose => true
  | _ => false
  end.

Definition mutex_eqb (a b : mutex) : bool :=
  match a, b with
  | mu, mu | writeMu, writeMu => true
  | _, _ => false
  end.

(** [acquiresHolding inner outer held effs]: some operation of [effs]
    acquires [inner] (for reading or writing) at a moment when [outer] is
    held; [held] tells whether [outer] is held at the start. *)
Fixpoint acquiresHolding (inner outer : mutex) (held : bool)
    (effs : list effect) : bool :=
  match effs with
  | [] => false
  | e :: r =>
      match e with
      | Lock m | RLock m =>
          (held && mutex_eqb m inner)
          || acquiresHolding inner outer (held || mutex_eqb m outer) r
      | Unlock m | RUnlock m =>
          acquiresHolding inner outer (held && negb (mutex_eqb m outer)) r
      | _ => acquiresHolding inner outer held r
      end
  end.

End Build.

Arguments value {A} r.
Arguments after {A} r.
Arguments effects {A} r.

End Transport.


(* ===================================================================== *)
(** * Concurrent calls of [Write]: the interleaving semantics            *)
(* ===================================================================== *)

(** Several goroutines run [Write] on one transport.  Each goroutine is at
    a program point of [Write]; a step of the system is one step of one
    goroutine.  [t.stdin.Write] is not atomic: it hands its bytes to the
    pipe in chunks, and may fail after any of them. *)

Module Concurrent.

Import Transport.

(** The program points of [Write], in the order of the source. *)
Inductive pc : Type :=
| AtRLock                        (* t.mu.RLock() *)
| AtCheck                        (* the three checks, under the read lock *)
| AtRUnlockErr (e : SDKError)    (* t.mu.RUnlock(); return err *)
| AtRUnlock                      (* t.mu.RUnlock() *)
| AtWriteLock                    (* t.writeMu.Lock() *)
| AtStdinWrite (rest : bytes)    (* in t.stdin.Write, [rest] still to write *)
| AtErrLock                      (* t.mu.Lock() *)
| AtErrSet                       (* t.ready = false; t.exitError = ... *)
| AtErrUnlock                    (* t.mu.Unlock() *)
| AtWriteUnlock (r : option SDKError)  (* deferred t.writeMu.Unlock() *)
| Done (r : option SDKError).    (* returned *)

Record goroutine : Type := {
  data : bytes;
  at_ : pc
}.

(** The shared state: the fields of the transport the checks read, the
    two mutexes, and the bytes that reached the pipe, each with the
    goroutine that wrote it. *)
Record world : Type := {
  w_ready : bool;
  w_stdin : bool;                (* t.stdin != nil *)
  w_exited : bool;               (* t.cmd.ProcessState != nil *)
  w_exitError : option SDKError;
  muReaders : nat;
  muWriter : option nat;
  writeMuHolder : option nat;
  pipe : list (nat * ascii);
  goroutines : list goroutine
}.

(** The scheduler's choice for the goroutine it runs: how many bytes the
    next write to the pipe takes (at least one), or that it fails. *)
Inductive choice : Type :=
| Chunk (n : nat)
| Fail.

(** Goroutine [i] moves to the program point [p]. *)
Fixpoint setAtList (gs : list goroutine) (i : nat) (p : pc) : list goroutine :=
  match gs, i with
  | [], _ => []
  | g :: r, O => {| data := data g; at_ := p |} :: r
  | g :: r, S j => g :: setAtList r j p
  end.

Definition setAt (w : world) (i : nat) (p : pc) : list goroutine :=
  setAtList (goroutines w) i p.

Definition update (w : world) (i : nat) (p : pc)
    (readers : nat) (writer holder : option nat)
    (written : list (nat * ascii)) : world :=
  {| w_ready := w_ready w; w_stdin := w_stdin w; w_exited := w_exited w;
     w_exitError := w_exitError w;
     muReaders := readers; muWriter := writer; writeMuHolder := holder;
     pipe := pipe w ++ written;
     goroutines := setAt w i p |}.

Definition move (w : world) (i : nat) (p : pc) : world :=
  update w i p (muReaders w) (muWriter w) (writeMuHolder w) [].

Definition notReadyError : SDKError :=
  CLIConnectionError "transport is not ready for writing".
Definition terminatedError : SDKError :=
  CLIConnectionError "cannot write to terminated process".
Definition exitedError : SDKError :=
  CLIConnectionError "cannot write to process that exited with error".
Definition writeError : SDKError :=
  CLIConnectionError "failed to write to process stdin".

(** One step of goroutine [i]; [None] when it cannot move (it waits for
    a mutex, it has returned, or there is no such goroutine). *)
Definition step (i : nat) (c : choice) (w : world) : option world :=
  match nth_error (goroutines w) i with
  | None => None
  | Some g =>
      match at_ g with
      | AtRLock =>
          match muWriter w with
          | None => Some (update w i AtCheck (S (muReaders w)) None
                            (writeMuHolder w) [])
          | Some _ => None
          end
      | AtCheck =>
          if negb (w_ready w) || negb (w_stdin w)
          then Some (move w i (AtRUnlockErr notReadyError))
          else if w_exited w then Some (move w i (AtRUnlockErr terminatedError))
          else match w_exitError w with
               | Some _ => Some (move w i (AtRUnlockErr exitedError))
               | None => Some (move w i AtRUnlock)
               end
      | AtRUnlockErr e =>
          Some (update w i (Done (Some e)) (pred (muReaders w)) (muWriter w)
                  (writeMuHolder w) [])
      | AtRUnlock =>
          Some (update w i AtWriteLock (pred (muReaders w)) (muWriter w)
                  (writeMuHolder w) [])
      | AtWriteLock =>
          match writeMuHolder w with
          | None => Some (update w i (AtStdinWrite (data g)) (muReaders w)
                            (muWriter w) (Some i) [])
          | Some _ => None
          end
      | AtStdinWrite rest =>
          match c with
          | Fail => Some (move w i AtErrLock)
          | Chunk n =>
              match rest with
              | [] => Some (move w i (AtWriteUnlock None))
              | _ =>
                  Some (update w i (AtStdinWrite (skipn (S n) rest))
                          (muReaders w) (muWriter w) (writeMuHolder w)
                          (map (pair i) (firstn (S n) rest)))
              end
          end
      | AtErrLock =>
          match muWriter w, muReaders w with
          | None, O => Some (update w i AtErrSet 0 (Some i) (writeMuHolder w) [])
          | _, _ => None
          end
      | AtErrSet =>
          Some {| w_ready := false; w_stdin := w_stdin w; w_exited := w_exited w;
                  w_exitError := Some writeError;
                  muReaders := muReaders w; muWriter := muWriter w;
                  writeMuHolder := writeMuHolder w; pipe := pipe w;
                  goroutines := setAt w i AtErrUnlock |}
      | AtErrUnlock =>
          Some (update w i (AtWriteUnlock (Some writeError)) (muReaders w) None
                  (writeMuHolder w) [])
      | AtWriteUnlock r =>
          Some (update w i (Done r) (muReaders w) (muWriter w) None [])
      | Done _ => None
      end
  end.

(** A schedule: which goroutine runs next, with the choice for it.  A
    goroutine that cannot move is passed over. *)
Fixpoint run (schedule : list (nat * choice)) (w : world) : world :=
  match schedule with
  | [] => w
  | (i, c) :: rest =>
      match step i c w with
      | Some w' => run rest w'
      | None => run rest w
      end
  end.

(** The calls [Write(d)] for the [d] of [datas] start together on a
    transport in the given state, with both mutexes free and an empty
    pipe. *)
Definition start (ready stdin exited : bool) (exitError : option SDKError)
    (datas : list string) : world :=
  {| w_ready := ready; w_stdin := stdin; w_exited := exited;
     w_exitError := exitError;
     muReaders := 0; muWriter := None; writeMuHolder := None;
     pipe := [];
     goroutines := map (fun d => {| data := list_ascii_of_string d;
                                    at_ := AtRLock |}) datas |}.

(** The bytes of goroutine [i] in the pipe, in the order of the pipe. *)
Definition block (i : nat) (p : list (nat * ascii)) : list (nat * ascii) :=
  filter (fun x => Nat.eqb (fst x) i) p.

Definition bytesOf (i : nat) (p : list (nat * ascii)) : bytes :=
  map snd (block i p).

(** Goroutine [i] has returned [r]. *)
Definition returned (w : world) (i : nat) (r : option SDKError) : Prop :=
  exists g, nth_error (goroutines w) i = Some g /\ at_ g = Done r.

(** ** The invariant of the interleavings *)

(** The pipe as a sequence of segments, each the bytes one goroutine
    wrote while it held the write mutex. *)
Definition segments := list (nat * bytes).

Definition flatten (segs : segments) : list (nat * ascii) :=
  flat_map (fun '(i, bs) => map (pair i) bs) segs.

(** The last segment is the one of goroutine [i], and holds [bs]. *)
Definition lastSegment (segs : segments) (i : nat) (bs : bytes) : Prop :=
  exists segs', segs = segs' ++ [(i, bs)].

(** What the program point of goroutine [i] says about the write mutex
    and about its segment. *)
Definition goroutineInv (segs : segments) (holder : option nat)
    (i : nat) (g : goroutine) : Prop :=
  match at_ g with
  | AtRLock | AtCheck | AtRUnlockErr _ | AtRUnlock | AtWriteLock =>
      ~ In i (map fst segs) /\ holder <> Some i
  | AtStdinWrite rest =>
      holder = Some i /\ exists bs, lastSegment segs i bs /\ bs ++ rest = data g
  | AtErrLock | AtErrSet | AtErrUnlock | AtWriteUnlock (Some _) =>
      holder = Some i
      /\ exists bs rest, lastSegment segs i bs /\ bs ++ rest = data g
  | AtWriteUnlock None =>
      holder = Some i /\ lastSegment segs i (data g)
  | Done None =>
      holder <> Some i /\ In (i, data g) segs
  | Done (Some _) =>
      holder <> Some i
  end.

Definition worldInv (w : world) (segs : segments) : Prop :=
  pipe w = flatten segs
  /\ NoDup (map fst segs)
  /\ (forall i bs, In (i, bs) segs ->
        exists g rest, nth_error (goroutines w) i = Some g
                       /\ bs ++ rest = data g)
  /\ (forall i g, nth_error (goroutines w) i = Some g ->
        goroutineInv segs (writeMuHolder w) i g).

End Concurrent.

(* ===================================================================== *)
(** * [processQuery]: the goroutine that feeds the two channels          *)
(* ===================================================================== *)

Module Query.

Section ProcessQuery.

(** [map[string]interface{}] and [Message]. *)
Context {JSONObject Message : Type}.

(** [parseMessage], of the message parser. *)
Variable parseMessage : JSONObject -> Message + SDKError.

(** What one [select] of the loop takes. *)
Inductive selected : Type :=
| CtxDone
    (* <-ctx.Done() *)
| RecvError (err : option SDKError)
    (* err := <-q.ReceiveErrors(); nil from a closed channel *)
| RecvMessage (data : option JSONObject) (delivered : bool).
    (* data, ok := <-q.ReceiveMessages(); [None] when it is closed;
       [delivered]: the inner select sends the message (true) or
       finds the context done (false) *)

(** What the goroutine does to its channels and to the handler. *)
Inductive output : Type :=
| MsgCh (m : Message)
| ErrCh (e : SDKError)
| QClose
| CloseErrCh
| CloseMsgCh.

(** The deferred calls, last deferred first. *)
Definition deferred : list output := [QClose; CloseErrCh; CloseMsgCh].

(** The loop of the goroutine on the sequence of what its selects take;
    when the sequence ends the goroutine waits in [select]. *)
Fixpoint goroutine (sel : list selected) : list output :=
  match sel with
  | [] => []
  | CtxDone :: _ => ErrCh ContextError :: deferred
  | RecvError (Some err) :: _ => ErrCh err :: deferred
  | RecvError None :: rest => goroutine rest
  | RecvMessage None _ :: _ => deferred
  | RecvMessage (Some data) delivered :: rest =>
      match parseMessage data with
      | inr err => ErrCh err :: deferred
      | inl msg =>
          if delivered then MsgCh msg :: goroutine rest
          else ErrCh ContextError :: deferred
      end
  end.

(** The answers of the calls [processQuery] makes before it starts the
    goroutine: [None] for a nil error. *)
Record setup : Type := {
  newTransport : option SDKError;
  connect : option SDKError;
  startHandler : option SDKError;
  initialize : option SDKError;
  writePrompt : option SDKError
}.

(** [processQuery] with a string prompt ([streaming = false]) or a channel
    of prompts: the error it returns, or the outputs of its goroutine on
    the channels it returns. *)
Definition processQuery (h : Helpers.Heap) (options : Helpers.Ptr)
    (streaming : bool) (transGiven : bool) (s : setup)
    (sel : list selected) : SDKError + list output :=
  let (options, h) :=
    match options with
    | None => let (h', a) := Helpers.alloc h zeroOptions in (Some a, h')
    | Some a => (Some a, h)
    end in
  match Helpers.validateAndConfigurePermissions h options true with
  | (Helpers.Returned _ (Some err), _) => inl err
  | (Helpers.NilDereference, _) => inl (PlainError "invalid pointer")
  | (Helpers.Returned _ None, _) =>
      match (if transGiven then None else newTransport s) with
      | Some err => inl err
      | None =>
          match connect s with
          | Some err => inl err
          | None =>
              match startHandler s with
              | Some err => inl err
              | None =>
                  match initialize s with
                  | Some err => inl err
                  | None =>
                      match (if streaming then None else writePrompt s) with
                      | Some err => inl err
                      | None => inr (goroutine sel)
                      end
                  end
              end
          end
      end
  end.

(** [Query]: [processQuery] with a string prompt (the entry point tag it
    puts in the environment is not modelled). *)
Definition QueryString (h : Helpers.Heap) (options : Helpers.Ptr)
    (transGiven : bool) (s : setup) (sel : list selected)
  : SDKError + list output :=
  processQuery h options false transGiven s sel.

(** [QueryStream]: [processQuery] with a channel of prompts. *)
Definition QueryStream (h : Helpers.Heap) (options : Helpers.Ptr)
    (transGiven : bool) (s : setup) (sel : list selected)
  : SDKError + list output :=
  processQuery h options true transGiven s sel.

(** The values sent on the error channel. *)
Fixpoint errChValues (out : list output) : list SDKError :=
  match out with
  | [] => []
  | ErrCh e :: r => e :: errChValues r
  | _ :: r => errChValues r
  end.

(** At most one value goes to the error channel of a call that returned
    its channels. *)
Definition singleShot (r : SDKError + list output) : Prop :=
  match r with
  | inl _ => True
  | inr out => List.length (errChValues out) <= 1
  end.

(** Nothing is sent on the error channel after it was closed. *)
Fixpoint noSendAfterClose (closed : bool) (out : list output) : bool :=
  match out with
  | [] => true
  | ErrCh _ :: r => negb closed && noSendAfterClose closed r
  | CloseErrCh :: r => noSendAfterClose true r
  | _ :: r => noSendAfterClose closed r
  end.

End ProcessQuery.

End Query.


(* ===================================================================== *)
(** * Notions used to state the properties                               *)
(* ===================================================================== *)

Module ReaderSpec.

Import Reader.

Fixpoint joinAll (l : list string) : string :=
  match l with
  | [] => ""
  | s :: r => (s ++ joinAll r)%string
  end.

(** The fragments of a stream: its lines, each without the carriage
    return that ends it and trimmed, the blank ones left out. *)
Definition fragments (stdout : string) : list string :=
  filter (fun f => negb (String.eqb f ""))
    (map (fun raw => TrimSpace (string_of_list_ascii (Bufio.dropCR raw)))
       (Bufio.rawLines [] (list_ascii_of_string stdout))).

(** No line of the stream fills the scanner's buffer. *)
Definition shortLines (limit : Z) (stdout : string) : Prop :=
  forallb (fun raw => (Z.of_nat (List.length raw) <? limit)%Z)
    (Bufio.rawLines [] (list_ascii_of_string stdout)) = true.

(** What the goroutine sends on the error channel once the stream has
    ended: the read error, else the exit status of the child. *)
Definition closingErrors (readErr : option string) (wait : WaitResult)
  : list SDKError :=
  match readErr, wait with
  | Some _, _ => [CLIConnectionError "error reading from stdout"]
  | None, WaitExitError code => [ProcessError "command failed" code]
  | None, _ => []
  end.

Section Framing.

Context {JSONObject : Type}.
Variable Unmarshal : string -> option JSONObject.
Variable maxBufferSize : Z.

(** The fragments [g] are one object [v] cut at line ends: together they
    decode to [v] and fit the buffer, and no proper part of them from the
    start decodes. *)
Definition framed (g : list string) (v : JSONObject) : Prop :=
  g <> []
  /\ Unmarshal (joinAll g) = Some v
  /\ (len (joinAll g) <= maxBufferSize)%Z
  /\ forall g1 g2, g = g1 ++ g2 -> g1 <> [] -> g2 <> [] ->
       Unmarshal (joinAll g1) = None.

(** The inner loop on fragments that are already trimmed and not
    empty. *)
Fixpoint feed (frags : list string) (jsonBuffer : string)
  : list (@event JSONObject) * loopEnd :=
  match frags with
  | [] => ([], Running jsonBuffer)
  | f :: rest =>
      let jsonBuffer := (jsonBuffer ++ f)%string in
      if (len jsonBuffer >? maxBufferSize)%Z then
        ([WriteString jsonBuffer;
          SendErr (CLIJSONDecodeError maxBufferSize (len jsonBuffer))],
         Returned)
      else
        match Unmarshal jsonBuffer with
        | Some data =>
            let (evs, e) := feed rest "" in
            (WriteString jsonBuffer :: SendMsg data :: evs, e)
        | None =>
            let (evs, e) := feed rest jsonBuffer in
            (WriteString jsonBuffer :: evs, e)
        end
  end.

(** An event of a run in which the buffer stays within its bound and no
    error is sent. *)
Definition clean (ev : @event JSONObject) : Prop :=
  match ev with
  | WriteString buf => (len buf <= maxBufferSize)%Z
  | SendMsg _ => True
  | SendErr _ => False
  end.

(** The two events that end a run whose buffer outgrew its bound. *)
Definition overflow (buf : string) : list (@event JSONObject) :=
  [WriteString buf; SendErr (CLIJSONDecodeError maxBufferSize (len buf))].

(** The events of a loop: all clean, or clean up to the write that
    outgrows the bound, which ends the loop. *)
Definition loopShape (r : list (@event JSONObject) * loopEnd) : Prop :=
  Forall clean (fst r)
  \/ (snd r = Returned
      /\ exists pre buf, fst r = pre ++ overflow buf
                         /\ Forall clean pre
                         /\ (len buf > maxBufferSize)%Z).

End Framing.

End ReaderSpec.


(* ===================================================================== *)
(** * Concrete inputs                                                    *)
(* ===================================================================== *)

Module Examples.

Import Transport.

Definition nl : string := String LF "".

(** A context that is never done. *)
Definition live : nat -> bool := fun _ => false.

(** [json.Unmarshal(data, &m)] on an existing map: the decoder of
    [JSON]. *)
Definition UnmarshalInto : string -> JSON.GoMap -> JSON.GoMap * bool :=
  JSON.UnmarshalInto.

Definition quoted (s : string) : string :=
  (String (b 34) s ++ String (b 34) "")%string.

(** A printer of JSON values. *)
Fixpoint print (v : JSON.value) : string :=
  match v with
  | JSON.Null => "null"
  | JSON.Bool true => "true"
  | JSON.Bool false => "false"
  | JSON.Number n => n
  | JSON.Str s => quoted s
  | JSON.Array vs => "[" ++ Join (map print vs) "," ++ "]"
  | JSON.Object ms =>
      "{" ++ Join (map (fun '(k, x) => quoted k ++ ":" ++ print x) ms) "," ++ "}"
  end%string.

Definition agentJSON (a : AgentDefinition) : JSON.value :=
  JSON.Object
    ([("description", JSON.Str (agentDescription a));
      ("prompt", JSON.Str (agentPrompt a))]
     ++ match agentTools a with
        | [] => []
        | ts => [("tools", JSON.Array (map JSON.Str ts))]
        end
     ++ match agentModel a with
        | None => []
        | Some m => [("model", JSON.Str m)]
        end).

Definition serverJSON (c : McpServerConfig) : JSON.value :=
  match c with
  | McpSdkServerConfig ty nm _ =>
      JSON.Object [("type", JSON.Str ty); ("name", JSON.Str nm)]
  | McpExternalServerConfig v => v
  end.

(** An instance of [json.Marshal] for the examples (the entries of a map
    are printed in the order they are given). *)
Definition Marshal (m : Marshalable) : string :=
  match m with
  | MSettings obj => print (JSON.Object obj)
  | MMcpConfig servers =>
      print (JSON.Object
               [("mcpServers",
                 JSON.Object (map (fun '(k, c) => (k, serverJSON c)) servers))])
  | MAgents agents =>
      print (JSON.Object (map (fun '(k, a) => (k, agentJSON a)) agents))
  end.

(** [json.Marshal] returns no error on these values. *)
Definition MarshalError (m : Marshalable) : option string := None.

(** A system where everything succeeds: no file is readable, every path
    exists, the probe reports version 2.0.76. *)
Definition os0 : OS :=
  {| Getenv := fun _ => ""; Environ := [];
     ReadFile := fun _ => None;
     createTemp := Some "/tmp/claude-agents-1.json";
     writeString := true;
     Stat := fun _ => None;
     isWindows := true;
     probeOutput := Some "2.0.76 (Claude Code)";
     StdinPipe := true; StdoutPipe := true; StderrPipe := true;
     Start := true; stdinWrite := true; Remove := fun _ => true;
     stdinClose := true |}.

Definition setCreateTemp (os : OS) (r : option string) : OS :=
  {| Getenv := Getenv os; Environ := Environ os; ReadFile := ReadFile os;
     createTemp := r; writeString := writeString os;
     Stat := Stat os; isWindows := isWindows os;
     probeOutput := probeOutput os;
     StdinPipe := StdinPipe os; StdoutPipe := StdoutPipe os;
     StderrPipe := StderrPipe os; Start := Start os;
     stdinWrite := stdinWrite os; Remove := Remove os;
     stdinClose := stdinClose os |}.

Definition setStdinWrite (os : OS) (ok : bool) : OS :=
  {| Getenv := Getenv os; Environ := Environ os; ReadFile := ReadFile os;
     createTemp := createTemp os; writeString := writeString os;
     Stat := Stat os; isWindows := isWindows os;
     probeOutput := probeOutput os;
     StdinPipe := StdinPipe os; StdoutPipe := StdoutPipe os;
     StderrPipe := StderrPipe os; Start := Start os;
     stdinWrite := ok; Remove := Remove os; stdinClose := stdinClose os |}.

(** The directory [/missing] does not exist, and [settings.json] is a
    readable file whose content is not JSON. *)
Definition osMissingCwd (settingsFile : option string) : OS :=
  {| Getenv := fun _ => ""; Environ := [];
     ReadFile := fun name =>
       if String.eqb name "settings.json" then settingsFile else None;
     createTemp := Some "/tmp/claude-agents-1.json";
     writeString := true;
     Stat := fun name => if String.eqb name "/missing" then Some true else None;
     isWindows := false;
     probeOutput := Some "2.0.76 (Claude Code)";
     StdinPipe := true; StdoutPipe := true; StderrPipe := true;
     Start := true; stdinWrite := true; Remove := fun _ => true;
     stdinClose := true |}.

Definition withCwd (o : ClaudeAgentOptions) (dir : option string)
    (settings : option string) (sandbox : option SandboxSettings)
    (agents : list (string * AgentDefinition)) : ClaudeAgentOptions := {|
  SystemPrompt := SystemPrompt o;
  Tools := Tools o;
  AllowedTools := AllowedTools o;
  DisallowedTools := DisallowedTools o;
  MaxTurns := MaxTurns o;
  Model := Model o;
  FallbackModel := FallbackModel o;
  Betas := Betas o;
  MaxBudgetUSD := MaxBudgetUSD o;
  MaxThinkingTokens := MaxThinkingTokens o;
  PermissionMode := PermissionMode o;
  PermissionPromptToolName := PermissionPromptToolName o;
  ContinueConversation := ContinueConversation o;
  Resume := Resume o;
  ForkSession := ForkSession o;
  Settings := settings;
  Sandbox := sandbox;
  AddDirs := AddDirs o;
  McpServers := McpServers o;
  IncludePartialMessages := IncludePartialMessages o;
  Agents := agents;
  SettingSources := SettingSources o;
  Plugins := Plugins o;
  ExtraArgs := ExtraArgs o;
  Env := Env o;
  EnableFileCheckpointing := EnableFileCheckpointing o;
  Cwd := dir;
  MaxBufferSize := MaxBufferSize o;
  ScannerInitialBufferSize := ScannerInitialBufferSize o;
  MessageChannelBufferSize := MessageChannelBufferSize o;
  Stderr := Stderr o;
  CanUseTool := CanUseTool o;
  Hooks := Hooks o
|}.

Definition sandboxOn : SandboxSettings :=
  sandboxSettings (JSON.Object [("enabled", JSON.Bool true)]).

(** The transport [NewSubprocessCLITransport] makes for a streaming
    prompt and the options [o], with the binary at [claude]. *)
Definition transportOf (o : ClaudeAgentOptions) : SubprocessCLITransport :=
  {| prompt := PromptChan; isStreaming := true; options := o;
     cliPath := "claude";
     cwd := match Cwd o with Some c => c | None => "" end;
     cmd := None; stdin := None; stdout := None; stderr := None;
     ready := false; exitError := None;
     maxBufferSize :=
       match MaxBufferSize o with Some n => n | None => defaultMaxBufferSize end;
     tempFiles := [] |}.

(** One agent whose prompt has 8000 bytes. *)
Definition bigAgents : list (string * AgentDefinition) :=
  [("reviewer",
    {| agentDescription := "reviews code";
       agentPrompt := Repeat "x" 8000;
       agentTools := []; agentModel := None |})].

(** Two objects, the second cut in two lines, with blank lines and
    padding (boundary scenario 2 of the specification). *)
Definition twoObjects : string :=
  q "{'type':'system','subtype':'init'}" ++ nl
  ++ "  " ++ nl
  ++ q "  {'type':'result'," ++ String CR nl
  ++ q "'subtype':'success','is_error':false,'num_turns':0}" ++ nl.

(** One object of 20 bytes on two lines. *)
Definition oversized : string :=
  q "{'a':" ++ nl ++ q "'0123456789ab'}" ++ nl ++ q "{'b':1}" ++ nl.

End Examples.


Module Cases.

Import Transport Examples.

(** The options of the examples. *)
Definition optionsMissingCwd : ClaudeAgentOptions :=
  withCwd zeroOptions (Some "/missing") (Some "settings.json") (Some sandboxOn) [].




Definition optionsBigAgents : ClaudeAgentOptions :=
  withCwd zeroOptions None None None bigAgents.

(** The big agent again, with a system prompt that is the text of the
    flag of the agents. *)
Definition optionsAgentsPrompt : ClaudeAgentOptions := {|
  SystemPrompt := SystemPromptString "--agents";
  Tools := ToolsNil;
  AllowedTools := [];
  DisallowedTools := [];
  MaxTurns := None;
  Model := None;
  FallbackModel := None;
  Betas := [];
  MaxBudgetUSD := None;
  MaxThinkingTokens := None;
  PermissionMode := None;
  PermissionPromptToolName := None;
  ContinueConversation := false;
  Resume := None;
  ForkSession := false;
  Settings := None;
  Sandbox := None;
  AddDirs := [];
  McpServers := [];
  IncludePartialMessages := false;
  Agents := bigAgents;
  SettingSources := None;
  Plugins := [];
  ExtraArgs := [];
  Env := [];
  EnableFileCheckpointing := false;
  Cwd := None;
  MaxBufferSize := None;
  ScannerInitialBufferSize := None;
  MessageChannelBufferSize := None;
  Stderr := None;
  CanUseTool := None;
  Hooks := []
|}.

(** Options with a permission callback. *)
Definition optionsCanUseTool : ClaudeAgentOptions := {|
  SystemPrompt := SystemPromptNil;
  Tools := ToolsNil;
  AllowedTools := ["Read"];
  DisallowedTools := [];
  MaxTurns := Some 3%Z;
  Model := Some "sonnet";
  FallbackModel := None;
  Betas := [];
  MaxBudgetUSD := None;
  MaxThinkingTokens := None;
  PermissionMode := None;
  PermissionPromptToolName := None;
  ContinueConversation := false;
  Resume := None;
  ForkSession := false;
  Settings := None;
  Sandbox := None;
  AddDirs := [];
  McpServers := [];
  IncludePartialMessages := false;
  Agents := [];
  SettingSources := None;
  Plugins := [];
  ExtraArgs := [];
  Env := [];
  EnableFileCheckpointing := false;
  Cwd := None;
  MaxBufferSize := None;
  ScannerInitialBufferSize := None;
  MessageChannelBufferSize := None;
  Stderr := None;
  CanUseTool := Some (goFunc 1);
  Hooks := []
|}.

(** A transport after a successful [Connect]. *)
Definition connected : SubprocessCLITransport :=
  after (Connect UnmarshalInto Marshal MarshalError os0 "0.1.18" (transportOf zeroOptions)).

(** What [buildCommand] built, or an empty vector. *)
Definition builtOf (r : result built) : built :=
  match r with
  | Ok bc => bc
  | _ => {| builtArgs := []; builtTempFiles := []; builtEffects := [] |}
  end.

(** The arguments of the example with the big agent, as built. *)
Definition bigArgs : list string :=
  argsBeforeAgents Marshal optionsBigAgents ["--system-prompt"; ""] ""
  ++ "--agents" :: Marshal (MAgents bigAgents)
  :: argsAfterAgents optionsBigAgents ["--input-format"; "stream-json"].

(** The fragments and the values of [twoObjects]. *)
Definition twoObjectsGroups : list (list string) :=
  [[q "{'type':'system','subtype':'init'}"];
   [q "{'type':'result',";
    q "'subtype':'success','is_error':false,'num_turns':0}"]].

Definition twoObjectsValues : list JSON.GoMap :=
  [JSON.Map [("type", JSON.Str "system"); ("subtype", JSON.Str "init")];
   JSON.Map [("type", JSON.Str "result"); ("subtype", JSON.Str "success");
             ("is_error", JSON.Bool false); ("num_turns", JSON.Number "0")]].

(** Two calls [Write("ab")] and [Write("cd")] that pass the checks
    together; the first takes the write mutex and writes byte by byte
    while the second waits for the mutex, then the second writes. *)
Definition interleaved : list (nat * Concurrent.choice) :=
  let go := Concurrent.Chunk 0 in
  [(0, go); (1, go); (1, go); (0, go); (0, go); (1, go);
   (0, go); (1, go); (0, go); (1, go); (0, go); (1, go);
   (0, go); (0, go); (1, go); (1, go); (1, go); (1, go); (1, go)].

End Cases.


(* ===================================================================== *)
(** * Notions used to state further properties of the version probe      *)
(* ===================================================================== *)

Module VersionSpec.

Import Version.

(** The major number of a version token: the value of its leading run of
    digits, as [compareVersions] reads it. *)
Definition major (token : bytes) : Z :=
  Atoi (string_of_list_ascii (fst (JSON.digits token))).

(** The shape of a token: three runs of digits, none empty, with a dot
    between them. *)
Definition semverShape (m d1 d2 d3 : bytes) : Prop :=
  m = d1 ++ b 46 :: d2 ++ b 46 :: d3
  /\ d1 <> [] /\ d2 <> [] /\ d3 <> []
  /\ forallb JSON.isDigit d1 = true
  /\ forallb JSON.isDigit d2 = true
  /\ forallb JSON.isDigit d3 = true.

End VersionSpec.


(* ===================================================================== *)
(** * helpers.go: the conversions of hooks, servers and agents           *)
(* ===================================================================== *)

Module Conversions.

(** A Go map that can be nil: [None] for nil, else its entries in the
    order of the range (their keys differ from each other). *)
Definition GoMapOf (V : Type) : Type := option (list (string * V)).

(** [m[key]] on a map that can be nil. *)
Definition index {V : Type} (m : GoMapOf V) (key : string) : option V :=
  match m with
  | None => None
  | Some entries => mapGet entries key
  end.

(** [hookMatcherInternal] *)
Record hookMatcherInternal : Type := {
  internalMatcher : string;
  internalHooks : list GoFunc;
  internalTimeout : option string
}.

(** The struct literal in the inner loop of [convertHooksToInternal]. *)
Definition toInternal (m : HookMatcher) : hookMatcherInternal :=
  {| internalMatcher := Matcher m;
     internalHooks := hookCallbacks m;
     internalTimeout := hookTimeout m |}.

(** One turn of the loop of [convertHooksToInternal] over the events. *)
Definition hookStep (internalHooks : list (string * list hookMatcherInternal))
    (entry : string * list HookMatcher)
  : list (string * list hookMatcherInternal) :=
  let '(event, matchers) := entry in
  match matchers with
  | [] => internalHooks
  | _ => mapSet internalHooks event (map toInternal matchers)
  end.

(** [convertHooksToInternal] *)
Definition convertHooksToInternal (hooks : GoMapOf (list HookMatcher))
  : GoMapOf (list hookMatcherInternal) :=
  match hooks with
  | None => None
  | Some entries => Some (fold_left hookStep entries [])
  end.

(** One turn of the loop of [extractSdkMcpServers]. *)
Definition sdkStep (sdkMcpServers : list (string * nat))
    (entry : string * McpServerConfig) : list (string * nat) :=
  let '(name, config) := entry in
  match config with
  | McpSdkServerConfig _ _ instance => mapSet sdkMcpServers name instance
  | _ => sdkMcpServers
  end.

(** [extractSdkMcpServers]; the instance of an SDK server is the [nat]
    that names it. *)
Definition extractSdkMcpServers (servers : GoMapOf McpServerConfig)
  : GoMapOf nat :=
  match servers with
  | None => None
  | Some entries =>
      let sdkMcpServers := fold_left sdkStep entries [] in
      match sdkMcpServers with
      | [] => None
      | _ => Some sdkMcpServers
      end
  end.

(** The values [convertAgentsToDicts] stores in a dict. *)
Inductive DictValue : Type :=
| DString (s : string)
| DStrings (l : list string).

(** The body of the loop of [convertAgentsToDicts]: the dict of one
    agent. *)
Definition agentDict (name : string) (def : AgentDefinition)
  : list (string * DictValue) :=
  let agentDict := [("name", DString name);
                    ("description", DString (agentDescription def));
                    ("prompt", DString (agentPrompt def))] in
  let agentDict :=
    match agentTools def with
    | [] => agentDict
    | tools => mapSet agentDict "tools" (DStrings tools)
    end in
  match agentModel def with
  | Some model => mapSet agentDict "model" (DString model)
  | None => agentDict
  end.

(** [convertAgentsToDicts]: nil ([None]) for no agent, else one dict for
    each agent, in the order of the range. *)
Definition convertAgentsToDicts (agents : list (string * AgentDefinition))
  : option (list (list (string * DictValue))) :=
  match agents with
  | [] => None
  | _ => Some (map (fun '(name, def) => agentDict name def) agents)
  end.

(** Reading an agent back from its dict. *)
Definition agentOfDict (d : list (string * DictValue))
  : option (string * AgentDefinition) :=
  match mapGet d "name", mapGet d "description", mapGet d "prompt" with
  | Some (DString name), Some (DString description), Some (DString prompt) =>
      Some (name,
            {| agentDescription := description;
               agentPrompt := prompt;
               agentTools := match mapGet d "tools" with
                             | Some (DStrings tools) => tools
                             | _ => []
                             end;
               agentModel := match mapGet d "model" with
                             | Some (DString model) => Some model
                             | _ => None
                             end |})
  | _, _, _ => None
  end.

(** The configuration is that of an SDK server. *)
Definition sdkInstance (config : option McpServerConfig) : option nat :=
  match config with
  | Some (McpSdkServerConfig _ _ instance) => Some instance
  | _ => None
  end.

End Conversions.


(* ===================================================================== *)
(** * The search for the binary: [findCLI], [getBundledCLIPath] and the  *)
(** * download script                                                    *)
(* ===================================================================== *)

Module FindCLI.

(** [runtime.GOOS] and [runtime.GOARCH] *)
Record Platform : Type := {
  GOOS : string;
  GOARCH : string
}.

(** The answers of the file system and of the embedded file system. *)
Record FS : Type := {
  (** [bundledCLI.Open(path)] returns a nil error *)
  embedOpen : string -> bool;
  (** [embeddedFile.Stat()]: the size, or [None] for an error *)
  embedSize : string -> option Z;
  TempDir : string;
  (** [filepath.Join] *)
  Join : list string -> string;
  (** [os.MkdirAll(dir, 0755)] returns a nil error *)
  MkdirAll : string -> bool;
  (** [os.Stat(name)]: the size of the file, or [None] for an error *)
  statSize : string -> option Z;
  (** [os.OpenFile(name, O_CREATE|O_WRONLY|O_TRUNC, 0755)] returns a nil
      error *)
  OpenFile : string -> bool;
  (** [io.Copy(outFile, embeddedFile)] returns a nil error *)
  Copy : bool;
  (** [exec.LookPath] *)
  LookPath : string -> option string;
  (** [os.UserHomeDir()], its error dropped *)
  UserHomeDir : string;
  Getenv : string -> string
}.

(** The calls that reach the file system, in order. *)
Inductive access : Type :=
| DoLookPath (file : string)
| DoStat (name : string)
| DoMkdirAll (dir : string)
| DoOpenFile (name : string)
| DoCopy (name : string).

(** The call changes the file system. *)
Definition writes (a : access) : bool :=
  match a with
  | DoMkdirAll _ | DoOpenFile _ | DoCopy _ => true
  | _ => false
  end.

(** The switch on the platform in [getBundledCLIPath]: the name of the
    binary, or [None] where the function returns the empty path. *)
Definition bundledBinaryName (p : Platform) : option string :=
  if String.eqb (GOOS p) "darwin" then
    if String.eqb (GOARCH p) "amd64" then Some "claude-darwin-amd64"
    else if String.eqb (GOARCH p) "arm64" then Some "claude-darwin-arm64"
    else None
  else if String.eqb (GOOS p) "linux" then
    if String.eqb (GOARCH p) "amd64" then Some "claude-linux-amd64"
    else if String.eqb (GOARCH p) "arm64" then Some "claude-linux-arm64"
    else None
  else if String.eqb (GOOS p) "windows" then
    if String.eqb (GOARCH p) "amd64" then Some "claude-windows-amd64.exe"
    else None
  else None.

(** [getBundledCLIPath]: what it returns and its calls to the file
    system. *)
Definition getBundledCLIPath (p : Platform) (fs : FS)
  : result string * list access :=
  match bundledBinaryName p with
  | None => (Ok "", [])
  | Some binaryName =>
      let embeddedPath := ("_bundled/" ++ binaryName)%string in
      if negb (embedOpen fs embeddedPath) then (Ok "", [])
      else
        let tempDir := Join fs [TempDir fs; "claude-agent-sdk-go"] in
        if negb (MkdirAll fs tempDir) then
          (Err (PlainError "failed to create temp directory"),
           [DoMkdirAll tempDir])
        else
          let tempFile := Join fs [tempDir; binaryName] in
          let sameSize :=
            match statSize fs tempFile with
            | Some size =>
                embedOpen fs embeddedPath
                && match embedSize fs embeddedPath with
                   | Some embedded => (embedded =? size)%Z
                   | None => false
                   end
            | None => false
            end in
          if sameSize then
            (Ok tempFile, [DoMkdirAll tempDir; DoStat tempFile])
          else if negb (embedOpen fs embeddedPath) then
            (Err (PlainError "failed to open embedded CLI"),
             [DoMkdirAll tempDir; DoStat tempFile])
          else if negb (OpenFile fs tempFile) then
            (Err (PlainError "failed to create temp file"),
             [DoMkdirAll tempDir; DoStat tempFile; DoOpenFile tempFile])
          else if negb (Copy fs) then
            (Err (PlainError "failed to extract CLI binary"),
             [DoMkdirAll tempDir; DoStat tempFile; DoOpenFile tempFile;
              DoCopy tempFile])
          else
            (Ok tempFile,
             [DoMkdirAll tempDir; DoStat tempFile; DoOpenFile tempFile;
              DoCopy tempFile])
  end.

(** The installation places [findCLI] looks at, in order. *)
Definition locations (fs : FS) : list string :=
  let homeDir := UserHomeDir fs in
  [Join fs [homeDir; ".npm-global"; "bin"; "claude"];
   "/usr/local/bin/claude";
   Join fs [homeDir; ".local"; "bin"; "claude"];
   Join fs [homeDir; "node_modules"; ".bin"; "claude"];
   Join fs [homeDir; ".yarn"; "bin"; "claude"];
   Join fs [homeDir; ".claude"; "local"; "claude"]].

(** [for _, loc := range locations { if _, err := os.Stat(loc); err == nil
    { return loc, nil } }]: the first place that exists. *)
Fixpoint firstExisting (fs : FS) (locs : list string)
  : option string * list access :=
  match locs with
  | [] => (None, [])
  | loc :: rest =>
      match statSize fs loc with
      | Some _ => (Some loc, [DoStat loc])
      | None => let (r, acc) := firstExisting fs rest in (r, DoStat loc :: acc)
      end
  end.

(** What [findCLI] returns: a path, or the [CLINotFoundError]. *)
Inductive found : Type :=
| Found (path : string)
| CLINotFoundError.

(** [findCLI] *)
Definition findCLI (p : Platform) (fs : FS) : found * list access :=
  match LookPath fs "claude" with
  | Some path => (Found path, [DoLookPath "claude"])
  | None =>
      match firstExisting fs (locations fs) with
      | (Some loc, acc) => (Found loc, DoLookPath "claude" :: acc)
      | (None, acc) =>
          let (r, acc') := getBundledCLIPath p fs in
          let all := DoLookPath "claude" :: acc ++ acc' in
          match r with
          | Ok bundledPath =>
              if negb (String.eqb bundledPath "")
              then (Found bundledPath, all)
              else (CLINotFoundError, all)
          | _ => (CLINotFoundError, all)
          end
      end
  end.

(** ** scripts/download_cli.go *)

(** The switch on the platform in [downloadForCurrentPlatform]: the name
    of the binary, or the error returned. *)
Definition downloadBinaryName (p : Platform) : string + string :=
  if String.eqb (GOOS p) "darwin" then
    if String.eqb (GOARCH p) "amd64" then inl "claude-darwin-amd64"
    else if String.eqb (GOARCH p) "arm64" then inl "claude-darwin-arm64"
    else inr ("unsupported architecture: " ++ GOARCH p)%string
  else if String.eqb (GOOS p) "linux" then
    if String.eqb (GOARCH p) "amd64" then inl "claude-linux-amd64"
    else if String.eqb (GOARCH p) "arm64" then inl "claude-linux-arm64"
    else inr ("unsupported architecture: " ++ GOARCH p)%string
  else if String.eqb (GOOS p) "windows" then
    if String.eqb (GOARCH p) "amd64" then inl "claude-windows-amd64.exe"
    else inr ("unsupported architecture: " ++ GOARCH p)%string
  else inr ("unsupported OS: " ++ GOOS p)%string.

(** [findInstalledCLI] of the script: three places, then the PATH. *)
Definition installedLocations (fs : FS) : list string :=
  [Join fs [Getenv fs "HOME"; ".local"; "bin"; "claude"];
   "/usr/local/bin/claude";
   Join fs [Getenv fs "HOME"; "node_modules"; ".bin"; "claude"]].

Definition findInstalledCLI (fs : FS) : option string * list access :=
  match firstExisting fs (installedLocations fs) with
  | (Some path, acc) => (Some path, acc)
  | (None, acc) =>
      (LookPath fs "claude", acc ++ [DoLookPath "claude"])
  end.

(** The answers to the steps of the download. *)
Record Net : Type := {
  (** [http.Get(installURL)]: the status code, or [None] for an error *)
  httpGet : option Z;
  (** [os.Create(tempScript)] returns a nil error *)
  createScript : bool;
  (** [io.Copy(f, resp.Body)] returns a nil error *)
  saveScript : bool;
  (** [os.Chmod(tempScript, 0755)] returns a nil error *)
  chmodScript : bool;
  (** [cmd.Run()] of the install script returns a nil error *)
  runScript : bool;
  (** [os.Open(cliPath)] returns a nil error *)
  openSource : bool
}.

(** What the script does, in order. *)
Inductive action : Type :=
| HttpGet (url : string)
| CreateFile (name : string)
| SaveBody (name : string)
| Chmod (name : string)
| RunBash (args : list string)
| Sleep
| Look (a : access)
| OpenSource (name : string)
| WriteTarget (name : string)
| CopyTo (name : string)
| StatTarget (name : string).

Definition cliVersion : string := "2.0.56".
Definition installURL : string := "https://claude.ai/install.sh".

(** [downloadForCurrentPlatform]: the error it returns ([None] for nil)
    and what it did; the messages it prints are left out. *)
Definition downloadForCurrentPlatform (p : Platform) (fs : FS) (net : Net)
    (bundledDir : string) : option string * list action :=
  match downloadBinaryName p with
  | inr err => (Some err, [])
  | inl binaryName =>
      let a1 := [HttpGet installURL] in
      match httpGet net with
      | None => (Some "failed to download install script", a1)
      | Some status =>
          if negb (status =? 200)%Z
          then (Some ("failed to download install script: HTTP "
                      ++ itoa status)%string, a1)
          else
            let tempScript := Join fs [TempDir fs; "claude-install.sh"] in
            let a2 := a1 ++ [CreateFile tempScript] in
            if negb (createScript net)
            then (Some "failed to create temp script", a2)
            else
              let a3 := a2 ++ [SaveBody tempScript] in
              if negb (saveScript net)
              then (Some "failed to save install script", a3)
              else
                let a4 := a3 ++ [Chmod tempScript] in
                if negb (chmodScript net)
                then (Some "failed to make script executable", a4)
                else
                  let a5 := a4 ++ [RunBash ["bash"; tempScript; cliVersion]] in
                  if negb (runScript net)
                  then (Some "failed to install CLI", a5)
                  else
                    let (cli, acc) := findInstalledCLI fs in
                    let a6 := a5 ++ [Sleep] ++ map Look acc in
                    match cli with
                    | None => (Some "failed to find installed CLI", a6)
                    | Some cliPath =>
                        let targetPath := Join fs [bundledDir; binaryName] in
                        let a7 := a6 ++ [OpenSource cliPath] in
                        if negb (openSource net)
                        then (Some "failed to open source CLI", a7)
                        else
                          let a8 := a7 ++ [WriteTarget targetPath] in
                          if negb (OpenFile fs targetPath)
                          then (Some "failed to create target file", a8)
                          else
                            let a9 := a8 ++ [CopyTo targetPath] in
                            if negb (Copy fs)
                            then (Some "failed to copy CLI", a9)
                            else (None, a9 ++ [StatTarget targetPath])
                    end
      end
  end.

End FindCLI.


(* ===================================================================== *)
(** * The life of a transport: runs of calls, locks, environment         *)
(* ===================================================================== *)

Module Lifecycle.

Import Transport.

Section Run.

Variable UnmarshalInto : string -> JSON.GoMap -> JSON.GoMap * bool.
Variable Marshal : Marshalable -> string.
Variable MarshalError : Marshalable -> option string.
Variable SDKVersion : string.

(** The transport a call leaves, the system answering as [os];
    [ReadMessages] starts its goroutine and changes no field. *)
Definition callAfter (os : OS) (t : SubprocessCLITransport) (c : call)
  : SubprocessCLITransport :=
  match c with
  | CallConnect => after (Connect UnmarshalInto Marshal MarshalError os SDKVersion t)
  | CallWrite data => after (Write os t data)
  | CallReadMessages => t
  | CallEndInput => after (EndInput os t)
  | CallIsReady => after (IsReady t)
  | CallClose => after (Close os t)
  end.

(** What can happen to a transport: a call of a method, the system
    answering as [os], or the goroutine of [ReadMessages] reaching the end
    of the stream, where [cmd.Wait] records the state of the child and an
    exit error is stored in [exitError]. *)
Inductive step : Type :=
| Method (os : OS) (c : call)
| ReaderEnds (wait : Reader.WaitResult).

Definition withState (c : Cmd) (code : Z) : Cmd :=
  {| Path := Path c; Args := Args c; Dir := Dir c; cmdEnv := cmdEnv c;
     Process := Process c; ProcessState := Some code |}.

(** The end of the goroutine of [ReadMessages] on the fields of the
    transport. *)
Definition readerEnds (t : SubprocessCLITransport) (wait : Reader.WaitResult)
  : SubprocessCLITransport :=
  match wait with
  | Reader.WaitOK =>
      setCmd t (option_map (fun c => withState c 0) (cmd t)) (tempFiles t)
  | Reader.WaitExitError code =>
      setReady
        (setCmd t (option_map (fun c => withState c code) (cmd t)) (tempFiles t))
        (ready t) (Some (ProcessError "command failed" code))
  | Reader.WaitOtherError => t
  end.

Definition stepAfter (t : SubprocessCLITransport) (s : step)
  : SubprocessCLITransport :=
  match s with
  | Method os c => callAfter os t c
  | ReaderEnds wait => readerEnds t wait
  end.

Definition stepEffects (t : SubprocessCLITransport) (s : step) : list effect :=
  match s with
  | Method os c => callEffects UnmarshalInto Marshal MarshalError os SDKVersion t c
  | ReaderEnds _ => []
  end.

(** Steps taken one after another on a transport: the transport at the
    end and all the effects, in order. *)
Fixpoint run (steps : list step) (t : SubprocessCLITransport)
  : SubprocessCLITransport * list effect :=
  match steps with
  | [] => (t, [])
  | s :: rest =>
      let (t', effs) := run rest (stepAfter t s) in
      (t', stepEffects t s ++ effs)
  end.

End Run.

(** The temporary files created, and those [os.Remove] was called on. *)
Fixpoint created (effs : list effect) : list string :=
  match effs with
  | [] => []
  | CreateTemp name :: r => name :: created r
  | _ :: r => created r
  end.

Fixpoint removed (effs : list effect) : list string :=
  match effs with
  | [] => []
  | RemoveFile name :: r => name :: removed r
  | _ :: r => removed r
  end.

(** The data written to stdin. *)
Fixpoint written (effs : list effect) : list string :=
  match effs with
  | [] => []
  | StdinWrite data :: r => data :: written r
  | _ :: r => written r
  end.

(** The child processes started. *)
Fixpoint spawned (effs : list effect) : list Cmd :=
  match effs with
  | [] => []
  | StartProcess c :: r => c :: spawned r
  | _ :: r => spawned r
  end.

(** A transport without a command is idle: not ready, with no stdin and
    no temporary file. *)
Definition consistent (t : SubprocessCLITransport) : Prop :=
  cmd t = None ->
  ready t = false /\ stdin t = None /\ tempFiles t = [].

(** The step is a call of [Close]. *)
Definition isClose (s : step) : bool :=
  match s with
  | Method _ CallClose => true
  | _ => false
  end.

(** [Write] passes its checks on the transport: there is a command whose
    child was not waited for, the transport holds stdin, it is ready and
    records no exit error. *)
Definition writable (t : SubprocessCLITransport) : bool :=
  match cmd t, stdin t, exitError t with
  | Some c, Some _, None =>
      ready t && match ProcessState c with None => true | Some _ => false end
  | _, _, _ => false
  end.

(** A call ends in a panic. *)
Definition panics {A : Type} (r : result A) : bool :=
  match r with
  | Panic _ => true
  | _ => false
  end.

Definition failed {A : Type} (r : result A) : bool :=
  match r with
  | Ok _ => false
  | _ => true
  end.

(** ** The mutexes held by one goroutine *)

(** How the goroutine holds [mu]. *)
Inductive rw : Type := Free | Reading | Writing.

Record held : Type := {
  heldMu : rw;
  heldWriteMu : bool
}.

Definition none : held := {| heldMu := Free; heldWriteMu := false |}.

(** One operation on a mutex by a goroutine that holds [h].  [None]: the
    goroutine locks a mutex it holds already, and blocks for ever (the
    mutexes of Go are not reentrant), or unlocks one it does not hold,
    which is a fatal error; [writeMu] has no read lock. *)
Definition lockStep (h : held) (e : effect) : option held :=
  match e with
  | Lock mu =>
      match heldMu h with
      | Free => Some {| heldMu := Writing; heldWriteMu := heldWriteMu h |}
      | _ => None
      end
  | Unlock mu =>
      match heldMu h with
      | Writing => Some {| heldMu := Free; heldWriteMu := heldWriteMu h |}
      | _ => None
      end
  | RLock mu =>
      match heldMu h with
      | Free => Some {| heldMu := Reading; heldWriteMu := heldWriteMu h |}
      | _ => None
      end
  | RUnlock mu =>
      match heldMu h with
      | Reading => Some {| heldMu := Free; heldWriteMu := heldWriteMu h |}
      | _ => None
      end
  | Lock writeMu =>
      if heldWriteMu h then None
      else Some {| heldMu := heldMu h; heldWriteMu := true |}
  | Unlock writeMu =>
      if heldWriteMu h
      then Some {| heldMu := heldMu h; heldWriteMu := false |}
      else None
  | RLock writeMu | RUnlock writeMu => None
  | _ => Some h
  end.

Fixpoint lockRun (h : held) (effs : list effect) : option held :=
  match effs with
  | [] => Some h
  | e :: r =>
      match lockStep h e with
      | Some h' => lockRun h' r
      | None => None
      end
  end.

(** ** The environment of the child *)

(** An entry [key=value] of an environment: its key and its value, cut
    at the first [=]. *)
Fixpoint cutEntry (key : bytes) (l : bytes) : option (string * string) :=
  match l with
  | [] => None
  | c :: r =>
      if Ascii.eqb c (b 61)
      then Some (string_of_list_ascii (rev key), string_of_list_ascii r)
      else cutEntry (c :: key) r
  end.

(** The value a process started with the environment [env] sees for
    [key]: that of the last entry for the key. *)
Definition lookupEnv (env : list string) (key : string) : option string :=
  fold_left
    (fun seen entry =>
       match cutEntry [] (list_ascii_of_string entry) with
       | Some (k, v) => if String.eqb k key then Some v else seen
       | None => seen
       end)
    env None.

(** ** [handleStderr] *)

(** [bufio.MaxScanTokenSize], the limit of a scanner whose buffer was not
    set. *)
Definition MaxScanTokenSize : Z := (64 * 1024)%Z.

(** [handleStderr] on the bytes [stderr] of the child: the calls of the
    callback [t.options.Stderr], in order. *)
Definition handleStderr (callback : option GoFunc) (stderr : string)
  : list (GoFunc * string) :=
  let (lines, _) := Bufio.scanLines MaxScanTokenSize stderr in
  flat_map
    (fun line =>
       if String.eqb line "" then []
       else match callback with
            | Some f => [(f, line)]
            | None => []
            end)
    lines.

(** The bytes of a stream whose lines are [lines], each ended by a line
    feed. *)
Fixpoint unlines (lines : list string) : string :=
  match lines with
  | [] => ""
  | line :: rest => (line ++ String LF (unlines rest))%string
  end.

(** A line as the scanner delivers it unchanged: not empty, shorter than
    the limit, with no line feed in it and no carriage return at its
    end. *)
Definition plainLine (limit : Z) (line : string) : Prop :=
  line <> ""
  /\ (len line < limit)%Z
  /\ ~ In LF (list_ascii_of_string line)
  /\ Bufio.dropCR (list_ascii_of_string line) = list_ascii_of_string line.

End Lifecycle.


(* ===================================================================== *)
(** * Notions used to state further properties of the two goroutines     *)
(* ===================================================================== *)

Module TraceSpec.

Import Reader.

Section Reader.

Context {JSONObject : Type}.
Variable Unmarshal : string -> option JSONObject.
Variable maxBufferSize : Z.

(** Every message of a run was decoded from the buffer as it stood just
    before the send, and that buffer was not empty and within the bound;
    event by event: [prev] is the buffer written by the event just
    before, if that event was a write. *)
Fixpoint decodedFrom (prev : option string) (tr : list (@event JSONObject))
  : Prop :=
  match tr with
  | [] => True
  | WriteString buf :: r => decodedFrom (Some buf) r
  | SendMsg data :: r =>
      match prev with
      | Some buf =>
          Unmarshal buf = Some data /\ (0 < len buf <= maxBufferSize)%Z
      | None => False
      end
      /\ decodedFrom None r
  | SendErr _ :: r => decodedFrom None r
  end.

End Reader.

Section Query.

Context {JSONObject Message : Type}.

(** The messages the goroutine of [processQuery] takes from the handler,
    in order. *)
Fixpoint received (sel : list (@Query.selected JSONObject))
  : list JSONObject :=
  match sel with
  | [] => []
  | Query.RecvMessage (Some data) _ :: r => data :: received r
  | _ :: r => received r
  end.

(** How a run of the goroutine ends: it is still waiting, or it has
    returned, after at most one error, and its deferred calls have
    run. *)
Definition ending (tail : list (@Query.output Message)) : Prop :=
  tail = []
  \/ tail = Query.deferred
  \/ exists e, tail = Query.ErrCh e :: Query.deferred.

End Query.

End TraceSpec.


(* ===================================================================== *)
(** * Further concrete inputs                                            *)
(* ===================================================================== *)

Module MoreCases.

Import Transport Examples Cases Conversions FindCLI Lifecycle.

(** Two servers, one of them an SDK server. *)
Definition servers : list (string * McpServerConfig) :=
  [("calc", McpSdkServerConfig "sdk" "calc" 7);
   ("files", McpExternalServerConfig
               (JSON.Object [("command", JSON.Str "files-server")]))].

(** Hooks for two events, the second without a matcher. *)
Definition hooks : list (string * list HookMatcher) :=
  [("PreToolUse",
    [{| Matcher := "Bash"; hookCallbacks := [goFunc 1; goFunc 2];
        hookTimeout := Some "30" |};
     {| Matcher := "Write"; hookCallbacks := [goFunc 3];
        hookTimeout := None |}]);
   ("Stop", [])].

(** A transport with the big agent is connected, read from and written
    to; a write fails, the child exits with status 1, and the transport
    is closed. *)
Definition session : list step :=
  [Method os0 CallConnect; Method os0 CallReadMessages;
   Method os0 (CallWrite "hello");
   Method (setStdinWrite os0 false) (CallWrite "again");
   Method os0 CallIsReady; ReaderEnds (Reader.WaitExitError 1);
   Method os0 CallEndInput; Method os0 CallClose].

(** What follows a [Connect] that failed: another [Connect], a write,
    the end of the reader, the end of the input. *)
Definition afterFailedConnect : list step :=
  [Method os0 CallConnect; Method os0 (CallWrite "x");
   ReaderEnds Reader.WaitOK; Method os0 CallEndInput;
   Method os0 CallConnect].

(** What follows a write that failed: a [Connect], another write, the
    exit of the child, and [Close]. *)
Definition afterFailedWrite : list step :=
  [Method os0 CallConnect; Method os0 (CallWrite "y");
   ReaderEnds (Reader.WaitExitError 1); Method os0 CallEndInput;
   Method os0 CallClose].

(** The two objects of [twoObjects] without blank line, padding or
    carriage return. *)
Definition twoObjectsPlain : string :=
  q "{'type':'system','subtype':'init'}" ++ nl
  ++ q "{'type':'result'," ++ nl
  ++ q "'subtype':'success','is_error':false,'num_turns':0}" ++ nl.

(** A settings file with a model and a sandbox of its own. *)
Definition settingsFile : string := q "{'model':'x','sandbox':1}".

(** Two lines of the child on stderr. *)
Definition stderrLines : list string := ["warning: slow"; "done"].

End MoreCases.


(* ===================================================================== *)
(** * Facts about the string functions                                   *)
(* ===================================================================== *)

Module GoStringsFacts.

Lemma skipn_In (A : Type) (k : nat) (l : list A) (x : A) :
  In x (skipn k l) -> In x l.
Proof.
  revert l; induction k as [|k IH]; intros [|y l]; simpl; auto.
Qed.

Section DropRunes.

Variable runeLen : bytes -> nat.
Hypothesis runeLen_nil : runeLen [] = 0.

Lemma dropRunes_suffix fuel l :
  exists k, dropRunes runeLen fuel l = skipn k l.
Proof.
  revert l; induction fuel as [|fuel IH]; intros l; cbn [dropRunes].
  - exists 0; reflexivity.
  - destruct (runeLen l) as [|k] eqn:E.
    + exists 0; reflexivity.
    + destruct (IH (skipn (S k) l)) as [k' Hk'].
      exists (k' + S k). rewrite Hk'. apply skipn_skipn.
Qed.

Lemma dropRunes_id fuel l :
  runeLen l = 0 -> dropRunes runeLen fuel l = l.
Proof.
  destruct fuel; simpl; intros H; [reflexivity | rewrite H; reflexivity].
Qed.

Lemma dropRunes_done fuel l :
  List.length l <= fuel -> runeLen (dropRunes runeLen fuel l) = 0.
Proof.
  revert l; induction fuel as [|fuel IH]; intros l Hl; cbn [dropRunes].
  - destruct l; [apply runeLen_nil | simpl in Hl; lia].
  - destruct (runeLen l) as [|k] eqn:E; [exact E|].
    apply IH. rewrite length_skipn.
    destruct l; [rewrite runeLen_nil in E; discriminate | simpl in *; lia].
Qed.

Lemma dropRunes_In fuel l c :
  In c (dropRunes runeLen fuel l) -> In c l.
Proof.
  destruct (dropRunes_suffix fuel l) as [k ->]. apply skipn_In.
Qed.

End DropRunes.

Lemma spaceRuneLen_app x y :
  spaceRuneLen x <> 0 -> spaceRuneLen (x ++ y) <> 0.
Proof.
  unfold spaceRuneLen.
  destruct x as [|c1 [|c2 [|c3 x]]]; simpl; try congruence;
    destruct (isASCIISpace c1); try congruence;
    destruct (isSpace2 c1 c2); try congruence;
    destruct (isSpace3 c1 c2 c3); congruence.
Qed.

Lemma trimLeftSpace_done l : spaceRuneLen (trimLeftSpace l) = 0.
Proof. apply dropRunes_done; [reflexivity | lia]. Qed.

Lemma trimRightSpace_prefix l :
  exists m, trimRightSpace l = firstn m l.
Proof.
  unfold trimRightSpace.
  destruct (dropRunes_suffix spaceRuneLenRev (List.length (rev l)) (rev l))
    as [k Hk].
  rewrite length_rev in Hk. rewrite Hk.
  exists (List.length l - k).
  rewrite skipn_rev, rev_involutive. reflexivity.
Qed.

Lemma trimSpace_fixed l :
  let t := trimRightSpace (trimLeftSpace l) in
  trimRightSpace (trimLeftSpace t) = t.
Proof.
  intros t.
  assert (Hleft : trimLeftSpace t = t).
  { apply dropRunes_id.
    destruct (trimRightSpace_prefix (trimLeftSpace l)) as [m Hm].
    fold t in Hm.
    destruct (spaceRuneLen t) eqn:E; [reflexivity|].
    exfalso.
    apply (spaceRuneLen_app t (skipn m (trimLeftSpace l))).
    - rewrite E; discriminate.
    - rewrite Hm, firstn_skipn. apply trimLeftSpace_done. }
  rewrite Hleft.
  unfold trimRightSpace at 1. subst t. unfold trimRightSpace at 1 2.
  rewrite rev_involutive, dropRunes_id.
  - reflexivity.
  - apply dropRunes_done; [reflexivity | rewrite length_rev; lia].
Qed.

(** [TrimSpace] leaves a trimmed string as it is. *)
Lemma TrimSpace_idempotent s : TrimSpace (TrimSpace s) = TrimSpace s.
Proof.
  unfold TrimSpace.
  rewrite list_ascii_of_string_of_list_ascii.
  f_equal. apply trimSpace_fixed.
Qed.

Lemma TrimSpace_In s c :
  In c (list_ascii_of_string (TrimSpace s)) -> In c (list_ascii_of_string s).
Proof.
  unfold TrimSpace. rewrite list_ascii_of_string_of_list_ascii.
  unfold trimRightSpace, trimLeftSpace. intros H.
  apply in_rev in H. apply dropRunes_In in H. apply in_rev in H.
  apply dropRunes_In in H. exact H.
Qed.

Lemma splitBytes_none sep cur l :
  ~ In sep l ->
  splitBytes sep cur l = [string_of_list_ascii (rev cur ++ l)].
Proof.
  revert cur; induction l as [|c l IH]; intros cur H; simpl.
  - rewrite app_nil_r; reflexivity.
  - destruct (Ascii.eqb c sep) eqn:E.
    + apply Ascii.eqb_eq in E. subst. exfalso; apply H; left; reflexivity.
    + rewrite IH.
      * simpl. rewrite <- app_assoc. reflexivity.
      * intros Hin; apply H; right; exact Hin.
Qed.

(** A string without the separator is its own single piece. *)
Lemma Split_none s sep :
  ~ In sep (list_ascii_of_string s) -> Split s sep = [s].
Proof.
  intros H. unfold Split. rewrite splitBytes_none by exact H.
  simpl. rewrite string_of_list_ascii_of_string. reflexivity.
Qed.

Lemma len_append s1 s2 : len (s1 ++ s2) = (len s1 + len s2)%Z.
Proof.
  unfold len. rewrite <- Nat2Z.inj_add. f_equal.
  induction s1 as [|c s1 IH]; simpl; [reflexivity | rewrite IH; reflexivity].
Qed.

Lemma len_nonneg s : (0 <= len s)%Z.
Proof. unfold len; lia. Qed.

Lemma append_empty_r s : (s ++ "")%string = s.
Proof. induction s as [|c s IH]; simpl; [reflexivity | rewrite IH; reflexivity]. Qed.

Lemma append_assoc s1 s2 s3 :
  ((s1 ++ s2) ++ s3)%string = (s1 ++ (s2 ++ s3))%string.
Proof. induction s1 as [|c s1 IH]; simpl; [reflexivity | rewrite IH; reflexivity]. Qed.

End GoStringsFacts.
(* ===================================================================== *)
(** * Assignment and lookup in a map                                     *)
(* ===================================================================== *)

Module MapFacts.

Lemma mapGet_mapSet_same (V : Type) (m : list (string * V)) k v :
  mapGet (mapSet m k v) k = Some v.
Proof.
  induction m as [|[k0 v0] m IH]; simpl.
  - rewrite String.eqb_refl. reflexivity.
  - destruct (String.eqb k0 k) eqn:E; simpl; rewrite E; [reflexivity | exact IH].
Qed.

Lemma mapGet_mapSet_other (V : Type) (m : list (string * V)) k k' v :
  k <> k' -> mapGet (mapSet m k v) k' = mapGet m k'.
Proof.
  intros Hne. induction m as [|[k0 v0] m IH]; simpl.
  - destruct (String.eqb k k') eqn:E; [|reflexivity].
    apply String.eqb_eq in E. contradiction.
  - destruct (String.eqb k0 k) eqn:E; simpl.
    + apply String.eqb_eq in E. subst k0.
      destruct (String.eqb k k') eqn:E'; [|reflexivity].
      apply String.eqb_eq in E'. contradiction.
    + destruct (String.eqb k0 k'); [reflexivity | exact IH].
Qed.

Lemma mapGet_absent (V : Type) (m : list (string * V)) k :
  ~ In k (map fst m) -> mapGet m k = None.
Proof.
  induction m as [|[k0 v0] m IH]; simpl; intros H; [reflexivity|].
  destruct (String.eqb k0 k) eqn:E.
  - apply String.eqb_eq in E. exfalso. apply H. left; exact E.
  - apply IH. intros Hin. apply H. right; exact Hin.
Qed.

Lemma mapSet_nonempty (V : Type) (m : list (string * V)) k v :
  mapSet m k v <> [].
Proof.
  destruct m as [|[k0 v0] m]; simpl; [discriminate|].
  destruct (String.eqb k0 k); discriminate.
Qed.

Lemma mapSet_nil (V : Type) k (v : V) : mapSet [] k v = [(k, v)].
Proof. reflexivity. Qed.

End MapFacts.



(* ===================================================================== *)
(** * The JSON grammar: a text that decodes has no proper part from its
      start that decodes                                                 *)
(* ===================================================================== *)

Module JSONFacts.

Import JSON.

(** ** What follows the part a scanner took can grow *)

Lemma skipWS_ext l c r y :
  skipWS l = c :: r -> skipWS (l ++ y) = c :: r ++ y.
Proof.
  induction l as [|a l IH]; simpl; [discriminate|].
  destruct (isWS a); [exact IH|].
  intros H; injection H as <- <-. reflexivity.
Qed.

Lemma skipWS_nil_all l : skipWS l = [] -> forallb isWS l = true.
Proof.
  induction l as [|a l IH]; simpl; [reflexivity|].
  destruct (isWS a); [exact IH | discriminate].
Qed.

Lemma scanString_ext n : forall l acc s r y,
  List.length l <= n ->
  scanString acc l = Some (s, r) ->
  scanString acc (l ++ y) = Some (s, r ++ y).
Proof.
  induction n as [|n IH]; intros [|c l] acc s r y Hlen H; simpl in *;
    try discriminate; try lia.
  destruct (Ascii.eqb c (b 34)).
  { injection H as <- <-. reflexivity. }
  destruct (Ascii.eqb c (b 92)).
  { destruct l as [|e r1]; [discriminate|]. simpl in *.
    destruct (isEscape e).
    { apply IH; [lia | exact H]. }
    destruct (Ascii.eqb e (b 117)); [|discriminate].
    destruct r1 as [|h1 [|h2 [|h3 [|h4 r2]]]]; try discriminate. simpl in *.
    destruct (isHex h1 && isHex h2 && isHex h3 && isHex h4); [|discriminate].
    apply IH; [lia | exact H]. }
  destruct (Nat.ltb (nat_of_ascii c) 32); [discriminate|].
  apply IH; [lia | exact H].
Qed.

Lemma digits_ext l : forall ds c r y,
  digits l = (ds, c :: r) -> digits (l ++ y) = (ds, c :: r ++ y).
Proof.
  induction l as [|a l IH]; intros ds c r y H; simpl in *; [discriminate|].
  destruct (isDigit a).
  - destruct (digits l) as [ds' r'] eqn:E. injection H as <- ->.
    rewrite (IH ds' c r y eq_refl). reflexivity.
  - injection H as <- <- <-. reflexivity.
Qed.

Lemma digits_rest_nil_input ds : digits [] = (ds, []) -> ds = [].
Proof. simpl. intros H; injection H as <-. reflexivity. Qed.

Lemma scanInt_ext l i c r y :
  scanInt l = Some (i, c :: r) -> scanInt (l ++ y) = Some (i, c :: r ++ y).
Proof.
  destruct l as [|a l]; simpl; [discriminate|].
  destruct (Ascii.eqb a (b 48)).
  - intros H; injection H as <- ->. reflexivity.
  - destruct (isDigit a); [|discriminate].
    destruct (digits l) as [ds r'] eqn:E.
    intros H; injection H as <- ->.
    rewrite (digits_ext l ds c r y E). reflexivity.
Qed.

Lemma scanFrac_ext l f c r y :
  scanFrac l = Some (f, c :: r) -> scanFrac (l ++ y) = Some (f, c :: r ++ y).
Proof.
  destruct l as [|a l]; simpl; [discriminate|].
  destruct (Ascii.eqb a (b 46)).
  - destruct (digits l) as [[|d ds] r'] eqn:E; [discriminate|].
    intros H; injection H as <- ->.
    rewrite (digits_ext l (d :: ds) c r y E). reflexivity.
  - intros H; injection H as <- <- <-. reflexivity.
Qed.

Lemma scanExp_ext l e c r y :
  scanExp l = Some (e, c :: r) -> scanExp (l ++ y) = Some (e, c :: r ++ y).
Proof.
  destruct l as [|a l]; simpl; [discriminate|].
  destruct (Ascii.eqb a (b 101) || Ascii.eqb a (b 69)).
  - destruct l as [|s l0]; simpl.
    + discriminate.
    + destruct (Ascii.eqb s (b 43) || Ascii.eqb s (b 45)).
      * destruct (digits l0) as [[|d ds] r'] eqn:E; [discriminate|].
        intros H; injection H as <- ->.
        rewrite (digits_ext l0 (d :: ds) c r y E). reflexivity.
      * destruct (digits (s :: l0)) as [[|d ds] r'] eqn:E; [discriminate|].
        intros H; injection H as <- ->.
        change (s :: l0 ++ y) with ((s :: l0) ++ y).
        rewrite (digits_ext (s :: l0) (d :: ds) c r y E). reflexivity.
  - intros H; injection H as <- <- <-. reflexivity.
Qed.

Lemma scanFrac_nil f r : scanFrac [] = Some (f, r) -> r = [].
Proof. simpl. intros H; injection H as _ <-. reflexivity. Qed.

Lemma scanExp_nil e r : scanExp [] = Some (e, r) -> r = [].
Proof. simpl. intros H; injection H as _ <-. reflexivity. Qed.

Lemma scanNumber_ext l n c r y :
  scanNumber l = Some (n, c :: r) ->
  scanNumber (l ++ y) = Some (n, c :: r ++ y).
Proof.
  unfold scanNumber.
  assert (Hsign :
    forall l1 sign,
      (match scanInt l1 with
       | None => None
       | Some (i, l2) =>
           match scanFrac l2 with
           | None => None
           | Some (f, l3) =>
               match scanExp l3 with
               | None => None
               | Some (e, l4) => Some (sign ++ i ++ f ++ e, l4)
               end
           end
       end = Some (n, c :: r)) ->
      match scanInt (l1 ++ y) with
      | None => None
      | Some (i, l2) =>
          match scanFrac l2 with
          | None => None
          | Some (f, l3) =>
              match scanExp l3 with
              | None => None
              | Some (e, l4) => Some (sign ++ i ++ f ++ e, l4)
              end
          end
      end = Some (n, c :: r ++ y)).
  { intros l1 sign H.
    destruct (scanInt l1) as [[i l2]|] eqn:Ei; [|discriminate].
    destruct (scanFrac l2) as [[f l3]|] eqn:Ef; [|discriminate].
    destruct (scanExp l3) as [[e l4]|] eqn:Ee; [|discriminate].
    injection H as <- ->.
    destruct l3 as [|c3 l3]; [apply scanExp_nil in Ee; discriminate|].
    destruct l2 as [|c2 l2]; [apply scanFrac_nil in Ef; discriminate|].
    rewrite (scanInt_ext l1 i c2 l2 y Ei).
    change (c2 :: l2 ++ y) with ((c2 :: l2) ++ y).
    rewrite (scanFrac_ext (c2 :: l2) f c3 l3 y Ef).
    change (c3 :: l3 ++ y) with ((c3 :: l3) ++ y).
    rewrite (scanExp_ext (c3 :: l3) e c r y Ee). reflexivity. }
  destruct l as [|a l]; [simpl; discriminate|].
  cbn [app]. destruct (Ascii.eqb a (b 45)).
  - apply Hsign.
  - change (a :: l ++ y) with ((a :: l) ++ y). apply Hsign.
Qed.

Lemma stripPrefix_ext w : forall l r y,
  stripPrefix w l = Some r -> stripPrefix w (l ++ y) = Some (r ++ y).
Proof.
  induction w as [|x w IH]; intros [|a l] r y H; simpl in *;
    try discriminate.
  - injection H as <-. reflexivity.
  - injection H as <-. reflexivity.
  - destruct (Ascii.eqb x a); [apply IH; exact H | discriminate].
Qed.

(** ** The same for arrays, objects and values *)

Section Extension.

Variable pv : bytes -> option (value * bytes).
Hypothesis pv_nil : pv [] = None.
Hypothesis pv_ext : forall l v r y,
  pv l = Some (v, r) -> delimited v = true \/ r <> [] ->
  pv (l ++ y) = Some (v, r ++ y).

Lemma pv_after_skipWS l v r c r' y :
  pv (skipWS l) = Some (v, r) -> skipWS r = c :: r' ->
  pv (skipWS (l ++ y)) = Some (v, r ++ y)
  /\ skipWS (r ++ y) = c :: r' ++ y.
Proof.
  intros Hpv Hr.
  destruct (skipWS l) as [|c0 l0] eqn:El; [rewrite pv_nil in Hpv; discriminate|].
  rewrite (skipWS_ext l c0 l0 y El).
  split; [|apply skipWS_ext; exact Hr].
  change (c0 :: l0 ++ y) with ((c0 :: l0) ++ y).
  apply pv_ext; [exact Hpv|].
  right. intros ->. discriminate.
Qed.

Lemma parseElems_ext n : forall acc l vs r y,
  parseElems pv n acc l = Some (vs, r) ->
  parseElems pv n acc (l ++ y) = Some (vs, r ++ y).
Proof.
  induction n as [|n IH]; intros acc l vs r y H; simpl in *; [discriminate|].
  destruct (pv (skipWS l)) as [[v r0]|] eqn:Ev; [|discriminate].
  destruct (skipWS r0) as [|c r'] eqn:Er; [discriminate|].
  destruct (pv_after_skipWS l v r0 c r' y Ev Er) as [-> ->].
  destruct (Ascii.eqb c (b 44)); [apply IH; exact H|].
  destruct (Ascii.eqb c (b 93)); [|discriminate].
  injection H as <- <-. reflexivity.
Qed.

Lemma parseMembers_ext n : forall acc l ms r y,
  parseMembers pv n acc l = Some (ms, r) ->
  parseMembers pv n acc (l ++ y) = Some (ms, r ++ y).
Proof.
  induction n as [|n IH]; intros acc l ms r y H; simpl in *; [discriminate|].
  destruct (skipWS l) as [|q r0] eqn:El; [discriminate|].
  rewrite (skipWS_ext l q r0 y El).
  destruct (Ascii.eqb q (b 34)); [|discriminate].
  destruct (scanString [] r0) as [[k r1]|] eqn:Ek; [|discriminate].
  rewrite (scanString_ext (List.length r0) r0 [] k r1 y (le_n _) Ek).
  destruct (skipWS r1) as [|c r2] eqn:Er1; [discriminate|].
  rewrite (skipWS_ext r1 c r2 y Er1).
  destruct (Ascii.eqb c (b 58)); [|discriminate].
  destruct (pv (skipWS r2)) as [[v r3]|] eqn:Ev; [|discriminate].
  destruct (skipWS r3) as [|d r4] eqn:Er3; [discriminate|].
  destruct (pv_after_skipWS r2 v r3 d r4 y Ev Er3) as [-> ->].
  destruct (Ascii.eqb d (b 44)); [apply IH; exact H|].
  destruct (Ascii.eqb d (b 125)); [|discriminate].
  injection H as <- <-. reflexivity.
Qed.

End Extension.

(** More fuel, or a reader of values that reads more, keeps a result. *)
Section Monotone.

Variables pv pv' : bytes -> option (value * bytes).
Hypothesis pv_le : forall l res, pv l = Some res -> pv' l = Some res.

Lemma parseElems_mono n : forall n' acc l res,
  n <= n' -> parseElems pv n acc l = Some res ->
  parseElems pv' n' acc l = Some res.
Proof.
  induction n as [|n IH]; intros [|n'] acc l res Hle H; simpl in *;
    try discriminate; try lia.
  destruct (pv (skipWS l)) as [[v r0]|] eqn:Ev; [|discriminate].
  rewrite (pv_le _ _ Ev).
  destruct (skipWS r0) as [|c r']; [discriminate|].
  destruct (Ascii.eqb c (b 44)); [apply IH; [lia | exact H] | exact H].
Qed.

Lemma parseMembers_mono n : forall n' acc l res,
  n <= n' -> parseMembers pv n acc l = Some res ->
  parseMembers pv' n' acc l = Some res.
Proof.
  induction n as [|n IH]; intros [|n'] acc l res Hle H; simpl in *;
    try discriminate; try lia.
  destruct (skipWS l) as [|q r0]; [discriminate|].
  destruct (Ascii.eqb q (b 34)); [|discriminate].
  destruct (scanString [] r0) as [[k r1]|]; [|discriminate].
  destruct (skipWS r1) as [|c r2]; [discriminate|].
  destruct (Ascii.eqb c (b 58)); [|discriminate].
  destruct (pv (skipWS r2)) as [[v r3]|] eqn:Ev; [|discriminate].
  rewrite (pv_le _ _ Ev).
  destruct (skipWS r3) as [|d r4]; [discriminate|].
  destruct (Ascii.eqb d (b 44)); [apply IH; [lia | exact H] | exact H].
Qed.

Lemma parseValueStep_mono l res :
  parseValueStep pv l = Some res -> parseValueStep pv' l = Some res.
Proof.
  unfold parseValueStep. destruct l as [|c r]; [discriminate|].
  destruct (Ascii.eqb c (b 123)).
  { destruct (skipWS r) as [|d r']; [discriminate|].
    destruct (Ascii.eqb d (b 125)); [auto|].
    destruct (parseMembers pv (List.length r) [] r) as [[ms r'']|] eqn:E;
      [|discriminate].
    rewrite (parseMembers_mono _ _ _ _ _ (le_n _) E). auto. }
  destruct (Ascii.eqb c (b 91)).
  { destruct (skipWS r) as [|d r']; [discriminate|].
    destruct (Ascii.eqb d (b 93)); [auto|].
    destruct (parseElems pv (List.length r) [] r) as [[vs r'']|] eqn:E;
      [|discriminate].
    rewrite (parseElems_mono _ _ _ _ _ (le_n _) E). auto. }
  auto.
Qed.

End Monotone.

Lemma parseValue_mono f : forall f' l res,
  f <= f' -> parseValue f l = Some res -> parseValue f' l = Some res.
Proof.
  induction f as [|f IH]; intros [|f'] l res Hle H; simpl in *;
    try discriminate; try lia.
  apply (parseValueStep_mono (parseValue f) (parseValue f')); [|exact H].
  intros l0 res0. apply IH. lia.
Qed.

Lemma parseValue_nil f : parseValue f [] = None.
Proof. destruct f; reflexivity. Qed.

Lemma parseValueStep_ext pv l v r y :
  pv [] = None ->
  (forall l v r y, pv l = Some (v, r) -> delimited v = true \/ r <> [] ->
                   pv (l ++ y) = Some (v, r ++ y)) ->
  parseValueStep pv l = Some (v, r) ->
  delimited v = true \/ r <> [] ->
  parseValueStep pv (l ++ y) = Some (v, r ++ y).
Proof.
  intros pv_nil pv_ext H Hd.
  unfold parseValueStep in *. destruct l as [|c l]; [discriminate|].
  assert (Hle : List.length l <= List.length (l ++ y))
    by (rewrite length_app; lia).
  cbn [app].
  destruct (Ascii.eqb c (b 123)).
  { destruct (skipWS l) as [|d r'] eqn:El; [discriminate|].
    rewrite (skipWS_ext l d r' y El).
    destruct (Ascii.eqb d (b 125)).
    - injection H as <- <-. reflexivity.
    - destruct (parseMembers pv (List.length l) [] l) as [[ms r'']|] eqn:E;
        [|discriminate].
      injection H as <- <-.
      apply (parseMembers_ext pv pv_nil pv_ext) with (y := y) in E.
      rewrite (parseMembers_mono pv pv (fun _ _ h => h) _ _ _ _ _ Hle E).
      reflexivity. }
  destruct (Ascii.eqb c (b 91)).
  { destruct (skipWS l) as [|d r'] eqn:El; [discriminate|].
    rewrite (skipWS_ext l d r' y El).
    destruct (Ascii.eqb d (b 93)).
    - injection H as <- <-. reflexivity.
    - destruct (parseElems pv (List.length l) [] l) as [[vs r'']|] eqn:E;
        [|discriminate].
      injection H as <- <-.
      apply (parseElems_ext pv pv_nil pv_ext) with (y := y) in E.
      rewrite (parseElems_mono pv pv (fun _ _ h => h) _ _ _ _ _ Hle E).
      reflexivity. }
  destruct (Ascii.eqb c (b 34)).
  { destruct (scanString [] l) as [[s r']|] eqn:E; [|discriminate].
    injection H as <- <-.
    rewrite (scanString_ext (List.length l) l [] s r' y (le_n _) E). reflexivity. }
  destruct (Ascii.eqb c (b 116)).
  { destruct (stripPrefix _ (c :: l)) as [r'|] eqn:E; [|discriminate].
    injection H as <- <-.
    change (c :: l ++ y) with ((c :: l) ++ y).
    rewrite (stripPrefix_ext _ _ _ y E). reflexivity. }
  destruct (Ascii.eqb c (b 102)).
  { destruct (stripPrefix _ (c :: l)) as [r'|] eqn:E; [|discriminate].
    injection H as <- <-.
    change (c :: l ++ y) with ((c :: l) ++ y).
    rewrite (stripPrefix_ext _ _ _ y E). reflexivity. }
  destruct (Ascii.eqb c (b 110)).
  { destruct (stripPrefix _ (c :: l)) as [r'|] eqn:E; [|discriminate].
    injection H as <- <-.
    change (c :: l ++ y) with ((c :: l) ++ y).
    rewrite (stripPrefix_ext _ _ _ y E). reflexivity. }
  destruct (scanNumber (c :: l)) as [[n r']|] eqn:E; [|discriminate].
  injection H as <- <-.
  destruct Hd as [Hd|Hd]; [discriminate|].
  destruct r' as [|c' r']; [congruence|].
  change (c :: l ++ y) with ((c :: l) ++ y).
  rewrite (scanNumber_ext _ _ _ _ y E). reflexivity.
Qed.

(** A value that was read is read again, with the same result, when
    text is added after what follows it, provided the value shows where
    it ends or something follows it. *)
Lemma parseValue_ext f : forall l v r y,
  parseValue f l = Some (v, r) -> delimited v = true \/ r <> [] ->
  parseValue f (l ++ y) = Some (v, r ++ y).
Proof.
  induction f as [|f IH]; intros l v r y H Hd; simpl in *; [discriminate|].
  apply parseValueStep_ext; auto. apply parseValue_nil.
Qed.

(** ** No proper part from the start of a text decodes *)

Lemma list_ascii_of_string_app s1 s2 :
  list_ascii_of_string (s1 ++ s2)
  = list_ascii_of_string s1 ++ list_ascii_of_string s2.
Proof.
  induction s1 as [|c s1 IH]; simpl; [reflexivity | rewrite IH; reflexivity].
Qed.

Lemma endsWithWS_app a l :
  l <> [] -> endsWithWS (a ++ l) = endsWithWS l.
Proof.
  intros Hl. unfold endsWithWS. rewrite rev_app_distr.
  destruct (rev l) as [|c r] eqn:E; [|reflexivity].
  apply (f_equal (@rev ascii)) in E. rewrite rev_involutive in E.
  contradiction.
Qed.

Lemma all_WS_endsWithWS l :
  forallb isWS l = true -> l <> [] -> endsWithWS l = true.
Proof.
  intros Hall Hl. unfold endsWithWS.
  destruct (rev l) as [|c r] eqn:E.
  - apply (f_equal (@rev ascii)) in E. rewrite rev_involutive in E.
    contradiction.
  - rewrite forallb_forall in Hall. apply Hall.
    apply in_rev. rewrite E. left; reflexivity.
Qed.

(** If a text is a JSON value whose end shows in it and the text does
    not end with white space, no proper part of it from its start is such
    a value. *)
Lemma parse_prefix_free p x V V' :
  x <> "" ->
  parse (p ++ x) = Some V ->
  endsWithWS (list_ascii_of_string (p ++ x)) = false ->
  parse p = Some V' ->
  delimited V' = true ->
  False.
Proof.
  intros Hx Hfull Hend Ep Hdel.
  unfold parse in Ep, Hfull.
  rewrite list_ascii_of_string_app in Hfull, Hend.
  set (lp := list_ascii_of_string p) in *.
  set (lx := list_ascii_of_string x) in *.
  assert (Hlx : lx <> []).
  { subst lx. destruct x; [contradiction | discriminate]. }
  destruct (parseValue (S (List.length (skipWS lp))) (skipWS lp))
    as [[V0 r']|] eqn:Ev; [|discriminate].
  destruct (skipWS r') as [|c0 r0] eqn:Er'; [|discriminate].
  injection Ep as ->.
  destruct (skipWS lp) as [|c l0] eqn:Elp.
  { rewrite parseValue_nil in Ev. discriminate. }
  rewrite (skipWS_ext lp c l0 lx Elp) in Hfull.
  change (c :: l0 ++ lx) with ((c :: l0) ++ lx) in Hfull.
  pose proof (parseValue_ext _ _ _ _ lx Ev (or_introl Hdel)) as Hext.
  apply (parseValue_mono _ (S (List.length ((c :: l0) ++ lx)))) in Hext;
    [|rewrite length_app; lia].
  rewrite Hext in Hfull.
  destruct (skipWS (r' ++ lx)) as [|c1 r1] eqn:Eall; [|discriminate].
  apply skipWS_nil_all in Eall. rewrite forallb_app in Eall.
  apply andb_prop in Eall. destruct Eall as [_ Hall].
  rewrite (endsWithWS_app lp lx Hlx) in Hend.
  rewrite (all_WS_endsWithWS lx Hall Hlx) in Hend. discriminate.
Qed.

(** A text [Unmarshal] decodes is an object or [null] for the scanner. *)
Lemma Unmarshal_parse s v :
  Unmarshal s = Some v ->
  exists V, parse s = Some V /\ delimited V = true.
Proof.
  unfold Unmarshal, UnmarshalInto, checkValid.
  destruct (parse s) as [V|]; [|discriminate].
  destruct (depth V <=? maxNestingDepth)%Z; [|discriminate].
  intros H. exists V. split; [reflexivity|].
  destruct V; try discriminate; reflexivity.
Qed.

(** If a text decodes and does not end with white space, no proper part
    of it from its start decodes. *)
Lemma Unmarshal_prefix_free p x v :
  x <> "" ->
  Unmarshal (p ++ x) = Some v ->
  endsWithWS (list_ascii_of_string (p ++ x)) = false ->
  Unmarshal p = None.
Proof.
  intros Hx Hfull Hend.
  destruct (Unmarshal p) as [v'|] eqn:Ep; [exfalso | reflexivity].
  destruct (Unmarshal_parse _ _ Hfull) as (V & HV & _).
  destruct (Unmarshal_parse _ _ Ep) as (V' & HV' & Hdel).
  exact (parse_prefix_free p x V V' Hx HV Hend HV' Hdel).
Qed.

(** A text the scanner refuses stores nothing. *)
Lemma UnmarshalInto_invalid s m :
  checkValid s = None -> UnmarshalInto s m = (m, false).
Proof. unfold UnmarshalInto. intros ->. reflexivity. Qed.

(** [Unmarshal] refuses a text with a number out of the range of
    [float64], and a text nested too deep. *)
Lemma Unmarshal_checks s v :
  Unmarshal s = Some v ->
  exists V, parse s = Some V /\ (depth V <= maxNestingDepth)%Z
            /\ inRange V = true.
Proof.
  unfold Unmarshal, UnmarshalInto, checkValid.
  destruct (parse s) as [V|]; [|discriminate].
  destruct (Z.leb_spec (depth V) maxNestingDepth) as [Hd|Hd]; [|discriminate].
  intros H. exists V. split; [reflexivity|]. split; [exact Hd|].
  destruct V; try discriminate.
  - reflexivity.
  - destruct (inRange (Object members)); [reflexivity | discriminate].
Qed.

(** The border of [float64]: the largest number that does not round to
    infinity, the smallest that does, and a number too small, which is
    no error. *)
Example rangeError_border :
  rangeError "1.7976931348623158e308" = false
  /\ rangeError "1.797693134862315808e308" = true
  /\ rangeError "-1e999" = true
  /\ rangeError "1e-999" = false.
Proof. repeat apply conj; vm_compute; reflexivity. Qed.

End JSONFacts.


(* ===================================================================== *)
(** * The reader of stdout                                               *)
(* ===================================================================== *)

Module ReaderFacts.

Import Reader ReaderSpec GoStringsFacts.

(** ** The scanner *)

Lemma rawLines_no_LF l : forall cur raw,
  ~ In LF cur -> In raw (Bufio.rawLines cur l) -> ~ In LF raw.
Proof.
  induction l as [|c l IH]; intros cur raw Hcur Hin; simpl in Hin.
  - destruct cur; [destruct Hin|].
    destruct Hin as [<-|[]]. intros H; apply in_rev in H. exact (Hcur H).
  - destruct (Ascii.eqb c LF) eqn:E.
    + destruct Hin as [<-|Hin].
      * intros H; apply in_rev in H. exact (Hcur H).
      * apply (IH [] raw); [intros [] | exact Hin].
    + apply (IH (c :: cur) raw); [|exact Hin].
      intros [->|H]; [|exact (Hcur H)].
      rewrite Ascii.eqb_refl in E; discriminate.
Qed.

Lemma dropCR_In raw c : In c (Bufio.dropCR raw) -> In c raw.
Proof.
  unfold Bufio.dropCR. destruct (rev raw) as [|x r] eqn:E; [auto|].
  destruct (Ascii.eqb x CR); [|auto].
  intros H. apply in_rev. rewrite E. right. apply in_rev. exact H.
Qed.

Lemma scanTokens_short limit raws :
  forallb (fun raw => (Z.of_nat (List.length raw) <? limit)%Z) raws = true ->
  Bufio.scanTokens limit raws
  = (map (fun raw => string_of_list_ascii (Bufio.dropCR raw)) raws, false).
Proof.
  induction raws as [|raw raws IH]; simpl; [reflexivity|].
  intros H. apply andb_prop in H. destruct H as [Hraw Hrest].
  apply Z.ltb_lt in Hraw.
  destruct (Z.leb_spec limit (Z.of_nat (List.length raw))); [lia|].
  rewrite (IH Hrest). reflexivity.
Qed.

Section Facts.

Context {JSONObject : Type}.
Variable Unmarshal : string -> option JSONObject.
Variable maxBufferSize : Z.
Variable ScannerInitialBufferSize : option Z.
Variable ctxDone : nat -> bool.

Notation forJSONLines := (forJSONLines Unmarshal maxBufferSize).
Notation forScan := (forScan Unmarshal maxBufferSize ctxDone).
Notation feed := (feed Unmarshal maxBufferSize).
Notation clean := (clean (JSONObject := JSONObject) maxBufferSize).
Notation overflow := (overflow (JSONObject := JSONObject) maxBufferSize).
Notation loopShape := (loopShape (JSONObject := JSONObject) maxBufferSize).

(** ** The shape of the runs *)

Lemma loopShape_cons ev evs e :
  clean ev -> loopShape (evs, e) -> loopShape (ev :: evs, e).
Proof.
  intros Hev [H | (He & pre & buf & Hevs & Hpre & Hbuf)]; simpl in *.
  - left. constructor; assumption.
  - right. split; [exact He|]. exists (ev :: pre), buf. subst evs.
    repeat split; [constructor; assumption | exact Hbuf].
Qed.

Lemma loopShape_app evs evs' e :
  Forall clean evs -> loopShape (evs', e) -> loopShape (evs ++ evs', e).
Proof.
  induction 1 as [|ev evs Hev _ IH]; intros H; simpl; [exact H|].
  apply loopShape_cons; auto.
Qed.

Lemma forJSONLines_shape jsonLines : forall jsonBuffer,
  loopShape (forJSONLines jsonLines jsonBuffer).
Proof.
  induction jsonLines as [|jl rest IH]; intros buf; simpl.
  - left; constructor.
  - destruct (String.eqb (TrimSpace jl) ""); [apply IH|].
    destruct (Z.gtb_spec (len (buf ++ TrimSpace jl)) maxBufferSize) as [Hgt|Hle].
    + right. split; [reflexivity|].
      exists [], (buf ++ TrimSpace jl)%string.
      repeat split; [constructor | lia].
    + destruct (Unmarshal (buf ++ TrimSpace jl)) as [data|].
      * specialize (IH "").
        destruct (forJSONLines rest "") as [evs e].
        apply loopShape_cons; [exact Hle|].
        apply loopShape_cons; [exact I | exact IH].
      * specialize (IH (buf ++ TrimSpace jl)%string).
        destruct (forJSONLines rest (buf ++ TrimSpace jl)) as [evs e].
        apply loopShape_cons; [exact Hle | exact IH].
Qed.

Lemma running_clean (r : list (@event JSONObject) * loopEnd) buf :
  loopShape r -> snd r = Running buf -> Forall clean (fst r).
Proof.
  intros [H | (He & _)] Hr; [exact H | congruence].
Qed.

Lemma forScan_shape lines : forall k jsonBuffer,
  loopShape (forScan k lines jsonBuffer).
Proof.
  induction lines as [|line rest IH]; intros k buf; simpl.
  - left; constructor.
  - destruct (ctxDone k); [left; constructor|].
    destruct (String.eqb (TrimSpace line) ""); [apply IH|].
    pose proof (forJSONLines_shape (Split (TrimSpace line) LF) buf) as Hin.
    destruct (forJSONLines (Split (TrimSpace line) LF) buf) as [evs [buf'|]].
    + specialize (IH (S k) buf').
      destruct (forScan (S k) rest buf') as [evs' e].
      apply loopShape_app; [|exact IH].
      exact (running_clean _ buf' Hin eq_refl).
    + exact Hin.
Qed.

(** The events of [ReadMessages]: a clean run, with at most one error
    sent at its end, or a run cut by the write that outgrew the bound. *)
Lemma ReadMessages_shape stdout readErr wait :
  let tr := ReadMessages Unmarshal maxBufferSize ScannerInitialBufferSize
              ctxDone stdout readErr wait in
  (exists pre, Forall clean pre
     /\ (tr = pre
         \/ tr = pre ++ [SendErr (CLIConnectionError "error reading from stdout")]
         \/ exists code, tr = pre ++ [SendErr (ProcessError "command failed" code)]))
  \/ (exists pre buf, tr = pre ++ overflow buf
        /\ Forall clean pre /\ (len buf > maxBufferSize)%Z).
Proof.
  unfold ReadMessages.
  destruct (Bufio.scanLines _ stdout) as [lines tooLong].
  pose proof (forScan_shape lines 0 "") as Hs.
  destruct (forScan 0 lines "") as [evs [buf|]].
  - pose proof (running_clean _ buf Hs eq_refl) as Hc. simpl in Hc.
    left. exists evs. split; [exact Hc|].
    destruct (tooLong || _); [right; left; reflexivity|].
    destruct wait; [left; reflexivity | right; right; eexists; reflexivity
                   | left; reflexivity].
  - destruct Hs as [Hc | (_ & pre & buf & Hevs & Hpre & Hbuf)]; simpl in *.
    + left. exists evs. split; [exact Hc | left; reflexivity].
    + right. exists pre, buf. auto.
Qed.

Lemma clean_errCh (pre : list (@event JSONObject)) :
  Forall clean pre -> errCh pre = [].
Proof.
  induction 1 as [|ev evs Hev _ IH]; [reflexivity|].
  destruct ev; simpl in *; [exact IH | exact IH | destruct Hev].
Qed.

Lemma errCh_app (a c : list (@event JSONObject)) : errCh (a ++ c) = errCh a ++ errCh c.
Proof.
  induction a as [|ev a IH]; simpl; [reflexivity|].
  destruct ev; simpl; rewrite IH; reflexivity.
Qed.

Lemma msgCh_app (a c : list (@event JSONObject)) : msgCh (a ++ c) = msgCh a ++ msgCh c.
Proof.
  induction a as [|ev a IH]; simpl; [reflexivity|].
  destruct ev; simpl; rewrite IH; reflexivity.
Qed.

(** Where a write that outgrows the bound stands in a list of events
    whose other writes are within the bound. *)
Lemma split_at_overflow (pre tr1 tl tr2 : list (@event JSONObject)) buf b :
  Forall clean pre ->
  (len buf > maxBufferSize)%Z ->
  pre ++ WriteString b :: tl = tr1 ++ WriteString buf :: tr2 ->
  Forall clean tl \/ (exists e, tl = [SendErr e]) ->
  tr1 = pre /\ buf = b /\ tr2 = tl.
Proof.
  intros Hpre Hbuf. revert tr1.
  induction Hpre as [|ev pre Hev _ IH]; intros tr1 Heq Htl.
  - destruct tr1 as [|x tr1]; simpl in Heq.
    + injection Heq as -> ->. auto.
    + exfalso. injection Heq as _ Heq.
      assert (Hin : In (WriteString buf) tl)
        by (rewrite Heq; apply in_or_app; right; left; reflexivity).
      destruct Htl as [Hc | [e ->]].
      * rewrite Forall_forall in Hc. specialize (Hc _ Hin). simpl in Hc. lia.
      * destruct Hin as [Hin|[]]; discriminate.
  - destruct tr1 as [|x tr1]; simpl in Heq.
    + exfalso. injection Heq as -> _. simpl in Hev. lia.
    + injection Heq as -> Heq.
      destruct (IH tr1 Heq Htl) as (-> & -> & ->). auto.
Qed.

(** ** The loops on a stream whose context stays live *)

Lemma joinAll_app (a c : list string) :
  joinAll (a ++ c) = (joinAll a ++ joinAll c)%string.
Proof.
  induction a as [|s a IH]; simpl; [reflexivity|].
  rewrite IH, append_assoc. reflexivity.
Qed.

Lemma forScan_feed lines : forall k jsonBuffer,
  (forall n, ctxDone n = false) ->
  Forall (fun line => ~ In LF (list_ascii_of_string line)) lines ->
  forScan k lines jsonBuffer
  = feed (filter (fun f => negb (String.eqb f "")) (map TrimSpace lines))
      jsonBuffer.
Proof.
  induction lines as [|line rest IH]; intros k buf Hctx Hlf; [reflexivity|].
  inversion Hlf as [|? ? Hline Hrest]; subst.
  cbn [forScan map filter]. rewrite Hctx.
  destruct (String.eqb (TrimSpace line) "") eqn:Eline; cbn [negb].
  - apply IH; assumption.
  - rewrite Split_none
      by (intros Hin; apply TrimSpace_In in Hin; exact (Hline Hin)).
    cbn [forJSONLines ReaderSpec.feed].
    rewrite TrimSpace_idempotent, Eline.
    destruct (len (buf ++ TrimSpace line) >? maxBufferSize)%Z; [reflexivity|].
    destruct (Unmarshal (buf ++ TrimSpace line)) as [data|].
    + rewrite (IH (S k) "" Hctx Hrest).
      destruct (feed _ "") as [evs e]. reflexivity.
    + rewrite (IH (S k) _ Hctx Hrest).
      destruct (feed _ (buf ++ TrimSpace line)%string) as [evs e]. reflexivity.
Qed.

Lemma feed_cons f rest jsonBuffer :
  feed (f :: rest) jsonBuffer
  = if (len (jsonBuffer ++ f) >? maxBufferSize)%Z then
      (overflow (jsonBuffer ++ f)%string, Returned)
    else
      match Unmarshal (jsonBuffer ++ f) with
      | Some data =>
          (WriteString (jsonBuffer ++ f) :: SendMsg data :: fst (feed rest ""),
           snd (feed rest ""))
      | None =>
          (WriteString (jsonBuffer ++ f) :: fst (feed rest (jsonBuffer ++ f)%string),
           snd (feed rest (jsonBuffer ++ f)%string))
      end.
Proof.
  cbn [ReaderSpec.feed].
  destruct (len (jsonBuffer ++ f) >? maxBufferSize)%Z; [reflexivity|].
  destruct (Unmarshal (jsonBuffer ++ f)).
  - destruct (ReaderSpec.feed Unmarshal maxBufferSize rest ""); reflexivity.
  - destruct (ReaderSpec.feed Unmarshal maxBufferSize rest (jsonBuffer ++ f));
      reflexivity.
Qed.

Lemma feed_group v rest : forall g2 g1,
  g2 <> [] ->
  Unmarshal (joinAll (g1 ++ g2)) = Some v ->
  (len (joinAll (g1 ++ g2)) <= maxBufferSize)%Z ->
  (forall a c, g1 ++ g2 = a ++ c -> a <> [] -> c <> [] ->
     Unmarshal (joinAll a) = None) ->
  exists ws,
    feed (g2 ++ rest) (joinAll g1)
    = (ws ++ SendMsg v :: fst (feed rest ""), snd (feed rest ""))
    /\ msgCh ws = [] /\ errCh ws = [].
Proof.
  induction g2 as [|f g2 IH]; intros g1 Hne Hv Hlen Hpre; [congruence|].
  assert (Hbuf : (joinAll g1 ++ f)%string = joinAll (g1 ++ [f])).
  { rewrite joinAll_app. simpl. rewrite append_empty_r. reflexivity. }
  assert (Hsplit : g1 ++ f :: g2 = (g1 ++ [f]) ++ g2)
    by (rewrite <- app_assoc; reflexivity).
  assert (Hfit : (len (joinAll (g1 ++ [f])) <= maxBufferSize)%Z).
  { rewrite Hsplit, joinAll_app, len_append in Hlen.
    pose proof (len_nonneg (joinAll g2)). lia. }
  cbn [app]. rewrite feed_cons, Hbuf.
  destruct (Z.gtb_spec (len (joinAll (g1 ++ [f]))) maxBufferSize); [lia|].
  destruct g2 as [|f' g2].
  - rewrite Hv.
    exists [WriteString (joinAll (g1 ++ [f]))]. cbn. auto.
  - rewrite (Hpre (g1 ++ [f]) (f' :: g2) Hsplit)
      by (try discriminate; destruct g1; discriminate).
    destruct (IH (g1 ++ [f])) as (ws & Hws & Hm & He);
      try (rewrite <- Hsplit; assumption); [discriminate|].
    rewrite Hws. cbn [fst snd].
    exists (WriteString (joinAll (g1 ++ [f])) :: ws). cbn. auto.
Qed.

Lemma feed_groups groups vals :
  Forall2 (framed Unmarshal maxBufferSize) groups vals ->
  let r := feed (List.concat groups) "" in
  msgCh (fst r) = vals /\ errCh (fst r) = [] /\ snd r = Running "".
Proof.
  induction 1 as [|g v groups vals (Hne & Hv & Hlen & Hpre) _ IH];
    [cbn; auto|].
  cbn zeta in *. cbn [List.concat].
  destruct (feed_group v (List.concat groups) g [] Hne Hv Hlen Hpre)
    as (ws & Hws & Hm & He).
  cbn [joinAll] in Hws. rewrite Hws. cbn [fst snd].
  destruct IH as (IHm & IHe & IHr).
  rewrite msgCh_app, errCh_app, Hm, He. cbn.
  rewrite IHm, IHe. auto.
Qed.

End Facts.

(** The framing of a stream by any decoder.  A stream whose lines never
    fill the scanner's buffer is read while the context stays live.  If
    its fragments are, in order, the pieces of N values, each [framed],
    the reader sends the N values in order and no decode error. *)
Lemma ReadMessages_frames :
  forall (JSONObject : Type) (Unmarshal : string -> option JSONObject)
    (maxBufferSize : Z) (ScannerInitialBufferSize : option Z)
    (ctxDone : nat -> bool) (stdout : string) (readErr : option string)
    (wait : WaitResult) (groups : list (list string))
    (vals : list JSONObject),
    (forall n, ctxDone n = false) ->
    shortLines
      (Bufio.bufferLimit (initialSize ScannerInitialBufferSize) maxBufferSize)
      stdout ->
    fragments stdout = List.concat groups ->
    Forall2 (framed Unmarshal maxBufferSize) groups vals ->
    let tr := ReadMessages Unmarshal maxBufferSize ScannerInitialBufferSize
                ctxDone stdout readErr wait in
    msgCh tr = vals /\ errCh tr = closingErrors readErr wait.
Proof.
  intros J Unmarshal maxB init ctxDone stdout readErr wait groups vals
    Hctx Hshort Hfrag Hframed tr. subst tr.
  unfold ReadMessages, Bufio.scanLines.
  unfold shortLines in Hshort. rewrite (scanTokens_short _ _ Hshort).
  rewrite forScan_feed; [|exact Hctx|].
  - rewrite map_map. unfold fragments in Hfrag. rewrite Hfrag.
    destruct (feed_groups Unmarshal maxB groups vals Hframed) as (Hm & He & Hr).
    cbv zeta in *.
    destruct (feed Unmarshal maxB (List.concat groups) "") as [evs e].
    cbn [fst snd] in *. subst e. cbn [orb].
    unfold closingErrors.
    destruct readErr; [rewrite msgCh_app, errCh_app, Hm, He, app_nil_r; auto|].
    destruct wait; try (rewrite msgCh_app, errCh_app, Hm, He, app_nil_r); auto.
  - rewrite Forall_map. rewrite Forall_forall. intros raw Hin Hlf.
    rewrite list_ascii_of_string_of_list_ascii in Hlf.
    apply dropCR_In in Hlf.
    exact (rawLines_no_LF _ [] raw (fun f => f) Hin Hlf).
Qed.

(** ** Fragments of JSON texts *)

Lemma isWS_isASCIISpace c : JSON.isWS c = true -> isASCIISpace c = true.
Proof.
  unfold JSON.isWS, isASCIISpace. cbv zeta.
  rewrite !orb_true_iff, !Nat.eqb_eq.
  intros [[[H|H]|H]|H]; rewrite H; [right | left | left | left]; reflexivity.
Qed.

Lemma TrimSpace_no_trailing s :
  JSON.endsWithWS (list_ascii_of_string (TrimSpace s)) = false.
Proof.
  unfold TrimSpace. rewrite list_ascii_of_string_of_list_ascii.
  unfold trimRightSpace, JSON.endsWithWS. rewrite rev_involutive.
  set (l := trimLeftSpace (list_ascii_of_string s)).
  assert (H : spaceRuneLenRev
                (dropRunes spaceRuneLenRev (List.length l) (rev l)) = 0).
  { apply GoStringsFacts.dropRunes_done; [reflexivity|].
    rewrite length_rev. lia. }
  destruct (dropRunes spaceRuneLenRev (List.length l) (rev l)) as [|c r];
    [reflexivity|].
  destruct (JSON.isWS c) eqn:E; [|reflexivity].
  apply isWS_isASCIISpace in E. cbn [spaceRuneLenRev] in H.
  rewrite E in H. discriminate.
Qed.

Lemma fragments_trimmed stdout f :
  In f (fragments stdout) ->
  f <> "" /\ JSON.endsWithWS (list_ascii_of_string f) = false.
Proof.
  unfold fragments. rewrite filter_In, in_map_iff.
  intros [[raw [<- _]] Hne]. split.
  - intros E. rewrite E in Hne. discriminate.
  - apply TrimSpace_no_trailing.
Qed.

Lemma joinAll_trimmed g :
  g <> [] ->
  (forall f, In f g ->
     f <> "" /\ JSON.endsWithWS (list_ascii_of_string f) = false) ->
  joinAll g <> ""
  /\ JSON.endsWithWS (list_ascii_of_string (joinAll g)) = false.
Proof.
  induction g as [|f r IH]; [congruence|]. intros _ Hall.
  destruct (Hall f (or_introl eq_refl)) as [Hf Hend].
  cbn [joinAll]. split.
  - destruct f; [congruence | discriminate].
  - destruct r as [|f' r'].
    + cbn [joinAll]. rewrite GoStringsFacts.append_empty_r. exact Hend.
    + destruct IH as [Hne Hend']; [discriminate | |].
      { intros f0 H0. apply Hall. right; exact H0. }
      rewrite JSONFacts.list_ascii_of_string_app.
      rewrite JSONFacts.endsWithWS_app; [exact Hend'|].
      destruct (joinAll (f' :: r')); [congruence | discriminate].
Qed.

(** Trimmed fragments that decode together as JSON are [framed]: no
    proper part of a JSON text from its start is a JSON text. *)
Lemma framed_JSON maxBufferSize g v :
  (forall f, In f g ->
     f <> "" /\ JSON.endsWithWS (list_ascii_of_string f) = false) ->
  JSON.Unmarshal (joinAll g) = Some v ->
  (len (joinAll g) <= maxBufferSize)%Z ->
  framed JSON.Unmarshal maxBufferSize g v.
Proof.
  intros Hall Hdec Hlen. unfold framed.
  assert (Hg : g <> []).
  { intros ->. cbn [joinAll] in Hdec. vm_compute in Hdec. discriminate. }
  repeat apply conj; try assumption.
  intros g1 g2 -> Hg1 Hg2.
  rewrite joinAll_app in Hdec.
  apply (JSONFacts.Unmarshal_prefix_free _ (joinAll g2) v).
  - apply joinAll_trimmed; [exact Hg2|].
    intros f Hf. apply Hall. apply in_or_app. right; exact Hf.
  - exact Hdec.
  - rewrite <- joinAll_app. apply joinAll_trimmed; assumption.
Qed.

(** [C1] (amended) A stream whose lines never fill the scanner's buffer
    is read while the context stays live.  If its fragments (the
    non-blank lines, trimmed) are, in order, the pieces of N JSON objects,
    each object decoding from its pieces put together and no longer than
    [maxBufferSize], the reader sends exactly the N decoded objects on the
    message channel, in the order of the stream, and no decode error: the
    error channel carries only what the end of the stream brings (a read
    error or the exit status of the child). *)
Theorem ReadMessages_frames_objects :
  forall (maxBufferSize : Z) (ScannerInitialBufferSize : option Z)
    (ctxDone : nat -> bool) (stdout : string) (readErr : option string)
    (wait : WaitResult) (groups : list (list string))
    (vals : list JSON.GoMap),
    (forall n, ctxDone n = false) ->
    shortLines
      (Bufio.bufferLimit (initialSize ScannerInitialBufferSize) maxBufferSize)
      stdout ->
    fragments stdout = List.concat groups ->
    Forall2 (fun g v => JSON.Unmarshal (joinAll g) = Some v
                        /\ (len (joinAll g) <= maxBufferSize)%Z)
      groups vals ->
    let tr := ReadMessages JSON.Unmarshal maxBufferSize
                ScannerInitialBufferSize ctxDone stdout readErr wait in
    msgCh tr = vals /\ errCh tr = closingErrors readErr wait.
Proof.
  intros maxB init ctxDone stdout readErr wait groups vals
    Hctx Hshort Hfrag Hgroups.
  apply (ReadMessages_frames JSON.GoMap JSON.Unmarshal maxB init ctxDone
           stdout readErr wait groups vals Hctx Hshort Hfrag).
  assert (Hin : forall g, In g groups -> forall f, In f g ->
            f <> "" /\ JSON.endsWithWS (list_ascii_of_string f) = false).
  { intros g Hg f Hf. apply (fragments_trimmed stdout). rewrite Hfrag.
    apply in_concat. exists g. split; assumption. }
  clear Hfrag Hshort.
  induction Hgroups as [|g v gs vs [Hdec Hlen] _ IH]; constructor.
  - apply framed_JSON; [|exact Hdec|exact Hlen].
    apply Hin. left; reflexivity.
  - apply IH. intros g' Hg'. apply Hin. right; exact Hg'.
Qed.

(** [C2] Whenever the accumulation buffer of [ReadMessages] grows past
    [maxBufferSize], the goroutine does exactly one more thing: it sends
    a [CLIJSONDecodeError] on the error channel.  It writes to the buffer
    no more, sends no further message, and that error is the only value
    the error channel ever carries. *)
Theorem ReadMessages_buffer_overflow :
  forall (JSONObject : Type) (Unmarshal : string -> option JSONObject)
    (maxBufferSize : Z) (ScannerInitialBufferSize : option Z)
    (ctxDone : nat -> bool) (stdout : string) (readErr : option string)
    (wait : WaitResult) (tr1 tr2 : list (@event JSONObject))
    (jsonBuffer : string),
    ReadMessages Unmarshal maxBufferSize ScannerInitialBufferSize ctxDone
      stdout readErr wait
    = tr1 ++ WriteString jsonBuffer :: tr2 ->
    (len jsonBuffer > maxBufferSize)%Z ->
    tr2 = [SendErr (CLIJSONDecodeError maxBufferSize (len jsonBuffer))]
    /\ errCh (tr1 ++ WriteString jsonBuffer :: tr2)
       = [CLIJSONDecodeError maxBufferSize (len jsonBuffer)]
    /\ msgCh (tr1 ++ WriteString jsonBuffer :: tr2) = msgCh tr1.
Proof.
  intros J Unmarshal maxB init ctxDone stdout readErr wait tr1 tr2 buf Htr Hbuf.
  pose proof (ReadMessages_shape Unmarshal maxB init ctxDone stdout readErr wait)
    as Hshape.
  cbv zeta in Hshape. rewrite Htr in Hshape.
  assert (Hnot : forall pre tl, Forall (clean maxB) pre ->
            tr1 ++ WriteString buf :: tr2 = pre ++ tl ->
            (tl = [] \/ exists e, tl = [SendErr e]) -> False).
  { intros pre tl Hpre Heq Htl.
    assert (Hin : In (WriteString buf) (pre ++ tl))
      by (rewrite <- Heq; apply in_or_app; right; left; reflexivity).
    apply in_app_or in Hin. destruct Hin as [Hin|Hin].
    - rewrite Forall_forall in Hpre. specialize (Hpre _ Hin). simpl in Hpre. lia.
    - destruct Htl as [-> | [e ->]]; [destruct Hin|].
      destruct Hin as [Hin|[]]; discriminate. }
  destruct Hshape as [(pre & Hpre & [H | [H | [code H]]])
                     | (pre & b & H & Hpre & Hb)].
  - exfalso. apply (Hnot pre [] Hpre); [rewrite app_nil_r; exact H | auto].
  - exfalso. apply (Hnot pre _ Hpre H). right; eexists; reflexivity.
  - exfalso. apply (Hnot pre _ Hpre H). right; eexists; reflexivity.
  - unfold overflow in H. symmetry in H.
    apply (split_at_overflow maxB pre tr1 _ tr2 buf b Hpre Hbuf) in H;
      [|right; eexists; reflexivity].
    destruct H as (-> & -> & ->).
    split; [reflexivity|]. split.
    + rewrite errCh_app. rewrite (clean_errCh maxB pre Hpre). reflexivity.
    + rewrite msgCh_app. simpl. rewrite app_nil_r. reflexivity.
Qed.

End ReaderFacts.


(* ===================================================================== *)
(** * The version probe and [Connect]                                    *)
(* ===================================================================== *)

Module ConnectFacts.

Import Transport Version.

Lemma checkClaudeVersion_nil cliPath skipEnv probe :
  fst (checkClaudeVersion cliPath skipEnv probe) = None.
Proof.
  unfold checkClaudeVersion.
  destruct (negb (String.eqb skipEnv "")); [reflexivity|].
  destruct probe as [output|]; [|reflexivity].
  destruct (findSemver _) as [m|]; [|reflexivity].
  destruct (compareVersions _ _ <? 0)%Z; reflexivity.
Qed.

Section Connect.

Variable UnmarshalInto : string -> JSON.GoMap -> JSON.GoMap * bool.
Variable Marshal : Marshalable -> string.
Variable MarshalError : Marshalable -> option string.
Variable SDKVersion : string.

Notation Connect os := (Connect UnmarshalInto Marshal MarshalError os SDKVersion).
Notation connectBody os := (connectBody UnmarshalInto Marshal MarshalError os SDKVersion).
Notation buildCommand os := (buildCommand UnmarshalInto Marshal MarshalError os).


End Connect.


(** The probe compares with [minimumClaudeCodeVersion]: a version between
    it and [MinimumCLIVersion] of cli_version.go gets no warning. *)
Example version_2_0_10_gets_no_warning :
  compareVersions "2.0.10" MinimumCLIVersion = (-1)%Z
  /\ checkClaudeVersion "claude" "" (Some "2.0.10 (Claude Code)")
     = (None, [RunProbe "claude" ["-v"]]).
Proof. split; vm_compute; reflexivity. Qed.

End ConnectFacts.


(* ===================================================================== *)
(** * Settings, the command line and the working directory               *)
(* ===================================================================== *)

Module CommandFacts.

Import Transport.

Lemma findAgentsFlag_cons i a y rest :
  findAgentsFlag i (a :: y :: rest)
  = if String.eqb a "--agents" then Some i
    else findAgentsFlag (S i) (y :: rest).
Proof. reflexivity. Qed.

Lemma findAgentsFlag_first pre x post : forall i,
  ~ In "--agents" pre ->
  findAgentsFlag i (pre ++ "--agents" :: x :: post) = Some (i + List.length pre).
Proof.
  induction pre as [|a pre IH]; intros i Hin.
  - cbn. f_equal; lia.
  - cbn [app List.length].
    destruct (pre ++ "--agents" :: x :: post) as [|y rest] eqn:E.
    + destruct pre; discriminate.
    + rewrite findAgentsFlag_cons.
      destruct (String.eqb_spec a "--agents") as [->|_].
      * exfalso; apply Hin; left; reflexivity.
      * rewrite IH by (intros H; apply Hin; right; exact H).
        f_equal; lia.
Qed.

Lemma nth_after_flag (pre : list string) a x post d :
  nth (S (List.length pre)) (pre ++ a :: x :: post) d = x.
Proof. induction pre as [|y pre IH]; simpl; [reflexivity | exact IH]. Qed.

Lemma setNth_after_flag (pre : list string) a x post v :
  setNth (pre ++ a :: x :: post) (S (List.length pre)) v = pre ++ a :: v :: post.
Proof.
  induction pre as [|y pre IH]; simpl; [reflexivity|].
  f_equal. exact IH.
Qed.

(** Without [MaxBufferSize] in the options the transport has the default
    bound of 1 MiB. *)
Lemma default_maxBufferSize prompt o binary findCLI t :
  NewSubprocessCLITransport prompt (Some o) binary findCLI = Ok t ->
  MaxBufferSize o = None ->
  maxBufferSize t = 1048576%Z.
Proof.
  unfold NewSubprocessCLITransport. intros H Hnone.
  destruct (if String.eqb binary "" then findCLI else Ok binary);
    cbn [bind] in H; try discriminate.
  injection H as <-. cbn [maxBufferSize]. rewrite Hnone. reflexivity.
Qed.


(** [C5] (amended) [buildCommand] with agents, when no argument before
    ["--agents"] is itself the text ["--agents"].  If the arguments
    joined by spaces are longer than the limit of the platform, and the
    temporary file can be created and written, the JSON of the agents
    goes to that file, the argument after ["--agents"] becomes ["@"]
    followed by the name of the file, and the name is added to
    [tempFiles]; if the file cannot be created or written the vector is
    returned as built and [tempFiles] is unchanged.  If the length is
    within the limit the vector is returned as built. *)
Theorem buildCommand_spills_agents :
  forall (UnmarshalInto : string -> JSON.GoMap -> JSON.GoMap * bool)
    (Marshal : Marshalable -> string)
    (MarshalError : Marshalable -> option string) (os : OS)
    (t : SubprocessCLITransport) (sp : list string) (settingsValue : string)
    (input : list string),
    let o := options t in
    let before := argsBeforeAgents Marshal o sp settingsValue in
    let agentsJSON := Marshal (MAgents (Agents o)) in
    let rest := argsAfterAgents o input in
    let args := before ++ "--agents" :: agentsJSON :: rest in
    systemPromptArgs o = Ok sp ->
    buildSettingsValue UnmarshalInto Marshal MarshalError os t = Ok settingsValue ->
    inputArgs t = Ok input ->
    Agents o <> [] ->
    ~ In "--agents" before ->
    (forall name,
       (len (Join args " ") > cmdLengthLimit os)%Z ->
       createTemp os = Some name -> writeString os = true ->
       exists effs,
         buildCommand UnmarshalInto Marshal MarshalError os t
         = Ok {| builtArgs := before ++ "--agents" :: ("@" ++ name)%string :: rest;
                 builtTempFiles := tempFiles t ++ [name];
                 builtEffects := effs |}
         /\ In (WriteFile name agentsJSON) effs)
    /\ ((len (Join args " ") > cmdLengthLimit os)%Z ->
        createTemp os = None \/ writeString os = false ->
        exists effs,
          buildCommand UnmarshalInto Marshal MarshalError os t
          = Ok {| builtArgs := args; builtTempFiles := tempFiles t;
                  builtEffects := effs |})
    /\ ((len (Join args " ") <= cmdLengthLimit os)%Z ->
        buildCommand UnmarshalInto Marshal MarshalError os t
        = Ok {| builtArgs := args; builtTempFiles := tempFiles t;
                builtEffects := [] |}).
Proof.
  intros U M ME os t sp settingsValue input o before agentsJSON rest args
    Hsp Hsv Hin Hagents Hfirst.
  assert (Hargs : buildArgs U M ME os t = Ok args).
  { unfold buildArgs. fold o. rewrite Hsp, Hsv, Hin. cbn [bind].
    unfold agentsArgs. fold o.
    destruct (Agents o) as [|a l] eqn:E; [congruence|]. reflexivity. }
  assert (Hlen : (0 <? Z.of_nat (List.length (Agents (options t))))%Z = true).
  { fold o. destruct (Agents o); [congruence | reflexivity]. }
  unfold buildCommand. rewrite Hargs. cbn [bind]. unfold spillAgents.
  rewrite Hlen. subst args.
  rewrite (findAgentsFlag_first before agentsJSON rest 0 Hfirst).
  cbn [Nat.add].
  set (args := before ++ "--agents" :: agentsJSON :: rest).
  repeat split.
  - intros name Hgt Hct Hws.
    destruct (Z.gtb_spec (len (Join args " ")) (cmdLengthLimit os)); [|lia].
    cbn [andb]. rewrite Hct, Hws. subst args.
    rewrite nth_after_flag, setNth_after_flag.
    eexists; split; [reflexivity|]. right; left; reflexivity.
  - intros Hgt Hfail.
    destruct (Z.gtb_spec (len (Join args " ")) (cmdLengthLimit os)); [|lia].
    cbn [andb].
    destruct (createTemp os) as [name|]; [|eexists; reflexivity].
    destruct Hfail as [Hc | Hw]; [discriminate|].
    rewrite Hw. eexists; reflexivity.
  - intros Hle.
    destruct (Z.gtb_spec (len (Join args " ")) (cmdLengthLimit os)); [lia|].
    reflexivity.
Qed.


End CommandFacts.


(* ===================================================================== *)
(** * [validateAndConfigurePermissions] and [processQuery]               *)
(* ===================================================================== *)

Module HelpersFacts.

Import Helpers.

Lemma setPermissionPromptToolName_restore o v :
  setPermissionPromptToolName (setPermissionPromptToolName o v)
    (PermissionPromptToolName o) = o.
Proof. destruct o; reflexivity. Qed.

Lemma deref_alloc_old h v a o :
  deref h a = Some o -> deref (fst (alloc h v)) a = Some o.
Proof.
  unfold deref, alloc. cbn [fst]. intros H.
  rewrite nth_error_app1; [exact H|].
  apply nth_error_Some. rewrite H. discriminate.
Qed.

Lemma deref_alloc_new h v :
  deref (fst (alloc h v)) (snd (alloc h v)) = Some v.
Proof.
  unfold deref, alloc. cbn [fst snd].
  rewrite nth_error_app2 by lia. rewrite Nat.sub_diag. reflexivity.
Qed.

(** [C10] (amended) [validateAndConfigurePermissions] never writes to a
    struct that exists when it is called: every address of the heap holds
    afterwards what it held before, the argument included.  On a nil
    argument it returns a fresh struct of zero values.  On a struct
    without [CanUseTool] it returns the argument itself; with
    [CanUseTool], it returns an error unless the mode is streaming and
    [PermissionPromptToolName] is unset, and exactly then it returns a
    fresh copy whose [PermissionPromptToolName] is ["stdio"] and whose
    other fields are those of the argument. *)
Theorem validateAndConfigurePermissions_frame :
  forall (h : Heap) (options : Ptr) (isStreaming : bool),
    (forall p, options = Some p -> p < List.length h) ->
    let r := validateAndConfigurePermissions h options isStreaming in
    (forall a o, deref h a = Some o -> deref (snd r) a = Some o)
    /\ match options with
       | None =>
           fst r = Returned (Some (List.length h)) None
           /\ deref (snd r) (List.length h) = Some zeroOptions
       | Some p =>
           exists o, deref h p = Some o /\
             match CanUseTool o, isStreaming, PermissionPromptToolName o with
             | None, _, _ => fst r = Returned (Some p) None /\ snd r = h
             | Some _, true, None =>
                 fst r = Returned (Some (List.length h)) None
                 /\ deref (snd r) (List.length h)
                    = Some (setPermissionPromptToolName o (Some "stdio"))
                 /\ setPermissionPromptToolName
                      (setPermissionPromptToolName o (Some "stdio"))
                      (PermissionPromptToolName o) = o
             | Some _, _, _ =>
                 (exists e, fst r = Returned None (Some e)) /\ snd r = h
             end
       end.
Proof.
  intros h options isStreaming Hvalid r. subst r.
  unfold validateAndConfigurePermissions.
  destruct options as [p|].
  - destruct (deref h p) as [o|] eqn:Ho.
    + destruct (CanUseTool o) as [f|] eqn:Hf.
      * destruct isStreaming; cbn [negb].
        -- destruct (PermissionPromptToolName o) as [n|] eqn:Hn.
           ++ split; [auto|]. exists o. rewrite Hf, Hn.
              split; [reflexivity|]. split; [eexists; reflexivity | reflexivity].
           ++ split.
              ** intros a x Hx. exact (deref_alloc_old h _ a x Hx).
              ** exists o. rewrite Hf, Hn. cbn [fst snd alloc].
                 split; [reflexivity|]. split; [reflexivity|]. split.
                 --- exact (deref_alloc_new h _).
                 --- pose proof (setPermissionPromptToolName_restore o
                                   (Some "stdio")) as R.
                     rewrite Hn in R. exact R.
        -- split; [auto|]. exists o. rewrite Hf.
           split; [reflexivity|].
           destruct (PermissionPromptToolName o);
             (split; [eexists; reflexivity | reflexivity]).
      * split; [auto|]. exists o. rewrite Hf. auto.
    + exfalso. unfold deref in Ho. apply nth_error_None in Ho.
      specialize (Hvalid p eq_refl). lia.
  - split.
    + intros a x Hx. exact (deref_alloc_old h _ a x Hx).
    + cbn [fst snd alloc]. split; [reflexivity|]. exact (deref_alloc_new h _).
Qed.

Section Query.

Context {JSONObject Message : Type}.
Variable parseMessage : JSONObject -> Message + SDKError.

Notation goroutine := (Query.goroutine parseMessage).

Lemma deferred_errCh :
  Query.errChValues (@Query.deferred Message) = []
  /\ Query.noSendAfterClose false (@Query.deferred Message) = true.
Proof. split; reflexivity. Qed.

Lemma goroutine_single sel :
  List.length (Query.errChValues (goroutine sel)) <= 1
  /\ Query.noSendAfterClose false (goroutine sel) = true.
Proof.
  induction sel as [|s sel IH]; [cbn; auto|].
  destruct s as [ | [err|] | [data|] delivered ]; cbn; auto.
  destruct (parseMessage data) as [msg|err]; cbn; auto.
  destruct delivered; cbn; auto.
Qed.

End Query.

(** [C9] The error channel that [Query] and [QueryStream] return carries
    at most one value: whatever the goroutine of [processQuery] receives
    (messages, messages that do not parse, errors, nil errors, the end of
    the context), it sends at most one value on the error channel, and
    none after it has closed it. *)
Theorem processQuery_error_channel_single :
  forall (JSONObject Message : Type)
    (parseMessage : JSONObject -> Message + SDKError)
    (h : Heap) (options : Ptr) (transGiven : bool)
    (s : Query.setup) (sel : list (@Query.selected JSONObject)),
    (List.length (Query.errChValues (Query.goroutine parseMessage sel)) <= 1
     /\ Query.noSendAfterClose false (Query.goroutine parseMessage sel) = true)
    /\ Query.singleShot (Query.QueryString parseMessage h options transGiven s sel)
    /\ Query.singleShot (Query.QueryStream parseMessage h options transGiven s sel).
Proof.
  intros J Msg parseMessage h options transGiven s sel.
  split; [apply goroutine_single|].
  assert (H : forall streaming,
            Query.singleShot
              (Query.processQuery parseMessage h options streaming transGiven s sel)).
  { intros streaming. unfold Query.singleShot, Query.processQuery.
    destruct options as [a|]; cbn [alloc];
      destruct (validateAndConfigurePermissions _ _ true) as [[o [e|]|] h'];
      try exact I;
      destruct (if transGiven then None else Query.newTransport s); try exact I;
      destruct (Query.connect s); try exact I;
      destruct (Query.startHandler s); try exact I;
      destruct (Query.initialize s); try exact I;
      destruct (if streaming then None else Query.writePrompt s); try exact I;
      apply goroutine_single. }
  split; apply H.
Qed.

End HelpersFacts.


(* ===================================================================== *)
(** * The order of the two mutexes                                       *)
(* ===================================================================== *)

Module LockFacts.

Import Transport.

Lemma acquiresHolding_quiet inner outer effs rest : forall held,
  quiet effs = true ->
  acquiresHolding inner outer held (effs ++ rest)
  = acquiresHolding inner outer held rest.
Proof.
  induction effs as [|e effs IH]; intros held H; [reflexivity|].
  cbn in H. apply andb_prop in H. destruct H as [He Heffs].
  destruct e; try discriminate; cbn; apply IH; exact Heffs.
Qed.

Lemma quiet_app a c : quiet (a ++ c) = quiet a && quiet c.
Proof. apply forallb_app. Qed.

Lemma quiet_probe veffs : quiet (map VersionProbe veffs) = true.
Proof. induction veffs; [reflexivity | exact IHveffs]. Qed.

Section Locks.

Variable UnmarshalInto : string -> JSON.GoMap -> JSON.GoMap * bool.
Variable Marshal : Marshalable -> string.
Variable MarshalError : Marshalable -> option string.
Variable os : OS.
Variable SDKVersion : string.

Lemma quiet_built t bc :
  buildCommand UnmarshalInto Marshal MarshalError os t = Ok bc -> quiet (builtEffects bc) = true.
Proof.
  unfold buildCommand.
  destruct (buildArgs UnmarshalInto Marshal MarshalError os t) as [args|e|m]; cbn [bind];
    try discriminate.
  intros H; injection H as <-. unfold spillAgents.
  destruct (_ && _); [|reflexivity].
  destruct (findAgentsFlag 0 args); [|reflexivity].
  destruct (createTemp os); [|reflexivity].
  destruct (writeString os); reflexivity.
Qed.

Lemma quiet_connectBody t :
  quiet (effects (connectBody UnmarshalInto Marshal MarshalError os SDKVersion t)) = true.
Proof.
  unfold connectBody.
  destruct (cmd t); [reflexivity|].
  destruct (Version.checkClaudeVersion _ _ _) as [verr veffs].
  pose proof (quiet_probe veffs) as Hp.
  destruct verr; [exact Hp|].
  destruct (buildCommand UnmarshalInto Marshal MarshalError os t) as [bc|e|m] eqn:Hbc;
    try exact Hp.
  pose proof (quiet_built t bc Hbc) as Hb.
  assert (H1 : quiet (map VersionProbe veffs ++ builtEffects bc) = true)
    by (rewrite quiet_app, Hp, Hb; reflexivity).
  destruct (negb (String.eqb (cwd t) "") && _); [exact H1|].
  destruct (negb (StdinPipe os)); [exact H1|].
  destruct (negb (StdoutPipe os)); [exact H1|].
  destruct (shouldPipeStderr (options t)); cbn [andb].
  - destruct (negb (StderrPipe os)); [exact H1|].
    destruct (negb (Start os)); [exact H1|].
    destruct (negb (isStreaming t)); cbn [effects];
      rewrite !quiet_app, Hp, Hb; reflexivity.
  - destruct (negb (Start os)); [exact H1|].
    destruct (negb (isStreaming t)); cbn [effects];
      rewrite !quiet_app, Hp, Hb; reflexivity.
Qed.

Lemma quiet_closeEffects (t : SubprocessCLITransport) c :
  quiet (closeEffects os t c) = true.
Proof.
  unfold closeEffects. rewrite !quiet_app.
  destruct (stdin t); destruct (Process c && _); destruct (Process c);
    cbn [quiet forallb touchesMutex negb andb];
    induction (tempFiles t) as [|f fs IH]; try reflexivity;
    cbn [flat_map]; destruct (Remove os f); exact IH.
Qed.

End Locks.

(** [C4] (amended) No call of a method of the transport acquires the
    write mutex while it holds the state mutex.  A call acquires the
    state mutex while it holds the write mutex on three paths only:
    [Close], [EndInput], and the path of [Write] on which the write to
    stdin has failed.  [Close] and [EndInput] always do. *)
Theorem lock_order :
  forall (UnmarshalInto : string -> JSON.GoMap -> JSON.GoMap * bool)
    (Marshal : Marshalable -> string)
    (MarshalError : Marshalable -> option string) (os : OS) (SDKVersion : string)
    (t : SubprocessCLITransport) (c : call),
    let effs := callEffects UnmarshalInto Marshal MarshalError os SDKVersion t c in
    acquiresHolding writeMu mu false effs = false
    /\ (acquiresHolding mu writeMu false effs = true ->
        isClosePath c = true
        \/ (exists data, c = CallWrite data) /\ stdinWrite os = false)
    /\ (isClosePath c = true -> acquiresHolding mu writeMu false effs = true).
Proof.
  intros U M ME os V t c effs. subst effs.
  destruct c as [ | data | | | | ]; unfold callEffects.
  - (* Connect *)
    unfold Connect. cbn [effects].
    pose proof (quiet_connectBody U M ME os V t) as Hq.
    cbn [app acquiresHolding mutex_eqb andb orb negb].
    rewrite !(acquiresHolding_quiet _ _ _ _ _ Hq).
    cbn. repeat split; discriminate.
  - (* Write *)
    unfold Write.
    destruct (negb (ready t) || _); [cbn; repeat split; discriminate|].
    destruct (cmd t) as [c|]; [|cbn; repeat split; discriminate].
    destruct (ProcessState c); [cbn; repeat split; discriminate|].
    destruct (exitError t); [cbn; repeat split; discriminate|].
    destruct (stdinWrite os) eqn:Hw; cbn; repeat split; try discriminate.
    intros _. right. split; [eexists; reflexivity | reflexivity].
  - (* ReadMessages *)
    cbn. repeat split; discriminate.
  - (* EndInput *)
    unfold EndInput. destruct (stdin t); cbn; repeat split; auto.
  - (* IsReady *)
    cbn. repeat split; discriminate.
  - (* Close *)
    unfold Close. cbn [cmd setReady].
    destruct (cmd t) as [c|]; [|cbn; repeat split; auto].
    cbn [effects].
    pose proof (quiet_closeEffects os (setReady t false (exitError t)) c) as Hq.
    cbn [app acquiresHolding mutex_eqb andb orb negb].
    rewrite !(acquiresHolding_quiet _ _ _ _ _ Hq).
    cbn. repeat split; auto.
Qed.

End LockFacts.


(* ===================================================================== *)
(** * Concurrent writes stay contiguous                                  *)
(* ===================================================================== *)

Module ConcurrentFacts.

Import Transport Concurrent.

Lemma nth_error_setAtList_eq gs : forall i g p,
  nth_error gs i = Some g ->
  nth_error (setAtList gs i p) i = Some {| data := data g; at_ := p |}.
Proof.
  induction gs as [|g0 gs IH]; intros [|i] g p H; simpl in *;
    try discriminate.
  - injection H as <-. reflexivity.
  - apply IH. exact H.
Qed.

Lemma nth_error_setAtList_ne gs : forall i j p,
  i <> j -> nth_error (setAtList gs i p) j = nth_error gs j.
Proof.
  induction gs as [|g0 gs IH]; intros [|i] [|j] p H; simpl;
    try reflexivity; try congruence.
  apply IH. congruence.
Qed.

Lemma flatten_app a c : flatten (a ++ c) = flatten a ++ flatten c.
Proof. apply flat_map_app. Qed.

Lemma flatten_last segs i bs :
  flatten (segs ++ [(i, bs)]) = flatten segs ++ map (pair i) bs.
Proof. rewrite flatten_app. cbn. rewrite app_nil_r. reflexivity. Qed.

(** The invariant of the goroutines that do not move. *)
Lemma others_inv segs segs' holder holder' i j g :
  j <> i ->
  holder = Some i \/ holder = None ->
  holder' = Some i \/ holder' = None ->
  (forall k, In k (map fst segs') -> In k (map fst segs) \/ k = i) ->
  (forall bs, In (j, bs) segs -> In (j, bs) segs') ->
  goroutineInv segs holder j g -> goroutineInv segs' holder' j g.
Proof.
  intros Hji Hh Hh' Hfst Hin. unfold goroutineInv.
  assert (Hold : holder <> Some j) by (destruct Hh as [-> | ->]; congruence).
  assert (Hnew : holder' <> Some j) by (destruct Hh' as [-> | ->]; congruence).
  destruct (at_ g) as [ | | e | | | rest | | | | [e|] | [e|] ];
    try (intros [Hn _]; split; [|exact Hnew];
         intros Hk; destruct (Hfst j Hk); [auto | congruence]);
    try (intros [Hc _]; congruence);
    try (intros _; exact Hnew).
  intros [_ Hd]. split; [exact Hnew | auto].
Qed.

(** A step that changes the program point of goroutine [i], and perhaps
    the holder of the write mutex, the segments and the pipe, keeps the
    invariant if the new pieces fit together. *)
Lemma inv_update w segs segs' i g p readers writer holder written :
  worldInv w segs ->
  nth_error (goroutines w) i = Some g ->
  pipe w ++ written = flatten segs' ->
  NoDup (map fst segs') ->
  (forall j bs, In (j, bs) segs' ->
     In (j, bs) segs \/ (j = i /\ exists rest, bs ++ rest = data g)) ->
  goroutineInv segs' holder i {| data := data g; at_ := p |} ->
  (forall j g', j <> i -> nth_error (goroutines w) j = Some g' ->
     goroutineInv segs (writeMuHolder w) j g' -> goroutineInv segs' holder j g') ->
  worldInv (update w i p readers writer holder written) segs'.
Proof.
  intros (Hpipe & Hnd & Hsegs & Hgs) Hi Hp' Hnd' Hsegs' Hgi Hothers.
  unfold worldInv, update; cbn [pipe goroutines writeMuHolder].
  repeat split; [exact Hp' | exact Hnd' | |].
  - intros j bs Hin. destruct (Hsegs' j bs Hin) as [Hold | [-> [rest Hrest]]].
    + destruct (Hsegs j bs Hold) as (g' & rest & Hg' & Hd).
      destruct (Nat.eq_dec i j) as [<- | Hne].
      * unfold setAt. rewrite (nth_error_setAtList_eq _ _ _ p Hi).
        rewrite Hi in Hg'. injection Hg' as <-. eauto.
      * unfold setAt. rewrite nth_error_setAtList_ne by exact Hne. eauto.
    + unfold setAt. rewrite (nth_error_setAtList_eq _ _ _ p Hi). eauto.
  - intros j g' Hj. unfold setAt in Hj.
    destruct (Nat.eq_dec i j) as [<- | Hne].
    + rewrite (nth_error_setAtList_eq _ _ _ p Hi) in Hj. injection Hj as <-.
      exact Hgi.
    + rewrite nth_error_setAtList_ne in Hj by exact Hne.
      apply Hothers; auto.
Qed.

(** The same when neither the mutex, nor the segments, nor the pipe
    change. *)
Lemma inv_move w segs i g p readers writer :
  worldInv w segs ->
  nth_error (goroutines w) i = Some g ->
  goroutineInv segs (writeMuHolder w) i {| data := data g; at_ := p |} ->
  worldInv (update w i p readers writer (writeMuHolder w) []) segs.
Proof.
  intros Hinv Hi Hgi.
  apply (inv_update w segs segs i g p); auto.
  - rewrite app_nil_r. apply Hinv.
  - apply Hinv.
Qed.

Lemma NoDup_snoc (l : list nat) i : NoDup l -> ~ In i l -> NoDup (l ++ [i]).
Proof.
  induction 1 as [|x l Hx Hnd IH]; intros Hi; cbn.
  - constructor; [intros [] | constructor].
  - constructor.
    + intros Hin. apply in_app_or in Hin. destruct Hin as [Hin|[Hin|[]]].
      * exact (Hx Hin).
      * apply Hi; left; symmetry; exact Hin.
    + apply IH. intros Hin; apply Hi; right; exact Hin.
Qed.

Lemma lastSegment_In segs i bs : lastSegment segs i bs -> In (i, bs) segs.
Proof. intros [s ->]. apply in_or_app; right; left; reflexivity. Qed.

Lemma NoDup_fst_unique (segs : segments) i bs bs' :
  NoDup (map fst segs) -> In (i, bs) segs -> In (i, bs') segs -> bs = bs'.
Proof.
  induction segs as [|[j x] segs IH]; intros Hnd H1 H2; [destruct H1|].
  cbn in Hnd. inversion Hnd as [|? ? Hnot Hnd']; subst.
  destruct H1 as [H1|H1], H2 as [H2|H2].
  - congruence.
  - injection H1 as -> ->. exfalso. apply Hnot.
    apply (in_map fst) in H2. exact H2.
  - injection H2 as -> ->. exfalso. apply Hnot.
    apply (in_map fst) in H1. exact H1.
  - apply IH; assumption.
Qed.

(** One step keeps the invariant. *)
Lemma step_inv i c w w' segs :
  worldInv w segs -> step i c w = Some w' -> exists segs', worldInv w' segs'.
Proof.
  intros Hinv Hstep. unfold step in Hstep.
  destruct (nth_error (goroutines w) i) as [g|] eqn:Hi; [|discriminate].
  pose proof Hinv as (Hpipe & Hnd & Hsegs & Hgs).
  pose proof (Hgs i g Hi) as Hg. unfold goroutineInv in Hg.
  destruct (at_ g) as [ | | e | | | rest | | | | r | r ] eqn:Hat.
  - (* AtRLock *)
    destruct (muWriter w); [discriminate|]. injection Hstep as <-.
    exists segs. apply (inv_move w segs i g); auto.
  - (* AtCheck *)
    exists segs.
    destruct (negb (w_ready w) || negb (w_stdin w));
      [|destruct (w_exited w); [|destruct (w_exitError w)]];
      injection Hstep as <-; apply (inv_move w segs i g); auto.
  - (* AtRUnlockErr *)
    injection Hstep as <-. exists segs.
    apply (inv_move w segs i g); auto. unfold goroutineInv; cbn. tauto.
  - (* AtRUnlock *)
    injection Hstep as <-. exists segs. apply (inv_move w segs i g); auto.
  - (* AtWriteLock *)
    destruct (writeMuHolder w) eqn:Hh; [discriminate|]. injection Hstep as <-.
    destruct Hg as [Hnot _].
    exists (segs ++ [(i, [])]).
    apply (inv_update w segs _ i g); auto.
    + rewrite flatten_last, app_nil_r. cbn. rewrite app_nil_r. exact Hpipe.
    + rewrite map_app. cbn. apply NoDup_snoc; assumption.
    + intros j bs Hin. apply in_app_or in Hin. destruct Hin as [Hin|[Hin|[]]].
      * left; exact Hin.
      * injection Hin as <- <-. right. split; [reflexivity|]. eexists; reflexivity.
    + unfold goroutineInv; cbn. split; [reflexivity|].
      exists []. split; [eexists; reflexivity | reflexivity].
    + intros j g' Hne Hj. rewrite Hh. apply (others_inv _ _ _ _ i); auto.
      * intros k Hk. rewrite map_app in Hk. apply in_app_or in Hk.
        destruct Hk as [Hk|[<-|[]]]; auto.
      * intros bs Hin. apply in_or_app; left; exact Hin.
  - (* AtStdinWrite *)
    destruct Hg as (Hh & bs & [s0 Hs0] & Hdata).
    destruct c as [n|].
    + destruct rest as [|b0 rest'].
      * injection Hstep as <-. exists segs.
        apply (inv_move w segs i g); auto.
        unfold goroutineInv; cbn. split; [exact Hh|].
        rewrite app_nil_r in Hdata. subst bs. exists s0; exact Hs0.
      * remember (b0 :: rest') as rest eqn:Hr.
        assert (Hw : w' = update w i (AtStdinWrite (skipn (S n) rest))
                       (muReaders w) (muWriter w) (writeMuHolder w)
                       (map (pair i) (firstn (S n) rest)))
          by (subst rest; injection Hstep as <-; reflexivity).
        clear Hstep Hr. subst w'.
        exists (s0 ++ [(i, bs ++ firstn (S n) rest)]).
        apply (inv_update w segs _ i g); auto.
        -- rewrite Hpipe, Hs0, !flatten_last, map_app, app_assoc. reflexivity.
        -- rewrite Hs0 in Hnd. rewrite map_app in *. exact Hnd.
        -- intros j x Hin. apply in_app_or in Hin. destruct Hin as [Hin|[Hin|[]]].
           ++ left. rewrite Hs0. apply in_or_app; left; exact Hin.
           ++ injection Hin as <- <-. right. split; [reflexivity|].
              exists (skipn (S n) rest).
              change (match rest with
                      | [] => []
                      | a :: l => a :: firstn n l
                      end) with (firstn (S n) rest).
              rewrite <- app_assoc, firstn_skipn. exact Hdata.
        -- unfold goroutineInv; cbn [at_ data]. split; [exact Hh|].
           exists (bs ++ firstn (S n) rest). split; [eexists; reflexivity|].
           rewrite <- app_assoc, firstn_skipn. exact Hdata.
        -- intros j g' Hne Hj. rewrite Hh. apply (others_inv _ _ _ _ i); auto.
           ++ intros k Hk. left. rewrite Hs0. rewrite map_app in *. exact Hk.
           ++ intros x Hin. rewrite Hs0 in Hin. apply in_app_or in Hin.
              destruct Hin as [Hin|[Hin|[]]]; [|congruence].
              apply in_or_app; left; exact Hin.
    + injection Hstep as <-. exists segs.
      apply (inv_move w segs i g); auto.
      unfold goroutineInv; cbn. split; [exact Hh|].
      exists bs, rest. split; [exists s0; exact Hs0 | exact Hdata].
  - (* AtErrLock *)
    destruct (muWriter w); [discriminate|].
    destruct (muReaders w); [|discriminate]. injection Hstep as <-.
    exists segs. apply (inv_move w segs i g); auto.
  - (* AtErrSet *)
    injection Hstep as <-. exists segs.
    destruct Hinv as (H1 & H2 & H3 & H4).
    unfold worldInv; cbn [pipe goroutines writeMuHolder].
    repeat split; auto.
    + intros j bs Hin. destruct (H3 j bs Hin) as (g' & rest & Hg' & Hd).
      unfold setAt. destruct (Nat.eq_dec i j) as [<- | Hne].
      * rewrite (nth_error_setAtList_eq _ _ _ AtErrUnlock Hi).
        rewrite Hi in Hg'. injection Hg' as <-. eauto.
      * rewrite nth_error_setAtList_ne by exact Hne. eauto.
    + intros j g' Hj. unfold setAt in Hj.
      destruct (Nat.eq_dec i j) as [<- | Hne].
      * rewrite (nth_error_setAtList_eq _ _ _ AtErrUnlock Hi) in Hj.
        injection Hj as <-. exact Hg.
      * rewrite nth_error_setAtList_ne in Hj by exact Hne. auto.
  - (* AtErrUnlock *)
    injection Hstep as <-. exists segs. apply (inv_move w segs i g); auto.
  - (* AtWriteUnlock *)
    injection Hstep as <-. exists segs.
    assert (Hh : writeMuHolder w = Some i) by (destruct r; apply Hg).
    apply (inv_update w segs segs i g); auto.
    + rewrite app_nil_r. exact Hpipe.
    + unfold goroutineInv; cbn [at_ data].
      destruct r as [e|]; [discriminate|].
      split; [discriminate|]. apply lastSegment_In. apply Hg.
    + intros j g' Hne Hj. rewrite Hh. apply (others_inv _ _ _ _ i); auto.
  - (* Done *)
    discriminate.
Qed.

Lemma run_inv schedule : forall w segs,
  worldInv w segs -> exists segs', worldInv (run schedule w) segs'.
Proof.
  induction schedule as [|[i c] schedule IH]; intros w segs Hinv; simpl.
  - exists segs; exact Hinv.
  - destruct (step i c w) as [w'|] eqn:Hstep.
    + destruct (step_inv i c w w' segs Hinv Hstep) as [segs' Hinv'].
      exact (IH w' segs' Hinv').
    + exact (IH w segs Hinv).
Qed.

Lemma start_inv ready stdin exited exitError datas :
  worldInv (start ready stdin exited exitError datas) [].
Proof.
  unfold worldInv, start; cbn [pipe goroutines writeMuHolder].
  repeat split; [constructor | intros i bs [] |].
  intros i g Hg. apply nth_error_In in Hg. apply in_map_iff in Hg.
  destruct Hg as (d & <- & _). unfold goroutineInv; cbn.
  split; [tauto | discriminate].
Qed.

(** The data of the goroutines never change. *)
Lemma step_data i c w w' :
  step i c w = Some w' ->
  map data (goroutines w') = map data (goroutines w).
Proof.
  assert (Hset : forall gs k p, map data (setAtList gs k p) = map data gs).
  { induction gs as [|g0 gs IH]; intros [|k] p; simpl; try reflexivity.
    rewrite IH; reflexivity. }
  unfold step. destruct (nth_error (goroutines w) i) as [g|]; [|discriminate].
  destruct (at_ g); try discriminate;
    repeat match goal with
           | |- context [match ?x with _ => _ end] => destruct x
           end;
    intros H; try discriminate; injection H as <-;
    cbn [goroutines update move]; apply Hset.
Qed.

Lemma run_data schedule : forall w,
  map data (goroutines (run schedule w)) = map data (goroutines w).
Proof.
  induction schedule as [|[i c] schedule IH]; intros w; simpl; [reflexivity|].
  destruct (step i c w) as [w'|] eqn:Hstep; [|apply IH].
  rewrite IH. exact (step_data i c w w' Hstep).
Qed.

(** A goroutine's segment splits the pipe in three. *)
Lemma flatten_split (segs : segments) i bs :
  NoDup (map fst segs) -> In (i, bs) segs ->
  exists pre post,
    flatten segs = pre ++ map (pair i) bs ++ post
    /\ (forall x, In x pre \/ In x post -> fst x <> i).
Proof.
  intros Hnd Hin. apply in_split in Hin. destruct Hin as (s1 & s2 & ->).
  exists (flatten s1), (flatten s2).
  split.
  - rewrite flatten_app. reflexivity.
  - rewrite map_app in Hnd. cbn [map fst] in Hnd.
    apply NoDup_remove_2 in Hnd.
    assert (Htag : forall s x, In x (flatten s) -> In (fst x) (map fst s)).
    { intros s x Hx. unfold flatten in Hx. apply in_flat_map in Hx.
      destruct Hx as ([j y] & Hj & Hx). apply in_map_iff in Hx.
      destruct Hx as (c0 & <- & _). cbn. apply (in_map fst) in Hj. exact Hj. }
    intros x [Hx|Hx] Heq; apply Hnd; apply in_or_app; [left | right];
      rewrite <- Heq; apply Htag; exact Hx.
Qed.

Lemma flatten_tags (segs : segments) x :
  In x (flatten segs) -> In (fst x) (map fst segs).
Proof.
  intros Hx. unfold flatten in Hx. apply in_flat_map in Hx.
  destruct Hx as ([j y] & Hj & Hx). apply in_map_iff in Hx.
  destruct Hx as (c0 & <- & _). cbn. apply (in_map fst) in Hj. exact Hj.
Qed.

(** [C3] Whatever the interleaving of concurrent calls [Write(d)] on one
    transport, and wherever the writes to the pipe are cut in chunks or
    fail, the bytes of each call stand together on the child's stdin:
    the pipe is some bytes of other calls, then the bytes of the call,
    then bytes of other calls.  The bytes of the call are the first bytes
    of [d], and all of [d] once the call has returned nil. *)
Theorem concurrent_writes_contiguous :
  forall (ready stdin exited : bool) (exitError : option SDKError)
    (datas : list string) (schedule : list (nat * choice))
    (i : nat) (d : string),
    nth_error datas i = Some d ->
    let w := run schedule (start ready stdin exited exitError datas) in
    exists pre bs post rest,
      pipe w = pre ++ map (pair i) bs ++ post
      /\ (forall x, In x pre \/ In x post -> fst x <> i)
      /\ list_ascii_of_string d = bs ++ rest
      /\ (returned w i None -> rest = []).
Proof.
  intros ready stdin exited exitError datas schedule i d Hd w.
  destruct (run_inv schedule _ [] (start_inv ready stdin exited exitError datas))
    as [segs Hinv].
  fold w in Hinv. destruct Hinv as (Hpipe & Hnd & Hsegs & Hgs).
  assert (Hdata : forall g, nth_error (goroutines w) i = Some g ->
                    data g = list_ascii_of_string d).
  { intros g Hg. apply (map_nth_error data) in Hg.
    unfold w in Hg. rewrite run_data in Hg. cbn [start goroutines] in Hg.
    rewrite map_map in Hg. cbn [data] in Hg.
    rewrite (map_nth_error _ _ _ Hd) in Hg. congruence. }
  destruct (in_dec Nat.eq_dec i (map fst segs)) as [Hin|Hout].
  - apply in_map_iff in Hin. destruct Hin as ([j bs] & Hj & Hin).
    cbn in Hj. subst j.
    destruct (flatten_split segs i bs Hnd Hin) as (pre & post & Hflat & Hfar).
    destruct (Hsegs i bs Hin) as (g & rest & Hg & Hrest).
    exists pre, bs, post, rest. rewrite Hpipe.
    repeat split; [exact Hflat | exact Hfar | |].
    + rewrite <- (Hdata g Hg). symmetry; exact Hrest.
    + intros (g' & Hg' & Hdone). rewrite Hg in Hg'. injection Hg' as <-.
      pose proof (Hgs i g Hg) as Hgi. unfold goroutineInv in Hgi.
      rewrite Hdone in Hgi. destruct Hgi as [_ Hwhole].
      pose proof (NoDup_fst_unique segs i bs (data g) Hnd Hin Hwhole) as Heq.
      rewrite Heq in Hrest.
      apply (f_equal (@List.length ascii)) in Hrest.
      rewrite length_app in Hrest. destruct rest; [reflexivity|].
      cbn in Hrest; lia.
  - exists (pipe w), [], [], (list_ascii_of_string d).
    repeat split.
    + cbn. rewrite app_nil_r. reflexivity.
    + intros x [Hx|[]] Heq. apply Hout. rewrite <- Heq.
      apply flatten_tags. rewrite <- Hpipe. exact Hx.
    + intros (g & Hg & Hdone).
      pose proof (Hgs i g Hg) as Hgi. unfold goroutineInv in Hgi.
      rewrite Hdone in Hgi. destruct Hgi as [_ Hwhole].
      exfalso. apply Hout. apply (in_map fst) in Hwhole. exact Hwhole.
Qed.

End ConcurrentFacts.


(* ===================================================================== *)
(** * The comparison of versions and the warning of the probe            *)
(* ===================================================================== *)

Module VersionFacts.

Import Version VersionSpec.

(** ** [compareVersions] is a comparison *)

Lemma compareParts_antisym n : forall p1 p2,
  compareParts n p1 p2 = (- compareParts n p2 p1)%Z.
Proof.
  induction n as [|n IH]; intros p1 p2; cbn [compareParts]; [reflexivity|].
  set (num1 := match p1 with p :: _ => Atoi p | [] => 0%Z end).
  set (num2 := match p2 with p :: _ => Atoi p | [] => 0%Z end).
  rewrite !Z.gtb_ltb.
  destruct (Z.ltb_spec num1 num2), (Z.ltb_spec num2 num1);
    try lia; try reflexivity.
  apply IH.
Qed.

Lemma compareParts_range n : forall p1 p2,
  compareParts n p1 p2 = (-1)%Z \/ compareParts n p1 p2 = 0%Z
  \/ compareParts n p1 p2 = 1%Z.
Proof.
  induction n as [|n IH]; intros p1 p2; cbn [compareParts]; [auto|].
  destruct (_ <? _)%Z; [auto|]. destruct (_ >? _)%Z; [auto|]. apply IH.
Qed.

Lemma compareParts_trans n : forall p1 p2 p3,
  (compareParts n p1 p2 <= 0)%Z -> (compareParts n p2 p3 <= 0)%Z ->
  (compareParts n p1 p3 <= 0)%Z
  /\ ((compareParts n p1 p2 < 0)%Z \/ (compareParts n p2 p3 < 0)%Z ->
      (compareParts n p1 p3 < 0)%Z).
Proof.
  induction n as [|n IH]; intros p1 p2 p3; cbn [compareParts]; [lia|].
  set (num1 := match p1 with p :: _ => Atoi p | [] => 0%Z end).
  set (num2 := match p2 with p :: _ => Atoi p | [] => 0%Z end).
  set (num3 := match p3 with p :: _ => Atoi p | [] => 0%Z end).
  rewrite !Z.gtb_ltb.
  destruct (Z.ltb_spec num1 num2), (Z.ltb_spec num2 num1),
           (Z.ltb_spec num2 num3), (Z.ltb_spec num3 num2),
           (Z.ltb_spec num1 num3), (Z.ltb_spec num3 num1);
    try lia.
  apply IH.
Qed.

(** [X1] [compareVersions] returns -1, 0 or 1; exchanging its arguments
    changes the sign of the result, and a version compares equal to
    itself. *)
Theorem compareVersions_antisymmetric :
  forall v1 v2 : string,
    compareVersions v1 v2 = (- compareVersions v2 v1)%Z
    /\ compareVersions v1 v1 = 0%Z
    /\ (compareVersions v1 v2 = (-1)%Z \/ compareVersions v1 v2 = 0%Z
        \/ compareVersions v1 v2 = 1%Z).
Proof.
  intros v1 v2. unfold compareVersions. repeat apply conj.
  - apply compareParts_antisym.
  - pose proof (compareParts_antisym 3 (Split v1 (b 46)) (Split v1 (b 46))).
    lia.
  - apply compareParts_range.
Qed.

(** [X2] [compareVersions] is transitive: if [v1] is not above [v2] and [v2]
    not above [v3], then [v1] is not above [v3], and it is below as soon
    as one of the two steps is strict. *)
Theorem compareVersions_transitive :
  forall v1 v2 v3 : string,
    (compareVersions v1 v2 <= 0)%Z ->
    (compareVersions v2 v3 <= 0)%Z ->
    (compareVersions v1 v3 <= 0)%Z
    /\ ((compareVersions v1 v2 < 0)%Z \/ (compareVersions v2 v3 < 0)%Z ->
        (compareVersions v1 v3 < 0)%Z).
Proof.
  intros v1 v2 v3. unfold compareVersions. apply compareParts_trans.
Qed.

(** ** The token the probe finds *)

Lemma digits_spec l : forall ds r,
  JSON.digits l = (ds, r) ->
  l = ds ++ r /\ forallb JSON.isDigit ds = true.
Proof.
  induction l as [|c l IH]; intros ds r H; simpl in H.
  - injection H as <- <-. auto.
  - destruct (JSON.isDigit c) eqn:E.
    + destruct (JSON.digits l) as [ds' r'] eqn:E'.
      injection H as <- <-. destruct (IH ds' r' eq_refl) as [-> Hd].
      split; [reflexivity|]. simpl. rewrite E. exact Hd.
    + injection H as <- <-. auto.
Qed.

Lemma digits_all ds r :
  forallb JSON.isDigit ds = true ->
  match r with c :: _ => JSON.isDigit c = false | [] => True end ->
  JSON.digits (ds ++ r) = (ds, r).
Proof.
  intros Hd Hr. induction ds as [|c ds IH]; simpl in *.
  - destruct r as [|c r]; [reflexivity|]. simpl. rewrite Hr. reflexivity.
  - apply andb_prop in Hd. destruct Hd as [Hc Hd]. rewrite Hc, (IH Hd).
    reflexivity.
Qed.

Lemma matchSemver_shape l m :
  matchSemver l = Some m -> exists d1 d2 d3, semverShape m d1 d2 d3.
Proof.
  unfold matchSemver. intros H.
  destruct (JSON.digits l) as [d1 r1] eqn:E1.
  destruct d1 as [|x1 d1]; [discriminate|].
  destruct r1 as [|c1 r1]; [discriminate|].
  destruct (Ascii.eqb c1 (b 46)) eqn:Ec1; [|discriminate].
  apply Ascii.eqb_eq in Ec1. subst c1.
  destruct (JSON.digits r1) as [d2 r2] eqn:E2.
  destruct d2 as [|x2 d2]; [discriminate|].
  destruct r2 as [|c2 r2]; [discriminate|].
  destruct (Ascii.eqb c2 (b 46)) eqn:Ec2; [|discriminate].
  apply Ascii.eqb_eq in Ec2. subst c2.
  destruct (JSON.digits r2) as [d3 r3] eqn:E3.
  destruct d3 as [|x3 d3]; [discriminate|].
  injection H as <-.
  apply digits_spec in E1, E2, E3.
  exists (x1 :: d1), (x2 :: d2), (x3 :: d3). unfold semverShape.
  repeat apply conj; try discriminate; try tauto.
Qed.

Lemma findSemver_shape l : forall m,
  findSemver l = Some m -> exists d1 d2 d3, semverShape m d1 d2 d3.
Proof.
  induction l as [|c l IH]; intros m H; simpl in H.
  - discriminate.
  - destruct (matchSemver (c :: l)) as [m'|] eqn:E.
    + injection H as <-. exact (matchSemver_shape _ _ E).
    + exact (IH m H).
Qed.

Lemma digit_not_dot ds :
  forallb JSON.isDigit ds = true -> ~ In (b 46) ds.
Proof.
  intros H Hin. rewrite forallb_forall in H. specialize (H _ Hin).
  vm_compute in H. discriminate.
Qed.

Lemma splitBytes_app sep cur pre rest :
  ~ In sep pre ->
  splitBytes sep cur (pre ++ sep :: rest)
  = string_of_list_ascii (rev cur ++ pre) :: splitBytes sep [] rest.
Proof.
  revert cur. induction pre as [|c pre IH]; intros cur H; simpl.
  - rewrite Ascii.eqb_refl, app_nil_r. reflexivity.
  - destruct (Ascii.eqb c sep) eqn:E.
    + apply Ascii.eqb_eq in E. subst. exfalso. apply H. left; reflexivity.
    + rewrite IH by (intros Hin; apply H; right; exact Hin).
      simpl. rewrite <- app_assoc. reflexivity.
Qed.

Lemma Split_semver m d1 d2 d3 :
  semverShape m d1 d2 d3 ->
  Split (string_of_list_ascii m) (b 46)
  = [string_of_list_ascii d1; string_of_list_ascii d2; string_of_list_ascii d3].
Proof.
  intros (-> & _ & _ & _ & H1 & H2 & H3). unfold Split.
  rewrite list_ascii_of_string_of_list_ascii.
  rewrite splitBytes_app by (apply digit_not_dot; exact H1).
  rewrite splitBytes_app by (apply digit_not_dot; exact H2).
  rewrite GoStringsFacts.splitBytes_none by (apply digit_not_dot; exact H3).
  reflexivity.
Qed.

(** ** [Atoi] on a run of digits *)

Lemma decimal_digits ds : forall acc,
  (0 <= acc)%Z -> forallb JSON.isDigit ds = true ->
  exists n, decimal acc ds = Some n /\ (acc <= n)%Z.
Proof.
  induction ds as [|c ds IH]; intros acc Hacc H; simpl in *.
  - exists acc. split; [reflexivity | lia].
  - apply andb_prop in H. destruct H as [Hc Hd]. rewrite Hc.
    destruct (IH (10 * acc + Z.of_nat (nat_of_ascii c - 48))%Z) as (n & Hn & Hle);
      [lia | exact Hd |].
    exists n. split; [exact Hn | lia].
Qed.

Lemma Atoi_digits_nonneg ds :
  ds <> [] -> forallb JSON.isDigit ds = true ->
  (0 <= Atoi (string_of_list_ascii ds))%Z.
Proof.
  intros Hne Hd. unfold Atoi. rewrite list_ascii_of_string_of_list_ascii.
  destruct ds as [|c ds]; [congruence|].
  assert (Hc : JSON.isDigit c = true).
  { simpl in Hd. apply andb_prop in Hd. tauto. }
  destruct (Ascii.eqb c (b 45)) eqn:E1.
  { apply Ascii.eqb_eq in E1. subst c. vm_compute in Hc. discriminate. }
  destruct (Ascii.eqb c (b 43)) eqn:E2.
  { apply Ascii.eqb_eq in E2. subst c. vm_compute in Hc. discriminate. }
  destruct (decimal_digits (c :: ds) 0%Z) as (n & Hn & Hle); [lia | exact Hd |].
  rewrite Hn. unfold maxInt.
  destruct (n >? 2 ^ 63 - 1)%Z; lia.
Qed.

(** ** The warning *)

Lemma below_minimum m d1 d2 d3 :
  semverShape m d1 d2 d3 ->
  (compareVersions (string_of_list_ascii m) minimumClaudeCodeVersion <? 0)%Z
  = (major m <? 2)%Z.
Proof.
  intros Hs. unfold compareVersions. rewrite (Split_semver _ _ _ _ Hs).
  pose proof Hs as (-> & N1 & N2 & N3 & H1 & H2 & H3).
  unfold major. rewrite digits_all by (auto; vm_compute; reflexivity).
  cbn [fst].
  pose proof (Atoi_digits_nonneg d2 N2 H2) as P2.
  pose proof (Atoi_digits_nonneg d3 N3 H3) as P3.
  change (Split minimumClaudeCodeVersion (b 46)) with ["2"; "0"; "0"].
  cbn [compareParts tl].
  change (Atoi "2") with 2%Z. change (Atoi "0") with 0%Z.
  rewrite !Z.gtb_ltb.
  destruct (Z.ltb_spec (Atoi (string_of_list_ascii d1)) 2); [reflexivity|].
  destruct (Z.ltb_spec 2 (Atoi (string_of_list_ascii d1))); [reflexivity|].
  destruct (Z.ltb_spec (Atoi (string_of_list_ascii d2)) 0); [lia|].
  destruct (Z.ltb_spec 0 (Atoi (string_of_list_ascii d2))); [reflexivity|].
  destruct (Z.ltb_spec (Atoi (string_of_list_ascii d3)) 0); [lia|].
  destruct (Z.ltb_spec 0 (Atoi (string_of_list_ascii d3))); reflexivity.
Qed.

(** [X3] When the probe is run and prints something, [checkClaudeVersion]
    runs the binary once with [-v]; it prints the warning exactly when
    the first version token of the output has a major number below 2,
    whatever its minor and patch numbers, and prints nothing when the
    output has no token. *)
Theorem checkClaudeVersion_warns_below_2 :
  forall (cliPath output : string),
    snd (checkClaudeVersion cliPath "" (Some output))
    = match findSemver (list_ascii_of_string (TrimSpace output)) with
      | None => [RunProbe cliPath ["-v"]]
      | Some token =>
          if (major token <? 2)%Z
          then [RunProbe cliPath ["-v"];
                Version.PrintStderr
                  (warning (string_of_list_ascii token) ++ String LF "")]
          else [RunProbe cliPath ["-v"]]
      end.
Proof.
  intros cliPath output. unfold checkClaudeVersion. cbn [String.eqb negb].
  destruct (findSemver (list_ascii_of_string (TrimSpace output))) as [m|] eqn:E;
    [|reflexivity].
  destruct (findSemver_shape _ _ E) as (d1 & d2 & d3 & Hs).
  rewrite (below_minimum _ _ _ _ Hs).
  destruct (major m <? 2)%Z; reflexivity.
Qed.

End VersionFacts.


(* ===================================================================== *)
(** * The conversions of helpers.go                                      *)
(* ===================================================================== *)

Module ConversionFacts.

Import Conversions.
Import MapFacts.

(** ** [extractSdkMcpServers] *)

Lemma sdk_fold_lookup name entries : forall acc,
  NoDup (map fst entries) ->
  mapGet (fold_left sdkStep entries acc) name
  = match sdkInstance (mapGet entries name) with
    | Some instance => Some instance
    | None => mapGet acc name
    end.
Proof.
  induction entries as [|[k config] entries IH]; intros acc Hnd; simpl.
  - reflexivity.
  - inversion Hnd as [|? ? Hk Hnd']; subst.
    rewrite (IH _ Hnd').
    destruct (String.eqb k name) eqn:E.
    + apply String.eqb_eq in E. subst k.
      rewrite (mapGet_absent _ _ _ Hk). cbn [sdkInstance].
      destruct config; cbn [sdkStep sdkInstance]; [|reflexivity].
      apply mapGet_mapSet_same.
    + destruct (sdkInstance (mapGet entries name)); [reflexivity|].
      destruct config; cbn [sdkStep]; [|reflexivity].
      apply mapGet_mapSet_other. intros ->. rewrite String.eqb_refl in E.
      discriminate.
Qed.

(** [X27] [extractSdkMcpServers] keeps exactly the SDK servers: in the map it
    returns, a name gives the instance of the server of that name when
    that server is an SDK server, and nothing otherwise.  The map is nil
    for a nil map and whenever it would be empty. *)
Theorem extractSdkMcpServers_lookup :
  forall (entries : list (string * McpServerConfig)),
    NoDup (map fst entries) ->
    (forall name,
       index (extractSdkMcpServers (Some entries)) name
       = sdkInstance (mapGet entries name))
    /\ extractSdkMcpServers (Some entries) <> Some []
    /\ extractSdkMcpServers None = None.
Proof.
  intros entries Hnd. repeat apply conj.
  - intros name. pose proof (sdk_fold_lookup name entries [] Hnd) as H.
    unfold extractSdkMcpServers.
    destruct (fold_left sdkStep entries []) as [|e m] eqn:E; cbn [index].
    + simpl in H. destruct (sdkInstance (mapGet entries name)); congruence.
    + rewrite H. destruct (sdkInstance (mapGet entries name)); reflexivity.
  - unfold extractSdkMcpServers.
    destruct (fold_left sdkStep entries []); discriminate.
  - reflexivity.
Qed.

(** ** [convertHooksToInternal] *)

Lemma hook_fold_lookup event entries : forall acc,
  NoDup (map fst entries) ->
  mapGet (fold_left hookStep entries acc) event
  = match mapGet entries event with
    | Some (m :: ms) => Some (map toInternal (m :: ms))
    | _ => mapGet acc event
    end.
Proof.
  induction entries as [|[k matchers] entries IH]; intros acc Hnd; simpl.
  - reflexivity.
  - inversion Hnd as [|? ? Hk Hnd']; subst.
    rewrite (IH _ Hnd').
    destruct (String.eqb k event) eqn:E.
    + apply String.eqb_eq in E. subst k.
      rewrite (mapGet_absent _ _ _ Hk).
      destruct matchers as [|m ms]; cbn [hookStep]; [reflexivity|].
      apply mapGet_mapSet_same.
    + destruct (mapGet entries event) as [[|m' ms']|]; try reflexivity;
        (destruct matchers as [|m ms]; cbn [hookStep]; [reflexivity|];
         apply mapGet_mapSet_other; intros ->;
         rewrite String.eqb_refl in E; discriminate).
Qed.

(** [X28] [convertHooksToInternal] returns nil for nil and a map otherwise.
    In that map an event has an entry exactly when it has at least one
    matcher, and the entry lists the matchers of the event in their
    order, each with its pattern, callbacks and timeout. *)
Theorem convertHooksToInternal_lookup :
  forall (entries : list (string * list HookMatcher)),
    NoDup (map fst entries) ->
    (forall event,
       index (convertHooksToInternal (Some entries)) event
       = match mapGet entries event with
         | Some (m :: ms) => Some (map toInternal (m :: ms))
         | _ => None
         end)
    /\ convertHooksToInternal (Some entries) <> None
    /\ convertHooksToInternal None = None.
Proof.
  intros entries Hnd. repeat apply conj.
  - intros event. cbn [convertHooksToInternal index].
    rewrite (hook_fold_lookup event entries [] Hnd).
    destruct (mapGet entries event) as [[|m ms]|]; reflexivity.
  - discriminate.
  - reflexivity.
Qed.

(** ** [convertAgentsToDicts] *)

Lemma agentOfDict_agentDict name def :
  agentOfDict (agentDict name def) = Some (name, def).
Proof.
  destruct def as [description prompt [|tool tools] [model|]]; reflexivity.
Qed.

(** [X29] [convertAgentsToDicts] loses nothing: it returns nil exactly for no
    agent, and otherwise one dict for each agent, in the order of the
    range, from which the name and the whole definition of the agent are
    read back. *)
Theorem convertAgentsToDicts_round_trip :
  forall (agents : list (string * AgentDefinition)),
    match convertAgentsToDicts agents with
    | None => agents = []
    | Some dicts =>
        agents <> [] /\ map agentOfDict dicts = map Some agents
    end.
Proof.
  intros agents. destruct agents as [|a agents]; [reflexivity|].
  cbn [convertAgentsToDicts]. split; [discriminate|].
  rewrite map_map. apply map_ext. intros [name def].
  apply agentOfDict_agentDict.
Qed.

End ConversionFacts.


(* ===================================================================== *)
(** * The search for the binary                                          *)
(* ===================================================================== *)

Module FindCLIFacts.

Import FindCLI.

Lemma firstExisting_spec fs locs :
  existsb writes (snd (firstExisting fs locs)) = false
  /\ match fst (firstExisting fs locs) with
     | Some loc => In loc locs /\ statSize fs loc <> None
     | None => forall loc, In loc locs -> statSize fs loc = None
     end.
Proof.
  induction locs as [|loc locs [IHw IH]]; simpl.
  - split; [reflexivity | intros loc []].
  - destruct (statSize fs loc) as [size|] eqn:E; simpl.
    + split; [reflexivity|]. split; [left; reflexivity | congruence].
    + destruct (firstExisting fs locs) as [[loc'|] acc]; simpl in *.
      * split; [exact IHw|]. split; [right; tauto | tauto].
      * split; [exact IHw|]. intros l [<-|Hl]; [exact E | exact (IH l Hl)].
Qed.

(** [X4] [findCLI] prefers an installed binary.  A [claude] on the PATH is
    returned at once.  Otherwise the first of the six installation
    places that exists is returned, and nothing is created or written.
    Only when there is none is the bundled binary tried, and the error
    is returned exactly when that gives no path. *)
Theorem findCLI_prefers_installed :
  forall (p : Platform) (fs : FS),
    match LookPath fs "claude", fst (firstExisting fs (locations fs)) with
    | Some path, _ => findCLI p fs = (Found path, [DoLookPath "claude"])
    | None, Some loc =>
        fst (findCLI p fs) = Found loc
        /\ In loc (locations fs)
        /\ statSize fs loc <> None
        /\ existsb writes (snd (findCLI p fs)) = false
    | None, None =>
        (forall loc, In loc (locations fs) -> statSize fs loc = None)
        /\ fst (findCLI p fs)
           = match fst (getBundledCLIPath p fs) with
             | Ok path => if String.eqb path "" then CLINotFoundError
                          else Found path
             | _ => CLINotFoundError
             end
    end.
Proof.
  intros p fs. unfold findCLI.
  destruct (LookPath fs "claude") as [path|]; [reflexivity|].
  pose proof (firstExisting_spec fs (locations fs)) as [Hw Hs].
  destruct (firstExisting fs (locations fs)) as [[loc|] acc]; cbn [fst snd] in *.
  - destruct Hs as [Hin Hst]. repeat apply conj; auto.
  - split; [exact Hs|].
    destruct (getBundledCLIPath p fs) as [[path| |] acc']; cbn [fst];
      try reflexivity.
    destruct (String.eqb path ""); reflexivity.
Qed.

(** [X5] The path [getBundledCLIPath] returns is backed by a file.  When it
    returns a path that is not empty, a binary is bundled for the
    platform, the path is that of its copy in the temporary directory,
    and either the file there had the size of the bundled binary and was
    left alone, or it was created anew and the copy succeeded.  An error
    is returned only when a binary is bundled for the platform. *)
Theorem getBundledCLIPath_extracts_or_reuses :
  forall (p : Platform) (fs : FS),
    match fst (getBundledCLIPath p fs) with
    | Ok path =>
        path <> "" ->
        exists binaryName,
          bundledBinaryName p = Some binaryName
          /\ embedOpen fs ("_bundled/" ++ binaryName) = true
          /\ path = Join fs [Join fs [TempDir fs; "claude-agent-sdk-go"];
                            binaryName]
          /\ ((statSize fs path = embedSize fs ("_bundled/" ++ binaryName)
               /\ statSize fs path <> None
               /\ snd (getBundledCLIPath p fs)
                  = [DoMkdirAll (Join fs [TempDir fs; "claude-agent-sdk-go"]);
                     DoStat path])
              \/ (OpenFile fs path = true /\ Copy fs = true
                  /\ snd (getBundledCLIPath p fs)
                     = [DoMkdirAll (Join fs [TempDir fs; "claude-agent-sdk-go"]);
                        DoStat path; DoOpenFile path; DoCopy path]))
    | _ =>
        exists binaryName,
          bundledBinaryName p = Some binaryName
          /\ embedOpen fs ("_bundled/" ++ binaryName) = true
    end.
Proof.
  intros p fs. unfold getBundledCLIPath.
  destruct (bundledBinaryName p) as [binaryName|]; cbn [fst]; [|congruence].
  destruct (embedOpen fs ("_bundled/" ++ binaryName)) eqn:Eo; cbn [negb fst];
    [|congruence].
  set (tempDir := Join fs [TempDir fs; "claude-agent-sdk-go"]).
  set (tempFile := Join fs [tempDir; binaryName]).
  destruct (MkdirAll fs tempDir); cbn [negb fst]; [|eauto].
  destruct (statSize fs tempFile) as [size|] eqn:Es.
  - cbn [andb].
    destruct (embedSize fs ("_bundled/" ++ binaryName)) as [embedded|] eqn:Ee.
    + destruct (Z.eqb_spec embedded size) as [->|Hne]; cbn [fst snd].
      * intros _. exists binaryName. repeat apply conj; auto.
        left. rewrite Es. repeat apply conj; auto; congruence.
      * destruct (OpenFile fs tempFile) eqn:Ef; cbn [negb fst snd]; [|eauto].
        destruct (Copy fs) eqn:Ec; cbn [negb fst snd]; [|eauto].
        intros _. exists binaryName. repeat apply conj; auto.
    + destruct (OpenFile fs tempFile) eqn:Ef; cbn [negb fst snd]; [|eauto].
      destruct (Copy fs) eqn:Ec; cbn [negb fst snd]; [|eauto].
      intros _. exists binaryName. repeat apply conj; auto.
  - destruct (OpenFile fs tempFile) eqn:Ef; cbn [negb fst snd]; [|eauto].
    destruct (Copy fs) eqn:Ec; cbn [negb fst snd]; [|eauto].
    intros _. exists binaryName. repeat apply conj; auto.
Qed.

Lemma names_agree p :
  match downloadBinaryName p with
  | inl binaryName => bundledBinaryName p = Some binaryName
  | inr _ => bundledBinaryName p = None
  end.
Proof.
  unfold downloadBinaryName, bundledBinaryName.
  destruct (String.eqb (GOOS p) "darwin");
    [destruct (String.eqb (GOARCH p) "amd64"); [reflexivity|];
     destruct (String.eqb (GOARCH p) "arm64"); reflexivity|].
  destruct (String.eqb (GOOS p) "linux");
    [destruct (String.eqb (GOARCH p) "amd64"); [reflexivity|];
     destruct (String.eqb (GOARCH p) "arm64"); reflexivity|].
  destruct (String.eqb (GOOS p) "windows");
    [destruct (String.eqb (GOARCH p) "amd64"); reflexivity|].
  reflexivity.
Qed.

(** [X6] The download script stores the binary under the name the SDK looks
    up.  On a platform for which [getBundledCLIPath] knows no binary, the
    script fails before it does anything; on the others, when it returns
    no error, the last file it wrote is that of the name
    [getBundledCLIPath] opens under [_bundled/], in the directory given
    to it. *)
Theorem download_stores_bundled_name :
  forall (p : Platform) (fs : FS) (net : Net) (bundledDir : string),
    match bundledBinaryName p with
    | None =>
        exists err,
          downloadForCurrentPlatform p fs net bundledDir = (Some err, [])
    | Some binaryName =>
        fst (downloadForCurrentPlatform p fs net bundledDir) = None ->
        exists before,
          snd (downloadForCurrentPlatform p fs net bundledDir)
          = before ++ [CopyTo (Join fs [bundledDir; binaryName]);
                       StatTarget (Join fs [bundledDir; binaryName])]
          /\ In (HttpGet installURL) before
    end.
Proof.
  intros p fs net bundledDir. pose proof (names_agree p) as Hn.
  unfold downloadForCurrentPlatform.
  destruct (downloadBinaryName p) as [binaryName|err]; rewrite Hn;
    [|eexists; reflexivity].
  destruct (httpGet net) as [status|]; [|discriminate].
  destruct (status =? 200)%Z; cbn [negb]; [|discriminate].
  destruct (createScript net); cbn [negb]; [|discriminate].
  destruct (saveScript net); cbn [negb]; [|discriminate].
  destruct (chmodScript net); cbn [negb]; [|discriminate].
  destruct (runScript net); cbn [negb]; [|discriminate].
  destruct (findInstalledCLI fs) as [[cliPath|] acc]; [|discriminate].
  destruct (openSource net); cbn [negb]; [|discriminate].
  destruct (OpenFile fs _); cbn [negb]; [|discriminate].
  destruct (Copy fs); cbn [negb]; [|discriminate].
  intros _. cbn [fst snd].
  rewrite <- (app_assoc _ [CopyTo _] [StatTarget _]).
  eexists. split; [reflexivity|].
  repeat (apply in_or_app; left). left; reflexivity.
Qed.

End FindCLIFacts.


(* ===================================================================== *)
(** * The life of a transport                                            *)
(* ===================================================================== *)

Module LifecycleFacts.

Import Transport Lifecycle.

Lemma created_app a c : created (a ++ c) = created a ++ created c.
Proof.
  induction a as [|e a IH]; simpl; [reflexivity|].
  destruct e; simpl; rewrite IH; reflexivity.
Qed.

Lemma removed_app a c : removed (a ++ c) = removed a ++ removed c.
Proof.
  induction a as [|e a IH]; simpl; [reflexivity|].
  destruct e; simpl; rewrite IH; reflexivity.
Qed.

Lemma spawned_app a c : spawned (a ++ c) = spawned a ++ spawned c.
Proof.
  induction a as [|e a IH]; simpl; [reflexivity|].
  destruct e; simpl; rewrite IH; reflexivity.
Qed.

Lemma probe_silent veffs :
  created (map VersionProbe veffs) = []
  /\ removed (map VersionProbe veffs) = []
  /\ spawned (map VersionProbe veffs) = [].
Proof. induction veffs as [|e veffs IH]; simpl; auto. Qed.

Section Facts.

Variable UnmarshalInto : string -> JSON.GoMap -> JSON.GoMap * bool.
Variable Marshal : Marshalable -> string.
Variable MarshalError : Marshalable -> option string.
Variable SDKVersion : string.

Notation Connect := (Connect UnmarshalInto Marshal MarshalError).
Notation connectBody := (connectBody UnmarshalInto Marshal MarshalError).
Notation buildCommand := (buildCommand UnmarshalInto Marshal MarshalError).

(** ** What [buildCommand] does to the temporary files *)

Lemma built_files os t bc :
  buildCommand os t = Ok bc ->
  spawned (builtEffects bc) = []
  /\ exists new,
       builtTempFiles bc = tempFiles t ++ new
       /\ created (builtEffects bc) = removed (builtEffects bc) ++ new.
Proof.
  unfold Transport.buildCommand.
  destruct (buildArgs UnmarshalInto Marshal MarshalError os t) as [args|e|m]; cbn [bind];
    try discriminate.
  intros H; injection H as <-. unfold spillAgents.
  destruct (_ && _);
    [|split; [reflexivity | exists []; rewrite app_nil_r; auto]].
  destruct (findAgentsFlag 0 args);
    [|split; [reflexivity | exists []; rewrite app_nil_r; auto]].
  destruct (createTemp os) as [name|];
    [|split; [reflexivity | exists []; rewrite app_nil_r; auto]].
  destruct (writeString os); cbn.
  - split; [reflexivity | exists [name]; auto].
  - split; [reflexivity | exists []; rewrite app_nil_r; auto].
Qed.

(** ** The outcomes of [Connect] on a transport without a command *)

Lemma connectBody_cases os t :
  cmd t = None ->
  let r := connectBody os SDKVersion t in
  (after r = t /\ created (effects r) = [] /\ removed (effects r) = []
   /\ spawned (effects r) = []
   /\ ((exists m, value r = Err (PlainError m))
       \/ (exists m, value r = Panic m)))
  \/ (exists bc,
        buildCommand os t = Ok bc
        /\ tempFiles (after r) = builtTempFiles bc
        /\ created (effects r) = created (builtEffects bc)
        /\ removed (effects r) = removed (builtEffects bc)
        /\ ((spawned (effects r) = []
             /\ ready (after r) = ready t
             /\ cmd (after r) <> None
             /\ exists m, value r = Err (CLIConnectionError m))
            \/ (value r = Ok tt /\ ready (after r) = true
                /\ exists c,
                     cmd (after r) = Some c /\ spawned (effects r) = [c]
                     /\ Process c = true /\ Path c = cliPath t
                     /\ Args c = builtArgs bc /\ Dir c = cwd t
                     /\ cmdEnv c = buildEnv os SDKVersion t))).
Proof.
  intros Hcmd r. subst r. unfold Transport.connectBody. rewrite Hcmd.
  pose proof (ConnectFacts.checkClaudeVersion_nil (cliPath t)
                (Getenv os "CLAUDE_AGENT_SDK_SKIP_VERSION_CHECK")
                (probeOutput os)) as Hnil.
  destruct (Version.checkClaudeVersion _ _ _) as [verr veffs].
  cbn [fst] in Hnil. subst verr.
  destruct (probe_silent veffs) as (Pc & Pr & Ps).
  destruct (buildCommand os t) as [bc|e|m] eqn:Hbc.
  2:{ left. cbn. repeat apply conj; auto. left. eexists; reflexivity. }
  2:{ left. cbn. repeat apply conj; auto. right. eexists; reflexivity. }
  right. exists bc. split; [reflexivity|].
  destruct (built_files os t bc Hbc) as (Bs & _).
  assert (E1c : created (map VersionProbe veffs ++ builtEffects bc)
                = created (builtEffects bc))
    by (rewrite created_app, Pc; reflexivity).
  assert (E1r : removed (map VersionProbe veffs ++ builtEffects bc)
                = removed (builtEffects bc))
    by (rewrite removed_app, Pr; reflexivity).
  assert (E1s : spawned (map VersionProbe veffs ++ builtEffects bc) = [])
    by (rewrite spawned_app, Ps, Bs; reflexivity).
  destruct (negb (String.eqb (cwd t) "") && _) eqn:Hmiss.
  { cbn. repeat apply conj; auto. left. repeat apply conj; auto.
    - discriminate.
    - eexists; reflexivity. }
  destruct (StdinPipe os); cbn [negb].
  2:{ cbn. repeat apply conj; auto. left. repeat apply conj; auto.
      - discriminate.
      - eexists; reflexivity. }
  destruct (StdoutPipe os); cbn [negb].
  2:{ cbn. repeat apply conj; auto. left. repeat apply conj; auto.
      - discriminate.
      - eexists; reflexivity. }
  assert (Hdir : Dir (if String.eqb (cwd t) ""
                      then {| Path := cliPath t; Args := builtArgs bc;
                              Dir := ""; cmdEnv := []; Process := false;
                              ProcessState := None |}
                      else withDir {| Path := cliPath t; Args := builtArgs bc;
                                      Dir := ""; cmdEnv := []; Process := false;
                                      ProcessState := None |} (cwd t))
                 = cwd t).
  { destruct (String.eqb (cwd t) "") eqn:E; [|reflexivity].
    apply String.eqb_eq in E. rewrite E. reflexivity. }
  destruct (shouldPipeStderr (options t)); cbn [andb].
  - destruct (StderrPipe os); cbn [negb].
    2:{ cbn. repeat apply conj; auto. left. repeat apply conj; auto.
        - discriminate.
        - eexists; reflexivity. }
    destruct (Start os); cbn [negb].
    2:{ cbn. repeat apply conj; auto. left. repeat apply conj; auto.
        - discriminate.
        - eexists; reflexivity. }
    destruct (isStreaming t); cbn [negb]; cbn [value after effects];
      (repeat apply conj;
       [ reflexivity
       | rewrite !created_app, Pc; cbn; rewrite ?app_nil_r; reflexivity
       | rewrite !removed_app, Pr; cbn; rewrite ?app_nil_r; reflexivity
       | right; repeat apply conj; [reflexivity | reflexivity |];
         eexists; repeat apply conj;
         [ reflexivity
         | rewrite !spawned_app, Ps, Bs; reflexivity
         | reflexivity
         | destruct (String.eqb (cwd t) ""); reflexivity
         | destruct (String.eqb (cwd t) ""); reflexivity
         | exact Hdir
         | destruct (String.eqb (cwd t) ""); reflexivity ] ]).
  - destruct (Start os); cbn [negb].
    2:{ cbn. repeat apply conj; auto. left. repeat apply conj; auto.
        - discriminate.
        - eexists; reflexivity. }
    destruct (isStreaming t); cbn [negb]; cbn [value after effects];
      (repeat apply conj;
       [ reflexivity
       | rewrite !created_app, Pc; cbn; rewrite ?app_nil_r; reflexivity
       | rewrite !removed_app, Pr; cbn; rewrite ?app_nil_r; reflexivity
       | right; repeat apply conj; [reflexivity | reflexivity |];
         eexists; repeat apply conj;
         [ reflexivity
         | rewrite !spawned_app, Ps, Bs; reflexivity
         | reflexivity
         | destruct (String.eqb (cwd t) ""); reflexivity
         | destruct (String.eqb (cwd t) ""); reflexivity
         | exact Hdir
         | destruct (String.eqb (cwd t) ""); reflexivity ] ]).
Qed.

(** [X7] [Connect] on a transport that has no command starts the child
    exactly when it returns nil.  Then one child is started, with the
    working directory of the transport and the environment [buildEnv]
    gives, and the transport is ready.  When [Connect] returns an error, or
    panics, no child is started and the transport is as ready as it
    was. *)
Theorem Connect_starts_child_iff_nil :
  forall (os : OS) (t : SubprocessCLITransport),
    cmd t = None ->
    let r := Connect os SDKVersion t in
    match value r with
    | Ok _ =>
        ready (after r) = true
        /\ exists c,
             cmd (after r) = Some c /\ spawned (effects r) = [c]
             /\ Process c = true /\ Dir c = cwd t
             /\ cmdEnv c = buildEnv os SDKVersion t
    | _ => spawned (effects r) = [] /\ ready (after r) = ready t
    end.
Proof.
  intros os t Hcmd r. subst r. unfold Transport.Connect.
  cbn [value after effects]. rewrite !spawned_app. cbn [spawned app].
  rewrite app_nil_r.
  destruct (connectBody_cases os t Hcmd)
    as [(Ha & _ & _ & Hs & Hv) | (bc & _ & _ & _ & _ & Hv)].
  - rewrite Hs, Ha.
    destruct Hv as [[m ->] | [m ->]]; split; reflexivity.
  - destruct Hv as [(Hs & Hr & _ & m & ->)
                   | (-> & Hr & c & Hc & Hs & Hp & Hpath & _ & Hdir & Henv)].
    + split; assumption.
    + split; [exact Hr|]. exists c. repeat apply conj; assumption.
Qed.

Lemma connectBody_idle os t :
  cmd t <> None ->
  connectBody os SDKVersion t = {| value := Ok tt; after := t; effects := [] |}.
Proof.
  intros H. unfold Transport.connectBody.
  destruct (cmd t); [reflexivity | congruence].
Qed.

(** ** The calls keep an idle transport idle *)

Lemma removed_temp_files os files :
  removed
    (flat_map
       (fun f => if Remove os f then [RemoveFile f]
                 else [RemoveFile f;
                       PrintStderr ("Warning: Failed to remove temp file " ++ f)%string])
       files)
  = files
  /\ created
       (flat_map
          (fun f => if Remove os f then [RemoveFile f]
                    else [RemoveFile f;
                          PrintStderr ("Warning: Failed to remove temp file " ++ f)%string])
          files)
     = [].
Proof.
  induction files as [|f files [IHr IHc]]; [auto|].
  cbn [flat_map]. rewrite removed_app, created_app, IHr, IHc.
  destruct (Remove os f); auto.
Qed.

Lemma closeEffects_files os t c :
  removed (closeEffects os t c) = tempFiles t
  /\ created (closeEffects os t c) = [].
Proof.
  unfold closeEffects. rewrite !removed_app, !created_app.
  destruct (removed_temp_files os (tempFiles t)) as [-> ->].
  destruct (stdin t); destruct (Process c && _); destruct (Process c);
    auto.
Qed.

Lemma call_step os t c :
  consistent t ->
  consistent (callAfter UnmarshalInto Marshal MarshalError SDKVersion os t c)
  /\ tempFiles t
     ++ created (callEffects UnmarshalInto Marshal MarshalError os SDKVersion t c)
     = removed (callEffects UnmarshalInto Marshal MarshalError os SDKVersion t c)
       ++ tempFiles (callAfter UnmarshalInto Marshal MarshalError SDKVersion os t c).
Proof.
  intros Hc. destruct c as [ | data | | | | ]; cbn [callAfter callEffects].
  - (* Connect *)
    unfold Transport.Connect. cbn [after effects].
    rewrite !created_app, !removed_app. cbn [created removed app].
    rewrite !app_nil_r.
    destruct (cmd t) as [c|] eqn:Hcmd.
    + unfold Transport.connectBody. rewrite Hcmd. cbn.
      rewrite app_nil_r. split; [exact Hc | reflexivity].
    + destruct (Hc Hcmd) as (_ & _ & Hfiles).
      destruct (connectBody_cases os t Hcmd)
        as [(-> & -> & -> & _) | (bc & Hbc & -> & -> & -> & Hv)].
      * rewrite app_nil_r. split; [exact Hc | reflexivity].
      * destruct (built_files os t bc Hbc) as (_ & new & -> & ->).
        rewrite Hfiles. split; [|reflexivity].
        intros Hnone.
        destruct Hv as [(_ & _ & Hne & _) | (_ & _ & c & Hsome & _)];
          congruence.
  - (* Write *)
    unfold Write.
    destruct (negb (ready t) || _) eqn:Hr;
      [cbn; rewrite app_nil_r; split; [exact Hc | reflexivity]|].
    destruct (cmd t) as [c|] eqn:Hcmd;
      [|cbn; rewrite app_nil_r; split; [exact Hc | reflexivity]].
    destruct (ProcessState c);
      [cbn; rewrite app_nil_r; split; [exact Hc | reflexivity]|].
    destruct (exitError t);
      [cbn; rewrite app_nil_r; split; [exact Hc | reflexivity]|].
    destruct (stdinWrite os); cbn; rewrite app_nil_r;
      (split; [|reflexivity]).
    + exact Hc.
    + unfold consistent. cbn. congruence.
  - (* ReadMessages *)
    cbn. rewrite app_nil_r. split; [exact Hc | reflexivity].
  - (* EndInput *)
    unfold EndInput. destruct (stdin t) eqn:Hs; cbn; rewrite app_nil_r;
      (split; [|reflexivity]); [|exact Hc].
    unfold consistent. cbn. intros Hn. destruct (Hc Hn) as (? & _ & ?).
    auto.
  - (* IsReady *)
    cbn. rewrite app_nil_r. split; [exact Hc | reflexivity].
  - (* Close *)
    unfold Close. cbn [cmd setReady].
    destruct (cmd t) as [c|] eqn:Hcmd.
    + cbn [after effects]. rewrite !created_app, !removed_app.
      destruct (closeEffects_files os (setReady t false (exitError t)) c)
        as [-> ->].
      cbn. rewrite !app_nil_r. split; [|reflexivity].
      unfold consistent. cbn. auto.
    + cbn. rewrite app_nil_r. split; [|reflexivity].
      unfold consistent. cbn. intros _.
      destruct (Hc Hcmd) as (_ & ? & ?). auto.
Qed.

Lemma new_consistent prompt options cliPath findCLI t0 :
  NewSubprocessCLITransport prompt options cliPath findCLI = Ok t0 ->
  consistent t0 /\ tempFiles t0 = [].
Proof.
  unfold NewSubprocessCLITransport.
  destruct (if String.eqb cliPath "" then findCLI else Ok cliPath);
    cbn [bind]; try discriminate.
  intros H; injection H as <-. unfold consistent. cbn. auto.
Qed.

Lemma reader_step t wait :
  consistent t ->
  consistent (readerEnds t wait) /\ tempFiles (readerEnds t wait) = tempFiles t.
Proof.
  intros Hc. destruct wait as [ | code | ]; cbn [readerEnds].
  - split; [|reflexivity]. unfold consistent. cbn.
    destruct (cmd t) eqn:E; [discriminate|]. intros _. exact (Hc E).
  - split; [|reflexivity]. unfold consistent. cbn.
    destruct (cmd t) eqn:E; [discriminate|]. intros _. exact (Hc E).
  - split; [exact Hc | reflexivity].
Qed.

Lemma run_steps steps : forall t before,
  consistent t ->
  created before = removed before ++ tempFiles t ->
  let r := run UnmarshalInto Marshal MarshalError SDKVersion steps t in
  consistent (fst r)
  /\ created (before ++ snd r) = removed (before ++ snd r) ++ tempFiles (fst r).
Proof.
  induction steps as [|s steps IH]; intros t before Hc Hacc; cbn [run].
  - cbn. rewrite app_nil_r. auto.
  - assert (Hstep : consistent (stepAfter UnmarshalInto Marshal MarshalError SDKVersion t s)
             /\ tempFiles t
                ++ created (stepEffects UnmarshalInto Marshal MarshalError SDKVersion t s)
                = removed (stepEffects UnmarshalInto Marshal MarshalError SDKVersion t s)
                  ++ tempFiles (stepAfter UnmarshalInto Marshal MarshalError SDKVersion t s)).
    { destruct s as [os c | wait]; cbn [stepAfter stepEffects].
      - apply call_step. exact Hc.
      - destruct (reader_step t wait Hc) as [Hc' ->].
        cbn. rewrite app_nil_r. auto. }
    destruct Hstep as [Hc' Hstep].
    specialize (IH (stepAfter UnmarshalInto Marshal MarshalError SDKVersion t s)
                  (before ++ stepEffects UnmarshalInto Marshal MarshalError SDKVersion t s)
                  Hc').
    destruct (run UnmarshalInto Marshal MarshalError SDKVersion steps
                (stepAfter UnmarshalInto Marshal MarshalError SDKVersion t s))
      as [t' effs].
    cbn [fst snd] in *. rewrite app_assoc. apply IH.
    rewrite created_app, removed_app, Hacc, <- !app_assoc. f_equal.
    exact Hstep.
Qed.

(** ** After a failed [Connect] *)

Lemma stuck_step t s :
  cmd t <> None -> ready t = false -> isClose s = false ->
  cmd (stepAfter UnmarshalInto Marshal MarshalError SDKVersion t s) <> None
  /\ ready (stepAfter UnmarshalInto Marshal MarshalError SDKVersion t s) = false
  /\ spawned (stepEffects UnmarshalInto Marshal MarshalError SDKVersion t s) = [].
Proof.
  intros Hcmd Hready Hs.
  destruct s as [os c | wait]; cbn [stepAfter stepEffects].
  - destruct c as [ | data | | | | ]; cbn [callAfter callEffects].
    + unfold Transport.Connect. rewrite (connectBody_idle os t Hcmd).
      cbn. auto.
    + unfold Write. rewrite Hready. cbn. auto.
    + auto.
    + unfold EndInput. destruct (stdin t); cbn; auto.
    + cbn. auto.
    + discriminate.
  - destruct (cmd t) as [c|] eqn:E; [|congruence].
    destruct wait as [ | code | ]; cbn [readerEnds]; cbn; rewrite ?E; cbn;
      repeat apply conj; try discriminate; auto.
Qed.

Lemma stuck_run later : forall t,
  cmd t <> None -> ready t = false -> existsb isClose later = false ->
  let r := run UnmarshalInto Marshal MarshalError SDKVersion later t in
  cmd (fst r) <> None /\ ready (fst r) = false /\ spawned (snd r) = [].
Proof.
  induction later as [|s later IH]; intros t Hcmd Hready Hno; cbn [run].
  - cbn. auto.
  - cbn [existsb] in Hno. apply orb_false_elim in Hno. destruct Hno as [Hs Hno].
    destruct (stuck_step t s Hcmd Hready Hs) as (Hcmd' & Hready' & Hsp).
    specialize (IH _ Hcmd' Hready' Hno).
    destruct (run UnmarshalInto Marshal MarshalError SDKVersion later
                (stepAfter UnmarshalInto Marshal MarshalError SDKVersion t s))
      as [t' effs].
    cbn [fst snd] in *. rewrite spawned_app, Hsp.
    destruct IH as (? & ? & ->). auto.
Qed.

(** [X8] On a transport made by [NewSubprocessCLITransport], once
    [Connect] has failed with a connection error (no working directory,
    no pipe, no start), the transport keeps the command it had built and
    is not ready.  From then on and until [Close] is called, whatever
    else is called and whenever the reader ends, no child is started and
    every [Connect] returns nil at once, starts nothing and leaves the
    transport as it is, not ready. *)
Theorem Connect_after_connection_error_does_nothing :
  forall (prompt : Prompt) (options : option ClaudeAgentOptions)
    (cliPath : string) (findCLI : result string)
    (t0 : SubprocessCLITransport) (before : list step)
    (os : OS) (m : string) (later : list step) (os' : OS),
    NewSubprocessCLITransport prompt options cliPath findCLI = Ok t0 ->
    let t := fst (run UnmarshalInto Marshal MarshalError SDKVersion before t0) in
    value (Connect os SDKVersion t) = Err (CLIConnectionError m) ->
    existsb isClose later = false ->
    let r := run UnmarshalInto Marshal MarshalError SDKVersion later
               (after (Connect os SDKVersion t)) in
    spawned (effects (Connect os SDKVersion t)) = []
    /\ spawned (snd r) = []
    /\ ready (fst r) = false
    /\ Connect os' SDKVersion (fst r)
       = {| value := Ok tt; after := fst r; effects := [Lock mu; Unlock mu] |}.
Proof.
  intros prompt options cliPath findCLI t0 before os m later os' Hnew t Hv
    Hno r.
  destruct (new_consistent _ _ _ _ _ Hnew) as [Hc0 Hf].
  destruct (run_steps before t0 [] Hc0) as [Hc _]; [rewrite Hf; reflexivity|].
  fold t in Hc.
  assert (Hcmd : cmd t = None).
  { destruct (cmd t) as [c|] eqn:E; [|reflexivity].
    unfold Transport.Connect, Transport.connectBody in Hv.
    rewrite E in Hv. discriminate. }
  destruct (Hc Hcmd) as (Hready & _).
  assert (H1 : spawned (effects (Connect os SDKVersion t)) = []
               /\ cmd (after (Connect os SDKVersion t)) <> None
               /\ ready (after (Connect os SDKVersion t)) = false).
  { unfold Transport.Connect in *. cbn [value after effects] in *.
    rewrite !spawned_app. cbn [spawned app]. rewrite app_nil_r.
    destruct (connectBody_cases os t Hcmd)
      as [(_ & _ & _ & _ & [[m' Hm] | [m' Hm]]) | (bc & _ & _ & _ & _ & Hcase)];
      try congruence.
    destruct Hcase as [(Hs & Hr & Hne & _) | (Hok & _)]; [|congruence].
    repeat apply conj; congruence. }
  destruct H1 as (Hsp & Hcmd1 & Hready1).
  destruct (stuck_run later _ Hcmd1 Hready1 Hno) as (Hcmd2 & Hready2 & Hsp2).
  fold r in Hcmd2, Hready2, Hsp2.
  repeat apply conj; try assumption.
  unfold Transport.Connect. rewrite (connectBody_idle os' _ Hcmd2). reflexivity.
Qed.

(** ** After a failed [Write] *)

Lemma Write_unwritable os t data :
  consistent t -> writable t = false ->
  exists e,
    Write os t data
    = {| value := Err e; after := t; effects := [RLock mu; RUnlock mu] |}.
Proof.
  intros Hc Hw. unfold writable in Hw. unfold Write.
  destruct (ready t) eqn:Hr; cbn [negb orb].
  2:{ eexists; reflexivity. }
  destruct (stdin t) as [p|] eqn:Hs.
  2:{ eexists; reflexivity. }
  destruct (cmd t) as [c|] eqn:Hcmd.
  2:{ destruct (Hc Hcmd) as (Hready & _). congruence. }
  destruct (ProcessState c) as [code|].
  { eexists; reflexivity. }
  destruct (exitError t) as [e|].
  { eexists; reflexivity. }
  discriminate.
Qed.

Lemma Write_failed os t data e :
  consistent t -> value (Write os t data) = Err e ->
  writable (after (Write os t data)) = false.
Proof.
  intros Hc Hv.
  destruct (writable t) eqn:Hw.
  - unfold writable in Hw. unfold Write in *.
    destruct (cmd t) as [c|] eqn:Hcmd; [|discriminate].
    destruct (stdin t) as [p|] eqn:Hs; [|discriminate].
    destruct (exitError t) as [e0|] eqn:He; [discriminate|].
    apply andb_prop in Hw. destruct Hw as [Hr Hp]. rewrite Hr in *.
    cbn [negb orb] in *.
    destruct (ProcessState c); [discriminate|].
    destruct (stdinWrite os); [discriminate|].
    unfold writable. cbn. rewrite Hcmd, Hs. reflexivity.
  - destruct (Write_unwritable os t data Hc Hw) as [e' ->]. exact Hw.
Qed.

Lemma not_ready_unwritable t : ready t = false -> writable t = false.
Proof.
  intros H. unfold writable. rewrite H.
  destruct (cmd t); [|reflexivity].
  destruct (stdin t); [|reflexivity].
  destruct (exitError t); reflexivity.
Qed.

Lemma unwritable_step t s :
  consistent t -> writable t = false ->
  spawned (stepEffects UnmarshalInto Marshal MarshalError SDKVersion t s) = [] ->
  writable (stepAfter UnmarshalInto Marshal MarshalError SDKVersion t s) = false.
Proof.
  intros Hc Hw Hsp.
  destruct s as [os c | wait]; cbn [stepAfter stepEffects] in *.
  - destruct c as [ | data | | | | ]; cbn [callAfter callEffects] in *.
    + (* Connect *)
      unfold Transport.Connect in *. cbn [after effects] in *.
      rewrite !spawned_app in Hsp. cbn [spawned app] in Hsp.
      rewrite app_nil_r in Hsp.
      destruct (cmd t) as [c|] eqn:Hcmd.
      * rewrite connectBody_idle by congruence. exact Hw.
      * destruct (Hc Hcmd) as (Hready & _).
        destruct (connectBody_cases os t Hcmd)
          as [(-> & _) | (bc & _ & _ & _ & _ & Hcase)]; [exact Hw|].
        destruct Hcase as [(_ & Hr & _) | (_ & _ & c & _ & Hs & _)].
        -- apply not_ready_unwritable. congruence.
        -- rewrite Hs in Hsp. discriminate.
    + destruct (Write_unwritable os t data Hc Hw) as [e ->]. exact Hw.
    + exact Hw.
    + unfold EndInput. destruct (stdin t) eqn:Hs; cbn [after]; [|exact Hw].
      unfold writable. cbn. destruct (cmd t); reflexivity.
    + exact Hw.
    + apply not_ready_unwritable. unfold Close. cbn [cmd setReady].
      destruct (cmd t); reflexivity.
  - unfold writable in *.
    destruct wait as [ | code | ]; cbn [readerEnds]; cbn;
      destruct (cmd t) as [c|]; cbn in *; try reflexivity;
      destruct (stdin t); try reflexivity;
      destruct (exitError t); try reflexivity;
      rewrite ?andb_false_r; try reflexivity; exact Hw.
Qed.

Lemma unwritable_run later : forall t,
  consistent t -> writable t = false ->
  spawned (snd (run UnmarshalInto Marshal MarshalError SDKVersion later t)) = [] ->
  let r := run UnmarshalInto Marshal MarshalError SDKVersion later t in
  consistent (fst r) /\ writable (fst r) = false.
Proof.
  induction later as [|s later IH]; intros t Hc Hw Hsp; cbn [run] in *.
  - cbn. auto.
  - assert (Hc' : consistent
                    (stepAfter UnmarshalInto Marshal MarshalError SDKVersion t s)).
    { destruct s as [os c | wait]; cbn [stepAfter].
      - apply call_step. exact Hc.
      - apply reader_step. exact Hc. }
    specialize (IH (stepAfter UnmarshalInto Marshal MarshalError SDKVersion t s)).
    destruct (run UnmarshalInto Marshal MarshalError SDKVersion later
                (stepAfter UnmarshalInto Marshal MarshalError SDKVersion t s))
      as [t' effs].
    cbn [fst snd] in *. rewrite spawned_app in Hsp.
    apply app_eq_nil in Hsp. destruct Hsp as [Hs1 Hs2].
    apply IH; [exact Hc' | | exact Hs2].
    apply unwritable_step; assumption.
Qed.

(** [X16] An error of [Write] is final for the child.  On a transport made
    by [NewSubprocessCLITransport], once [Write] has returned an error,
    every later [Write] returns an error too, writes nothing to stdin
    and changes nothing, whatever is called in between, for as long as
    no new child is started (which takes a [Close] and a [Connect] that
    succeeds). *)
Theorem Write_error_is_final :
  forall (prompt : Prompt) (options : option ClaudeAgentOptions)
    (cliPath : string) (findCLI : result string)
    (t0 : SubprocessCLITransport) (before : list step)
    (os : OS) (data : string) (e : SDKError)
    (later : list step) (os' : OS) (data' : string),
    NewSubprocessCLITransport prompt options cliPath findCLI = Ok t0 ->
    let t := fst (run UnmarshalInto Marshal MarshalError SDKVersion before t0) in
    value (Write os t data) = Err e ->
    let r := run UnmarshalInto Marshal MarshalError SDKVersion later
               (after (Write os t data)) in
    spawned (snd r) = [] ->
    let w := Write os' (fst r) data' in
    (exists e', value w = Err e')
    /\ after w = fst r
    /\ written (effects w) = [].
Proof.
  intros prompt options cliPath findCLI t0 before os data e later os' data'
    Hnew t Hv r Hsp w.
  destruct (new_consistent _ _ _ _ _ Hnew) as [Hc0 Hf].
  destruct (run_steps before t0 [] Hc0) as [Hc _]; [rewrite Hf; reflexivity|].
  fold t in Hc.
  assert (Hc1 : consistent (after (Write os t data))).
  { exact (proj1 (call_step os t (CallWrite data) Hc)). }
  pose proof (Write_failed os t data e Hc Hv) as Hw1.
  destruct (unwritable_run later _ Hc1 Hw1 Hsp) as [Hc2 Hw2].
  fold r in Hc2, Hw2.
  destruct (Write_unwritable os' (fst r) data' Hc2 Hw2) as [e' Heq].
  subst w. rewrite Heq. cbn. repeat apply conj; try reflexivity.
  exists e'. reflexivity.
Qed.

(** [X15] On a transport made by [NewSubprocessCLITransport] the methods may
    be called in any order and number, the system answering each call as
    it likes, and the goroutine of [ReadMessages] may record the end of
    the child at any moment.  The transport stays consistent: without a
    command it is not ready, has no stdin and no temporary file.  So
    [Write] never runs into its nil command: it returns, with or without
    an error. *)
Theorem Write_never_dereferences_nil :
  forall (prompt : Prompt) (options : option ClaudeAgentOptions)
    (cliPath : string) (findCLI : result string)
    (t0 : SubprocessCLITransport) (steps : list step)
    (os : OS) (data : string),
    NewSubprocessCLITransport prompt options cliPath findCLI = Ok t0 ->
    let t := fst (run UnmarshalInto Marshal MarshalError SDKVersion steps t0) in
    consistent t /\ panics (value (Write os t data)) = false.
Proof.
  intros prompt options cliPath findCLI t0 steps os data Hnew t.
  destruct (new_consistent _ _ _ _ _ Hnew) as [Hc Hf].
  destruct (run_steps steps t0 [] Hc) as [Hc' _]; [rewrite Hf; reflexivity|].
  fold t in Hc'. split; [exact Hc'|].
  unfold Write.
  destruct (negb (ready t) || _) eqn:Hr; [reflexivity|].
  destruct (cmd t) as [c|] eqn:Hcmd.
  - destruct (ProcessState c); [reflexivity|].
    destruct (exitError t); [reflexivity|].
    destruct (stdinWrite os); reflexivity.
  - destruct (Hc' Hcmd) as (Hready & _). rewrite Hready in Hr. discriminate.
Qed.

(** [X19] No temporary file is lost.  Over any calls of the methods on a
    transport made by [NewSubprocessCLITransport], whenever the child
    ends, the files created are those [os.Remove] was called on,
    followed by those the transport still records; and [Close] calls
    [os.Remove] on every file the transport records. *)
Theorem temp_files_accounted :
  forall (prompt : Prompt) (options : option ClaudeAgentOptions)
    (cliPath : string) (findCLI : result string)
    (t0 : SubprocessCLITransport) (steps : list step) (os : OS),
    NewSubprocessCLITransport prompt options cliPath findCLI = Ok t0 ->
    let r := run UnmarshalInto Marshal MarshalError SDKVersion steps t0 in
    created (snd r) = removed (snd r) ++ tempFiles (fst r)
    /\ removed (effects (Close os (fst r))) = tempFiles (fst r)
    /\ tempFiles (after (Close os (fst r))) = [].
Proof.
  intros prompt options cliPath findCLI t0 steps os Hnew r.
  destruct (new_consistent _ _ _ _ _ Hnew) as [Hc Hf].
  destruct (run_steps steps t0 [] Hc) as [Hc' Hacc]; [rewrite Hf; reflexivity|].
  fold r in Hc', Hacc. cbn [app] in Hacc. split; [exact Hacc|].
  unfold Close. cbn [cmd setReady].
  destruct (cmd (fst r)) as [c|] eqn:Hcmd; cbn [effects after].
  - rewrite !removed_app.
    destruct (closeEffects_files os (setReady (fst r) false (exitError (fst r))) c)
      as [-> _].
    cbn. rewrite app_nil_r. split; reflexivity.
  - destruct (Hc' Hcmd) as (_ & _ & Hfiles). cbn. rewrite Hfiles.
    split; reflexivity.
Qed.

End Facts.

(** ** Writing after the end *)

Lemma written_app a c : written (a ++ c) = written a ++ written c.
Proof.
  induction a as [|e a IH]; simpl; [reflexivity|].
  destruct e; simpl; rewrite IH; reflexivity.
Qed.

(** [X17] After [Close], and after [EndInput], [Write] is refused: it returns
    the error of a transport that is not ready, writes nothing to stdin
    and changes nothing. *)
Theorem Write_refused_after_Close_and_EndInput :
  forall (os os' : OS) (t : SubprocessCLITransport) (data : string),
    let refused t1 :=
      Write os' t1 data
      = {| value := Err (CLIConnectionError "transport is not ready for writing");
           after := t1; effects := [RLock mu; RUnlock mu] |} in
    refused (after (Close os t)) /\ refused (after (EndInput os t)).
Proof.
  intros os os' t data refused. subst refused. cbv beta. split.
  - unfold Close. cbn [cmd setReady].
    destruct (cmd t); cbn [after]; unfold Write; reflexivity.
  - unfold EndInput.
    destruct (stdin t) eqn:Hs; cbn [after]; unfold Write; cbn [stdin setPipes].
    + rewrite orb_true_r. reflexivity.
    + rewrite Hs, orb_true_r. reflexivity.
Qed.

(** [X18] [Close] always returns nil and leaves a transport that is not ready
    and has no command.  When there was a command, stdin is closed and
    forgotten, [os.Remove] is called on each temporary file, in order,
    and the list of files and the recorded error are cleared.  A second
    [Close] only takes and releases the two mutexes. *)
Theorem Close_is_idempotent :
  forall (os os' : OS) (t : SubprocessCLITransport),
    let r := Close os t in
    value r = Ok tt
    /\ ready (after r) = false
    /\ cmd (after r) = None
    /\ (cmd t <> None ->
        stdin (after r) = None /\ tempFiles (after r) = []
        /\ exitError (after r) = None
        /\ removed (effects r) = tempFiles t)
    /\ Close os' (after r)
       = {| value := Ok tt; after := after r;
            effects := [Lock writeMu; Lock mu; Unlock mu; Unlock writeMu] |}.
Proof.
  intros os os' t r. subst r.
  pose proof (eq_refl (Close os t)) as Heq.
  unfold Close at 2 in Heq. cbn [cmd setReady] in Heq.
  destruct (cmd t) as [c|] eqn:Hc; rewrite Heq; cbn [value after effects].
  - split; [reflexivity|]. split; [reflexivity|]. split; [reflexivity|].
    split; [|reflexivity].
    intros _. split; [reflexivity|]. split; [reflexivity|].
    split; [reflexivity|].
    rewrite !removed_app.
    destruct (closeEffects_files os (setReady t false (exitError t)) c)
      as [-> _].
    cbn. apply app_nil_r.
  - split; [reflexivity|]. split; [reflexivity|]. split; [exact Hc|].
    split; [congruence|].
    unfold Close. cbn [cmd setReady]. rewrite Hc. reflexivity.
Qed.

(** ** The mutexes *)

Lemma lockRun_quiet effs : forall h rest,
  quiet effs = true -> lockRun h (effs ++ rest) = lockRun h rest.
Proof.
  induction effs as [|e effs IH]; intros h rest H; [reflexivity|].
  cbn in H. apply andb_prop in H. destruct H as [He Hq].
  destruct e; try discriminate; cbn; apply IH; exact Hq.
Qed.

(** [X20] Every method releases the mutexes it takes.  On a transport that is
    not ready when it has no command, a call of any method locks no
    mutex it holds already, unlocks only what it holds, and holds
    nothing when it returns. *)
Theorem methods_release_their_locks :
  forall (UnmarshalInto : string -> JSON.GoMap -> JSON.GoMap * bool)
    (Marshal : Marshalable -> string)
    (MarshalError : Marshalable -> option string) (os : OS) (SDKVersion : string)
    (t : SubprocessCLITransport) (c : call),
    (cmd t = None -> ready t = false) ->
    lockRun none (callEffects UnmarshalInto Marshal MarshalError os SDKVersion t c)
    = Some none.
Proof.
  intros U M ME os V t c Hidle.
  destruct c as [ | data | | | | ]; unfold callEffects.
  - unfold Connect. cbn [effects].
    pose proof (LockFacts.quiet_connectBody U M ME os V t) as Hq.
    cbn [app lockRun lockStep none heldMu heldWriteMu].
    rewrite (lockRun_quiet _ _ _ Hq). reflexivity.
  - unfold Write.
    destruct (negb (ready t) || _) eqn:Hr; [reflexivity|].
    destruct (cmd t) as [c|] eqn:Hc.
    + destruct (ProcessState c); [reflexivity|].
      destruct (exitError t); [reflexivity|].
      destruct (stdinWrite os); reflexivity.
    + rewrite (Hidle eq_refl) in Hr. discriminate.
  - reflexivity.
  - unfold EndInput. destruct (stdin t); reflexivity.
  - reflexivity.
  - unfold Close. cbn [cmd setReady].
    destruct (cmd t) as [c|]; [|reflexivity].
    cbn [effects].
    pose proof (LockFacts.quiet_closeEffects os (setReady t false (exitError t)) c)
      as Hq.
    cbn [app lockRun lockStep none heldMu heldWriteMu].
    rewrite (lockRun_quiet _ _ _ Hq). reflexivity.
Qed.

(** ** The environment of the child *)

Lemma lookupEnv_app env env' key :
  lookupEnv (env ++ env') key
  = match lookupEnv env' key with
    | Some v => Some v
    | None => lookupEnv env key
    end.
Proof.
  unfold lookupEnv. rewrite fold_left_app.
  generalize (fold_left
                (fun seen entry =>
                   match cutEntry [] (list_ascii_of_string entry) with
                   | Some (k, v) => if String.eqb k key then Some v else seen
                   | None => seen
                   end) env None).
  induction env' as [|entry env' IH] using rev_ind; intros seen.
  - reflexivity.
  - rewrite !fold_left_app. cbn [fold_left].
    destruct (cutEntry [] (list_ascii_of_string entry)) as [[k v]|].
    + destruct (String.eqb k key); [reflexivity | apply IH].
    + apply IH.
Qed.

(** [X13] The child sees the variables of the SDK whatever the caller and the
    parent process set: in the environment [buildEnv] returns, the last
    entry for [CLAUDE_CODE_ENTRYPOINT] is [sdk-go] and the last for
    [CLAUDE_AGENT_SDK_VERSION] is the version of the SDK; with a working
    directory the last entry for [PWD] is that directory. *)
Theorem buildEnv_sets_SDK_variables :
  forall (os : OS) (SDKVersion : string) (t : SubprocessCLITransport),
    lookupEnv (buildEnv os SDKVersion t) "CLAUDE_CODE_ENTRYPOINT"
    = Some "sdk-go"
    /\ lookupEnv (buildEnv os SDKVersion t) "CLAUDE_AGENT_SDK_VERSION"
       = Some SDKVersion
    /\ lookupEnv (buildEnv os SDKVersion t) "PWD"
       = (if String.eqb (cwd t) ""
          then lookupEnv (Environ os
                          ++ map (fun '(k, v) => (k ++ "=" ++ v)%string)
                               (Env (options t))) "PWD"
          else Some (cwd t)).
Proof.
  intros os V t. unfold buildEnv.
  rewrite !app_assoc. rewrite <- !app_assoc.
  set (inherited := Environ os).
  set (user := map (fun '(k, v) => (k ++ "=" ++ v)%string) (Env (options t))).
  repeat apply conj.
  - rewrite 2!lookupEnv_app.
    replace (lookupEnv
               (["CLAUDE_CODE_ENTRYPOINT=sdk-go"] ++
                [("CLAUDE_AGENT_SDK_VERSION=" ++ V)%string] ++
                (if EnableFileCheckpointing (options t)
                 then ["CLAUDE_CODE_ENABLE_SDK_FILE_CHECKPOINTING=true"]
                 else []) ++
                (if String.eqb (cwd t) "" then [] else [("PWD=" ++ cwd t)%string]))
               "CLAUDE_CODE_ENTRYPOINT")
      with (Some "sdk-go"); [reflexivity|].
    destruct (EnableFileCheckpointing (options t));
      destruct (String.eqb (cwd t) ""); reflexivity.
  - rewrite 2!lookupEnv_app.
    replace (lookupEnv
               (["CLAUDE_CODE_ENTRYPOINT=sdk-go"] ++
                [("CLAUDE_AGENT_SDK_VERSION=" ++ V)%string] ++
                (if EnableFileCheckpointing (options t)
                 then ["CLAUDE_CODE_ENABLE_SDK_FILE_CHECKPOINTING=true"]
                 else []) ++
                (if String.eqb (cwd t) "" then [] else [("PWD=" ++ cwd t)%string]))
               "CLAUDE_AGENT_SDK_VERSION")
      with (Some V); [reflexivity|].
    destruct (EnableFileCheckpointing (options t));
      destruct (String.eqb (cwd t) ""); cbn;
      rewrite string_of_list_ascii_of_string; reflexivity.
  - rewrite (app_assoc inherited user). rewrite lookupEnv_app.
    replace (lookupEnv
               (["CLAUDE_CODE_ENTRYPOINT=sdk-go"] ++
                [("CLAUDE_AGENT_SDK_VERSION=" ++ V)%string] ++
                (if EnableFileCheckpointing (options t)
                 then ["CLAUDE_CODE_ENABLE_SDK_FILE_CHECKPOINTING=true"]
                 else []) ++
                (if String.eqb (cwd t) "" then [] else [("PWD=" ++ cwd t)%string]))
               "PWD")
      with (if String.eqb (cwd t) "" then None else Some (cwd t)).
    + destruct (String.eqb (cwd t) ""); reflexivity.
    + destruct (EnableFileCheckpointing (options t));
        destruct (String.eqb (cwd t) ""); cbn;
        rewrite ?string_of_list_ascii_of_string; reflexivity.
Qed.

End LifecycleFacts.


(* ===================================================================== *)
(** * Further properties of the reader and of the goroutine of a query   *)
(* ===================================================================== *)

Module TraceFacts.

Import Reader ReaderSpec TraceSpec.

Section Reader.

Context {JSONObject : Type}.
Variable Unmarshal : string -> option JSONObject.
Variable maxBufferSize : Z.
Variable ScannerInitialBufferSize : option Z.
Variable ctxDone : nat -> bool.

Notation forJSONLines := (forJSONLines Unmarshal maxBufferSize).
Notation forScan := (forScan Unmarshal maxBufferSize ctxDone).
Notation decodedFrom := (decodedFrom Unmarshal maxBufferSize).
Notation ReadMessages :=
  (ReadMessages Unmarshal maxBufferSize ScannerInitialBufferSize ctxDone).

(** ** Every message was decoded *)

Lemma decodedFrom_weaken (tr : list (@event JSONObject)) prev :
  decodedFrom None tr -> decodedFrom prev tr.
Proof. destruct tr as [|[buf|data|e] tr]; cbn; tauto. Qed.

Lemma decodedFrom_app (a c : list (@event JSONObject)) : forall prev,
  decodedFrom prev a -> decodedFrom None c -> decodedFrom prev (a ++ c).
Proof.
  induction a as [|x a IH]; intros prev Ha Hc; cbn [app].
  - apply decodedFrom_weaken. exact Hc.
  - destruct x as [buf|data|e]; cbn in *.
    + apply IH; assumption.
    + split; [tauto | apply IH; tauto].
    + apply IH; assumption.
Qed.

Lemma decodedFrom_split (tr : list (@event JSONObject)) :
  forall prev pre data post,
    decodedFrom prev tr -> tr = pre ++ SendMsg data :: post ->
    exists buf,
      Unmarshal buf = Some data /\ (0 < len buf <= maxBufferSize)%Z
      /\ ((pre = [] /\ prev = Some buf)
          \/ exists pre', pre = pre' ++ [WriteString buf]).
Proof.
  induction tr as [|x tr IH]; intros prev pre data post Hd Heq.
  - destruct pre; discriminate.
  - destruct pre as [|y pre]; cbn [app] in Heq.
    + injection Heq as -> ->. cbn in Hd.
      destruct prev as [buf|]; [|tauto].
      exists buf. tauto.
    + injection Heq as <- Heq.
      assert (Hd' : exists prev', decodedFrom prev' tr
                      /\ (forall buf, prev' = Some buf -> x = WriteString buf)).
      { destruct x as [buf|d|e]; cbn in Hd.
        - exists (Some buf). split; [exact Hd|]. congruence.
        - exists None. split; [tauto | discriminate].
        - exists None. split; [exact Hd | discriminate]. }
      destruct Hd' as (prev' & Hd' & Hprev).
      destruct (IH prev' pre data post Hd' Heq)
        as (buf & Hu & Hl & [(-> & Hp) | (pre' & ->)]).
      * exists buf. split; [exact Hu|]. split; [exact Hl|]. right. exists [].
        rewrite (Hprev buf Hp). reflexivity.
      * exists buf. split; [exact Hu|]. split; [exact Hl|]. right.
        exists (x :: pre'). reflexivity.
Qed.

Lemma nonempty_len s : String.eqb s "" = false -> (0 < len s)%Z.
Proof. destruct s; [discriminate | intros _; unfold len; cbn; lia]. Qed.

Lemma forJSONLines_decoded jsonLines : forall jsonBuffer,
  decodedFrom None (fst (forJSONLines jsonLines jsonBuffer)).
Proof.
  induction jsonLines as [|jl rest IH]; intros buf; cbn [Reader.forJSONLines].
  - exact I.
  - destruct (String.eqb (TrimSpace jl) "") eqn:E; [apply IH|].
    destruct (Z.gtb_spec (len (buf ++ TrimSpace jl)) maxBufferSize) as [Hgt|Hle].
    + cbn. exact I.
    + assert (Hpos : (0 < len (buf ++ TrimSpace jl))%Z).
      { rewrite GoStringsFacts.len_append.
        pose proof (GoStringsFacts.len_nonneg buf).
        pose proof (nonempty_len _ E). lia. }
      destruct (Unmarshal (buf ++ TrimSpace jl)) as [data|] eqn:Hu.
      * specialize (IH "").
        destruct (forJSONLines rest "") as [evs e]. cbn in *.
        repeat apply conj; auto; lia.
      * specialize (IH (buf ++ TrimSpace jl)%string).
        destruct (forJSONLines rest (buf ++ TrimSpace jl)) as [evs e].
        cbn in *. apply decodedFrom_weaken. exact IH.
Qed.

Lemma forScan_decoded lines : forall k jsonBuffer,
  decodedFrom None (fst (forScan k lines jsonBuffer)).
Proof.
  induction lines as [|line rest IH]; intros k buf; cbn [Reader.forScan].
  - exact I.
  - destruct (ctxDone k); [exact I|].
    destruct (String.eqb (TrimSpace line) ""); [apply IH|].
    pose proof (forJSONLines_decoded (Split (TrimSpace line) LF) buf) as Hin.
    destruct (forJSONLines (Split (TrimSpace line) LF) buf) as [evs [buf'|]].
    + specialize (IH (S k) buf').
      destruct (forScan (S k) rest buf') as [evs' e]. cbn in *.
      apply decodedFrom_app; assumption.
    + exact Hin.
Qed.

Lemma ReadMessages_decodedFrom stdout readErr wait :
  decodedFrom None (ReadMessages stdout readErr wait).
Proof.
  unfold Reader.ReadMessages.
  destruct (Bufio.scanLines _ stdout) as [lines tooLong].
  pose proof (forScan_decoded lines 0 "") as Hd.
  destruct (forScan 0 lines "") as [evs [buf|]]; cbn [fst] in Hd; [|exact Hd].
  destruct (tooLong || _); [apply decodedFrom_app; [exact Hd | exact I]|].
  destruct wait; try exact Hd.
  apply decodedFrom_app; [exact Hd | exact I].
Qed.

(** [X21] Whatever the stream, the context and the end of the child, every
    message [ReadMessages] sends was decoded by [json.Unmarshal] from the
    buffer as the write just before the send left it, and that buffer was
    not empty and no longer than [maxBufferSize]. *)
Theorem ReadMessages_sends_decoded_buffers :
  forall (stdout : string) (readErr : option string) (wait : WaitResult)
    (pre : list (@event JSONObject)) (data : JSONObject)
    (post : list (@event JSONObject)),
    ReadMessages stdout readErr wait = pre ++ SendMsg data :: post ->
    exists pre' buf,
      pre = pre' ++ [WriteString buf]
      /\ Unmarshal buf = Some data
      /\ (0 < len buf <= maxBufferSize)%Z.
Proof.
  intros stdout readErr wait pre data post Heq.
  destruct (decodedFrom_split _ None pre data post
              (ReadMessages_decodedFrom stdout readErr wait) Heq)
    as (buf & Hu & Hl & [(_ & Hp) | (pre' & ->)]); [discriminate|].
  exists pre', buf. auto.
Qed.

Lemma msgCh_split (tr : list (@event JSONObject)) d ds :
  msgCh tr = d :: ds -> exists pre post, tr = pre ++ SendMsg d :: post.
Proof.
  induction tr as [|x tr IH]; [discriminate|].
  destruct x as [buf|d'|e]; cbn.
  - intros H. destruct (IH H) as (pre & post & ->).
    exists (WriteString buf :: pre), post. reflexivity.
  - intros H. injection H as -> _. exists [], tr. reflexivity.
  - intros H. destruct (IH H) as (pre & post & ->).
    exists (SendErr e :: pre), post. reflexivity.
Qed.

(** [X23] A transport whose [maxBufferSize] is zero or negative delivers
    nothing: [ReadMessages] sends no message, whatever the child
    prints. *)
Theorem ReadMessages_without_buffer_sends_nothing :
  forall (stdout : string) (readErr : option string) (wait : WaitResult),
    (maxBufferSize <= 0)%Z ->
    msgCh (ReadMessages stdout readErr wait) = [].
Proof.
  intros stdout readErr wait Hmax.
  destruct (msgCh (ReadMessages stdout readErr wait)) as [|d ds] eqn:E;
    [reflexivity|].
  destruct (msgCh_split _ _ _ E) as (pre & post & Heq).
  destruct (decodedFrom_split _ None pre d post
              (ReadMessages_decodedFrom stdout readErr wait) Heq)
    as (buf & _ & Hl & _).
  lia.
Qed.

(** ** Blank lines and white space *)

Lemma ReadMessages_feed stdout readErr wait :
  (forall n, ctxDone n = false) ->
  shortLines
    (Bufio.bufferLimit (initialSize ScannerInitialBufferSize) maxBufferSize)
    stdout ->
  ReadMessages stdout readErr wait
  = match feed Unmarshal maxBufferSize (fragments stdout) "" with
    | (evs, Returned) => evs
    | (evs, Running _) =>
        if match readErr with Some _ => true | None => false end
        then evs ++ [SendErr (CLIConnectionError "error reading from stdout")]
        else match wait with
             | WaitExitError code =>
                 evs ++ [SendErr (ProcessError "command failed" code)]
             | _ => evs
             end
    end.
Proof.
  intros Hctx Hshort. unfold Reader.ReadMessages, Bufio.scanLines.
  unfold shortLines in Hshort.
  rewrite (ReaderFacts.scanTokens_short _ _ Hshort).
  rewrite ReaderFacts.forScan_feed; [|exact Hctx|].
  - rewrite map_map. reflexivity.
  - rewrite Forall_map. rewrite Forall_forall. intros raw Hin Hlf.
    rewrite list_ascii_of_string_of_list_ascii in Hlf.
    apply ReaderFacts.dropCR_In in Hlf.
    exact (ReaderFacts.rawLines_no_LF _ [] raw (fun f => f) Hin Hlf).
Qed.

(** [X25] Blank lines, indentation, spaces at the end of a line and carriage
    returns make no difference: while the context is live, two streams
    whose lines never fill the scanner's buffer and which have the same
    fragments (their non-blank lines, trimmed) make [ReadMessages] do
    exactly the same. *)
Theorem ReadMessages_reads_fragments_only :
  forall (stdout stdout' : string) (readErr : option string)
    (wait : WaitResult),
    (forall n, ctxDone n = false) ->
    shortLines
      (Bufio.bufferLimit (initialSize ScannerInitialBufferSize) maxBufferSize)
      stdout ->
    shortLines
      (Bufio.bufferLimit (initialSize ScannerInitialBufferSize) maxBufferSize)
      stdout' ->
    fragments stdout = fragments stdout' ->
    ReadMessages stdout readErr wait = ReadMessages stdout' readErr wait.
Proof.
  intros stdout stdout' readErr wait Hctx Hs Hs' Hf.
  rewrite (ReadMessages_feed stdout readErr wait Hctx Hs).
  rewrite (ReadMessages_feed stdout' readErr wait Hctx Hs').
  rewrite Hf. reflexivity.
Qed.

(** ** At most one error, and nothing after it *)

Lemma no_error_split (a : list (@event JSONObject)) e0 pre e post :
  errCh a = [] -> a ++ [SendErr e0] = pre ++ SendErr e :: post -> post = [].
Proof.
  revert pre. induction a as [|x a IH]; intros pre Ha Heq.
  - destruct pre as [|y [|z pre]]; try discriminate.
    injection Heq as _ <-. reflexivity.
  - destruct pre as [|y pre]; cbn [app] in Heq.
    + injection Heq as -> _. discriminate.
    + injection Heq as _ Heq. apply (IH pre); [|exact Heq].
      destruct x; cbn in Ha; [exact Ha | exact Ha | discriminate].
Qed.

Lemma no_error_in (a : list (@event JSONObject)) pre e post :
  errCh a = [] -> a = pre ++ SendErr e :: post -> False.
Proof.
  intros Ha ->. rewrite ReaderFacts.errCh_app in Ha. cbn in Ha.
  destruct (errCh pre); discriminate.
Qed.

(** [X22] In every run [ReadMessages] sends at most one error, and the error
    is the last thing it sends: the goroutine never waits for room on
    the error channel, which holds one value. *)
Theorem ReadMessages_at_most_one_error :
  forall (stdout : string) (readErr : option string) (wait : WaitResult),
    List.length (errCh (ReadMessages stdout readErr wait)) <= 1
    /\ forall pre e post,
         ReadMessages stdout readErr wait = pre ++ SendErr e :: post ->
         post = [].
Proof.
  intros stdout readErr wait.
  destruct (ReaderFacts.ReadMessages_shape Unmarshal maxBufferSize
              ScannerInitialBufferSize ctxDone stdout readErr wait)
    as [(pre & Hpre & [-> | [-> | (code & ->)]])
       | (pre & buf & -> & Hpre & _)];
    pose proof (ReaderFacts.clean_errCh maxBufferSize pre Hpre) as Hno.
  - rewrite Hno. split; [cbn; lia|].
    intros p e q Heq. exfalso. exact (no_error_in _ _ _ _ Hno Heq).
  - rewrite ReaderFacts.errCh_app, Hno. split; [cbn; lia|].
    intros p e q Heq. exact (no_error_split _ _ _ _ _ Hno Heq).
  - rewrite ReaderFacts.errCh_app, Hno. split; [cbn; lia|].
    intros p e q Heq. exact (no_error_split _ _ _ _ _ Hno Heq).
  - rewrite ReaderFacts.errCh_app, Hno. split; [cbn; lia|].
    intros p e q Heq. unfold overflow in Heq.
    change (pre ++ [WriteString buf;
                    SendErr (CLIJSONDecodeError maxBufferSize (len buf))])
      with (pre ++ [WriteString buf]
                ++ [SendErr (CLIJSONDecodeError maxBufferSize (len buf))])
      in Heq.
    rewrite app_assoc in Heq.
    apply (no_error_split (pre ++ [WriteString buf])
             (CLIJSONDecodeError maxBufferSize (len buf)) p e q); [|exact Heq].
    rewrite ReaderFacts.errCh_app, Hno. reflexivity.
Qed.

(** ** A line that fills the buffer *)

Lemma scanTokens_long limit raws :
  forallb (fun raw => (Z.of_nat (List.length raw) <? limit)%Z) raws = false ->
  snd (Bufio.scanTokens limit raws) = true.
Proof.
  induction raws as [|raw raws IH]; cbn; [discriminate|].
  destruct (Z.ltb_spec (Z.of_nat (List.length raw)) limit) as [Hlt|Hge];
    cbn [andb].
  - intros H. destruct (Z.leb_spec limit (Z.of_nat (List.length raw))); [lia|].
    specialize (IH H). destruct (Bufio.scanTokens limit raws). exact IH.
  - intros _. destruct (Z.leb_spec limit (Z.of_nat (List.length raw))); [|lia].
    reflexivity.
Qed.

Lemma forJSONLines_returned jsonLines : forall jsonBuffer,
  snd (forJSONLines jsonLines jsonBuffer) = Returned ->
  exists size,
    errCh (fst (forJSONLines jsonLines jsonBuffer))
    = [CLIJSONDecodeError maxBufferSize size].
Proof.
  induction jsonLines as [|jl rest IH]; intros buf; cbn [Reader.forJSONLines].
  - discriminate.
  - destruct (String.eqb (TrimSpace jl) ""); [apply IH|].
    destruct (len (buf ++ TrimSpace jl) >? maxBufferSize)%Z.
    + intros _. eexists. reflexivity.
    + destruct (Unmarshal (buf ++ TrimSpace jl)) as [data|].
      * specialize (IH "").
        destruct (forJSONLines rest "") as [evs e]. exact IH.
      * specialize (IH (buf ++ TrimSpace jl)%string).
        destruct (forJSONLines rest (buf ++ TrimSpace jl)) as [evs e]. exact IH.
Qed.

Lemma forScan_returned lines : forall k jsonBuffer,
  (forall n, ctxDone n = false) ->
  snd (forScan k lines jsonBuffer) = Returned ->
  exists size,
    errCh (fst (forScan k lines jsonBuffer))
    = [CLIJSONDecodeError maxBufferSize size].
Proof.
  induction lines as [|line rest IH]; intros k buf Hctx; cbn [Reader.forScan].
  - discriminate.
  - rewrite Hctx.
    destruct (String.eqb (TrimSpace line) ""); [apply IH; exact Hctx|].
    pose proof (ReaderFacts.forJSONLines_shape Unmarshal maxBufferSize
                  (Split (TrimSpace line) LF) buf) as Hshape.
    pose proof (forJSONLines_returned (Split (TrimSpace line) LF) buf) as Hret.
    destruct (forJSONLines (Split (TrimSpace line) LF) buf) as [evs [buf'|]].
    + specialize (IH (S k) buf' Hctx).
      destruct (forScan (S k) rest buf') as [evs' e]. cbn [fst snd] in *.
      intros He. destruct (IH He) as (size & Hsize). exists size.
      rewrite ReaderFacts.errCh_app, Hsize.
      rewrite (ReaderFacts.clean_errCh maxBufferSize evs
                 (ReaderFacts.running_clean maxBufferSize _ buf' Hshape eq_refl)).
      reflexivity.
    + intros _. exact (Hret eq_refl).
Qed.

(** [X24] A line that fills the scanner's buffer always ends the read with an
    error, while the context is live: what comes after the line is never
    read, and the error channel gets exactly one error, the connection
    error for the failed read, or the decode error if the accumulation
    buffer outgrew its bound before the line was reached.  The exit
    status of the child is not reported. *)
Theorem ReadMessages_line_too_long :
  forall (stdout : string) (readErr : option string) (wait : WaitResult),
    (forall n, ctxDone n = false) ->
    forallb
      (fun raw =>
         (Z.of_nat (List.length raw)
          <? Bufio.bufferLimit (initialSize ScannerInitialBufferSize)
               maxBufferSize)%Z)
      (Bufio.rawLines [] (list_ascii_of_string stdout)) = false ->
    errCh (ReadMessages stdout readErr wait)
    = [CLIConnectionError "error reading from stdout"]
    \/ exists size,
         errCh (ReadMessages stdout readErr wait)
         = [CLIJSONDecodeError maxBufferSize size].
Proof.
  intros stdout readErr wait Hctx Hlong.
  unfold Reader.ReadMessages, Bufio.scanLines.
  pose proof (scanTokens_long _ _ Hlong) as Htoo.
  destruct (Bufio.scanTokens _ _) as [lines tooLong]. cbn [snd] in Htoo.
  subst tooLong.
  pose proof (ReaderFacts.forScan_shape Unmarshal maxBufferSize ctxDone
                lines 0 "") as Hshape.
  pose proof (forScan_returned lines 0 "" Hctx) as Hret.
  destruct (forScan 0 lines "") as [evs [buf|]].
  - left. cbn [orb]. rewrite ReaderFacts.errCh_app.
    rewrite (ReaderFacts.clean_errCh maxBufferSize evs
               (ReaderFacts.running_clean maxBufferSize _ buf Hshape eq_refl)).
    reflexivity.
  - right. exact (Hret eq_refl).
Qed.

End Reader.

(** ** The goroutine of [processQuery] *)

Section Query.

Context {JSONObject Message : Type}.
Variable parseMessage : JSONObject -> Message + SDKError.

(** [X26] The goroutine of [processQuery] forwards the messages in order and
    stops at the first failure.  What it does is a run of sends on the
    message channel, whose messages are the parsed forms of the first
    messages it took from the handler, followed by the end of the run:
    nothing yet, or at most one error and then the deferred calls, which
    close the handler, then the error channel, then the message
    channel. *)
Theorem goroutine_forwards_in_order :
  forall (sel : list (@Query.selected JSONObject)),
    exists (msgs : list Message) (tail : list (@Query.output Message))
           (rest : list (Message + SDKError)),
      Query.goroutine parseMessage sel = map Query.MsgCh msgs ++ tail
      /\ ending tail
      /\ map parseMessage (received sel) = map inl msgs ++ rest.
Proof.
  induction sel as [|s sel (msgs & tail & rest & Hg & Ht & Hr)].
  - exists [], [], []. repeat apply conj; [reflexivity | left; reflexivity
                                          | reflexivity].
  - destruct s as [ | [err|] | [data|] delivered ]; cbn [Query.goroutine received].
    + exists [], (Query.ErrCh ContextError :: Query.deferred),
        (map parseMessage (received sel)).
      repeat apply conj; [reflexivity | right; right; eexists; reflexivity
                         | reflexivity].
    + exists [], (Query.ErrCh err :: Query.deferred),
        (map parseMessage (received sel)).
      repeat apply conj; [reflexivity | right; right; eexists; reflexivity
                         | reflexivity].
    + exists msgs, tail, rest. auto.
    + cbn [map]. destruct (parseMessage data) as [msg|err] eqn:Hp.
      * destruct delivered.
        -- exists (msg :: msgs), tail, rest. cbn [map app].
           rewrite Hg, Hr. auto.
        -- exists [], (Query.ErrCh ContextError :: Query.deferred),
             (inl msg :: map parseMessage (received sel)).
           repeat apply conj; [reflexivity | right; right; eexists; reflexivity
                              | reflexivity].
      * exists [], (Query.ErrCh err :: Query.deferred),
          (inr err :: map parseMessage (received sel)).
        repeat apply conj; [reflexivity | right; right; eexists; reflexivity
                           | reflexivity].
    + exists [], Query.deferred, (map parseMessage (received sel)).
      repeat apply conj; [reflexivity | right; left; reflexivity | reflexivity].
Qed.

End Query.

End TraceFacts.


(* ===================================================================== *)
(** * Further properties of the command line and of the settings         *)
(* ===================================================================== *)

Module CommandMoreFacts.

Import Transport Lifecycle.

(** ** Where the loop of [buildCommand] stops *)

Lemma findAgentsFlag_found l : forall i j,
  findAgentsFlag i l = Some j ->
  exists pre x post,
    l = pre ++ "--agents" :: x :: post
    /\ j = i + List.length pre
    /\ ~ In "--agents" pre.
Proof.
  induction l as [|a l IH]; intros i j H; [discriminate|].
  destruct l as [|y rest]; [discriminate|].
  rewrite CommandFacts.findAgentsFlag_cons in H.
  destruct (String.eqb_spec a "--agents") as [->|Hne].
  - injection H as <-. exists [], y, rest.
    repeat apply conj; [reflexivity | cbn; lia | intros []].
  - destruct (IH (S i) j H) as (pre & x & post & Hl & -> & Hin).
    exists (a :: pre), x, post. rewrite Hl.
    repeat apply conj; [reflexivity | cbn; lia |].
    intros [Ha|Hp]; [congruence | exact (Hin Hp)].
Qed.

Lemma first_occurrence_le (a : string) p1 : forall p2 r1 r2,
  p1 ++ a :: r1 = p2 ++ a :: r2 -> ~ In a p1 ->
  List.length p1 <= List.length p2.
Proof.
  induction p1 as [|x p1 IH]; intros p2 r1 r2 Heq Hin; [cbn; lia|].
  destruct p2 as [|y p2]; cbn [app] in Heq.
  - injection Heq as -> _. exfalso. apply Hin. left; reflexivity.
  - injection Heq as _ Heq. cbn [List.length].
    apply le_n_S. apply (IH p2 r1 r2 Heq).
    intros H. apply Hin. right; exact H.
Qed.

Lemma setNth_app_r (a c : list string) i v :
  setNth (a ++ c) (List.length a + i) v = a ++ setNth c i v.
Proof.
  induction a as [|x a IH]; [reflexivity|].
  cbn [app List.length Nat.add setNth]. rewrite IH. reflexivity.
Qed.

Lemma setNth_app_l (a c : list string) : forall i v,
  i < List.length a -> setNth (a ++ c) i v = setNth a i v ++ c.
Proof.
  induction a as [|x a IH]; intros i v Hi; cbn in Hi; [lia|].
  destruct i as [|i]; [reflexivity|].
  cbn [app setNth]. rewrite IH by lia. reflexivity.
Qed.

Section Frame.

Variable UnmarshalInto : string -> JSON.GoMap -> JSON.GoMap * bool.
Variable Marshal : Marshalable -> string.
Variable MarshalError : Marshalable -> option string.
Variable os : OS.

Lemma buildArgs_frame t args :
  buildArgs UnmarshalInto Marshal MarshalError os t = Ok args ->
  exists before later input,
    inputArgs t = Ok input
    /\ args = ["--output-format"; "stream-json"; "--verbose"]
              ++ before ++ agentsArgs Marshal (options t) ++ later ++ input
    /\ 2 <= List.length later.
Proof.
  unfold buildArgs.
  destruct (systemPromptArgs (options t)) as [sp|e|m]; cbn [bind];
    try discriminate.
  destruct (buildSettingsValue UnmarshalInto Marshal MarshalError os t) as [sv|e|m];
    cbn [bind]; try discriminate.
  destruct (inputArgs t) as [input|e|m]; cbn [bind]; try discriminate.
  intros H. injection H as <-.
  exists (skipn 3 (argsBeforeAgents Marshal (options t) sp sv)),
    (settingSourcesArgs (options t) ++ pluginArgs (options t)
     ++ extraArgs (options t)), input.
  split; [reflexivity|]. split.
  - unfold argsAfterAgents, argsBeforeAgents. cbn [skipn app].
    rewrite <- !app_assoc. reflexivity.
  - rewrite length_app. unfold settingSourcesArgs.
    destruct (SettingSources (options t)); cbn; lia.
Qed.

(** [X12] [buildCommand] keeps the frame of the command line.  The vector it
    returns begins with [--output-format stream-json --verbose] and ends
    with the arguments of the input mode: [--input-format stream-json]
    for a channel of prompts, and for a text prompt [--print], [--] and
    the prompt, which is so the last argument.  The move of the agents to
    a temporary file never touches these. *)
Theorem buildCommand_keeps_frame :
  forall (t : SubprocessCLITransport) (bc : built),
    buildCommand UnmarshalInto Marshal MarshalError os t = Ok bc ->
    exists middle input,
      inputArgs t = Ok input
      /\ builtArgs bc
         = ["--output-format"; "stream-json"; "--verbose"] ++ middle ++ input.
Proof.
  intros t bc. unfold buildCommand.
  destruct (buildArgs UnmarshalInto Marshal MarshalError os t) as [args|e|m] eqn:Hargs;
    cbn [bind]; try discriminate.
  intros H. injection H as <-.
  destruct (buildArgs_frame t args Hargs)
    as (before & later & input & Hin & -> & Hlater).
  set (F := ["--output-format"; "stream-json"; "--verbose"]).
  set (ag := agentsArgs Marshal (options t)).
  assert (Hsame : exists middle,
            F ++ before ++ ag ++ later ++ input = F ++ middle ++ input).
  { exists (before ++ ag ++ later). rewrite <- !app_assoc. reflexivity. }
  unfold spillAgents. fold F ag.
  destruct ((len (Join (F ++ before ++ ag ++ later ++ input) " ")
             >? cmdLengthLimit os)%Z
            && (0 <? Z.of_nat (List.length (Agents (options t))))%Z) eqn:Hcond.
  2:{ destruct Hsame as (middle & Hm). exists middle, input. auto. }
  destruct (findAgentsFlag 0 (F ++ before ++ ag ++ later ++ input))
    as [i|] eqn:Hfind.
  2:{ destruct Hsame as (middle & Hm). exists middle, input. auto. }
  destruct (createTemp os) as [name|].
  2:{ destruct Hsame as (middle & Hm). exists middle, input. auto. }
  destruct (writeString os).
  2:{ destruct Hsame as (middle & Hm). exists middle, input. auto. }
  cbn [builtArgs].
  apply andb_prop in Hcond. destruct Hcond as [_ Hagents].
  assert (Hag : exists json, ag = ["--agents"; json]).
  { subst ag. unfold agentsArgs.
    destruct (Agents (options t)); [discriminate | eexists; reflexivity]. }
  destruct Hag as (json & Hag).
  destruct (findAgentsFlag_found _ _ _ Hfind)
    as (pre & x & post & Heq & -> & Hpre).
  cbn [Nat.add].
  assert (Hlow : 3 <= List.length pre).
  { destruct pre as [|p1 [|p2 [|p3 pre]]]; cbn in Heq; try discriminate;
      cbn; lia. }
  assert (Hhigh : List.length pre <= 3 + List.length before).
  { replace (3 + List.length before) with (List.length (F ++ before))
      by (rewrite length_app; reflexivity).
    apply (first_occurrence_le "--agents" pre (F ++ before)
             (x :: post) (json :: later ++ input)); [|exact Hpre].
    rewrite <- Heq, Hag, <- !app_assoc. reflexivity. }
  exists (setNth (before ++ ag ++ later) (S (List.length pre) - 3)
            ("@" ++ name)%string), input.
  split; [exact Hin|].
  replace (S (List.length pre))
    with (List.length F + (S (List.length pre) - 3)) at 1 by (cbn; lia).
  rewrite setNth_app_r. f_equal.
  replace (before ++ ag ++ later ++ input)
    with ((before ++ ag ++ later) ++ input) by (rewrite <- !app_assoc; reflexivity).
  apply setNth_app_l.
  rewrite !length_app, Hag. cbn [List.length]. lia.
Qed.

(** ** The settings *)

Lemma marshal_error (obj : JSON.GoMap) (sandbox : SandboxSettings)
    (e : SDKError) :
  match obj with
  | JSON.NilMap => Panic "assignment to entry in nil map"
  | JSON.Map ms =>
      let settingsObj := mapSet ms "sandbox" (sandboxJSON sandbox) in
      match MarshalError (MSettings settingsObj) with
      | Some e0 =>
          Err (PlainError ("failed to marshal settings: " ++ e0)%string)
      | None => Ok (Marshal (MSettings settingsObj))
      end
  end = Err e ->
  exists settingsObj msg,
    mapGet settingsObj "sandbox" = Some (sandboxJSON sandbox)
    /\ MarshalError (MSettings settingsObj) = Some msg
    /\ e = PlainError ("failed to marshal settings: " ++ msg).
Proof.
  destruct obj as [|ms]; [discriminate|]. cbv zeta.
  destruct (MarshalError (MSettings (mapSet ms "sandbox" (sandboxJSON sandbox))))
    as [msg|] eqn:E; [|discriminate].
  intros H. injection H as <-.
  exists (mapSet ms "sandbox" (sandboxJSON sandbox)), msg.
  repeat apply conj; [apply MapFacts.mapGet_mapSet_same | exact E | reflexivity].
Qed.

(** [X9] [buildSettingsValue] returns an error for two reasons only, both
    with a sandbox set.  Either the settings name a file that can be
    read and the content of the file does not decode: the error names
    the file.  Or [json.Marshal] fails on the object that holds the
    sandbox configuration: the error carries its message. *)
Theorem buildSettingsValue_error_causes :
  forall (t : SubprocessCLITransport) (e : SDKError),
    buildSettingsValue UnmarshalInto Marshal MarshalError os t = Err e ->
    exists sandbox,
      Sandbox (options t) = Some sandbox
      /\ ((exists settings data,
             Settings (options t) = Some settings
             /\ ReadFile os (TrimSpace settings) = Some data
             /\ (exists settingsObj,
                   snd (UnmarshalInto data settingsObj) = false)
             /\ e = PlainError
                      ("failed to parse settings file " ++ TrimSpace settings))
          \/ (exists settingsObj msg,
                mapGet settingsObj "sandbox" = Some (sandboxJSON sandbox)
                /\ MarshalError (MSettings settingsObj) = Some msg
                /\ e = PlainError ("failed to marshal settings: " ++ msg))).
Proof.
  intros t e. unfold buildSettingsValue.
  destruct (Settings (options t)) as [settings|] eqn:Hs;
    destruct (Sandbox (options t)) as [sandbox|] eqn:Hb; try discriminate.
  - intros H. exists sandbox. split; [reflexivity|].
    unfold loadSettings in H.
    destruct (HasPrefix (TrimSpace settings) "{"
              && HasSuffix (TrimSpace settings) "}").
    + destruct (UnmarshalInto (TrimSpace settings) (JSON.Map []))
        as [obj1 ok] eqn:H1.
      destruct ok.
      * cbn [bind] in H. right. exact (marshal_error _ _ _ H).
      * destruct (ReadFile os (TrimSpace settings)) as [data|] eqn:Hr.
        -- destruct (UnmarshalInto data obj1) as [obj2 ok2] eqn:H2.
           destruct ok2; cbn [bind] in H.
           ++ right. exact (marshal_error _ _ _ H).
           ++ injection H as <-. left.
              exists settings, data. repeat apply conj; auto.
              exists obj1. rewrite H2. reflexivity.
        -- cbn [bind] in H. right. exact (marshal_error _ _ _ H).
    + destruct (ReadFile os (TrimSpace settings)) as [data|] eqn:Hr.
      * destruct (UnmarshalInto data (JSON.Map [])) as [obj ok] eqn:H2.
        destruct ok; cbn [bind] in H.
        -- right. exact (marshal_error _ _ _ H).
        -- injection H as <-. left.
           exists settings, data. repeat apply conj; auto.
           exists (JSON.Map []). rewrite H2. reflexivity.
      * cbn [bind] in H. right. exact (marshal_error (JSON.Map []) _ _ H).
  - intros H. exists sandbox. split; [reflexivity|].
    cbn [bind] in H. right. exact (marshal_error (JSON.Map []) _ _ H).
Qed.

(** [X10] With a sandbox, the sandbox configuration wins: when the settings
    load into an object, [buildSettingsValue] marshals that object with
    the key [sandbox] set to the sandbox configuration of the options,
    whatever the settings gave for it, and every other key as the
    settings gave it; it returns the text of [json.Marshal], or the
    error of [json.Marshal] if it has one. *)
Theorem buildSettingsValue_sandbox_wins :
  forall (t : SubprocessCLITransport) (sandbox : SandboxSettings)
    (members : list (string * JSON.value)),
    Sandbox (options t) = Some sandbox ->
    match Settings (options t) with
    | Some settings => loadSettings UnmarshalInto os settings (JSON.Map [])
    | None => Ok (JSON.Map [])
    end = Ok (JSON.Map members) ->
    exists merged,
      buildSettingsValue UnmarshalInto Marshal MarshalError os t
      = match MarshalError (MSettings merged) with
        | Some e =>
            Err (PlainError ("failed to marshal settings: " ++ e)%string)
        | None => Ok (Marshal (MSettings merged))
        end
      /\ mapGet merged "sandbox" = Some (sandboxJSON sandbox)
      /\ forall key, key <> "sandbox" -> mapGet merged key = mapGet members key.
Proof.
  intros t sandbox members Hb Hload. unfold buildSettingsValue. rewrite Hb.
  exists (mapSet members "sandbox" (sandboxJSON sandbox)).
  repeat apply conj.
  - destruct (Settings (options t)); rewrite Hload; reflexivity.
  - apply MapFacts.mapGet_mapSet_same.
  - intros key Hne. apply MapFacts.mapGet_mapSet_other. congruence.
Qed.

(** [X11] A settings file that holds [null] makes [buildSettingsValue] panic
    when a sandbox is set: decoding [null] turns the map into nil, and
    the store of the sandbox into it is an assignment to an entry of a
    nil map. *)
Theorem buildSettingsValue_null_file_panics :
  forall (t : SubprocessCLITransport) (settings : string)
    (sandbox : SandboxSettings) (data : string),
    Settings (options t) = Some settings ->
    Sandbox (options t) = Some sandbox ->
    HasPrefix (TrimSpace settings) "{" && HasSuffix (TrimSpace settings) "}"
    = false ->
    ReadFile os (TrimSpace settings) = Some data ->
    UnmarshalInto data (JSON.Map []) = (JSON.NilMap, true) ->
    buildSettingsValue UnmarshalInto Marshal MarshalError os t
    = Panic "assignment to entry in nil map".
Proof.
  intros t settings sandbox data Hs Hb Hshape Hr Hu.
  unfold buildSettingsValue, loadSettings.
  rewrite Hs, Hb, Hshape, Hr, Hu. reflexivity.
Qed.

End Frame.

(** ** [handleStderr] *)

Lemma rawLines_line l rest : forall cur,
  ~ In LF l ->
  Bufio.rawLines cur (l ++ LF :: rest) = (rev cur ++ l) :: Bufio.rawLines [] rest.
Proof.
  induction l as [|c l IH]; intros cur Hl; cbn [app Bufio.rawLines].
  - rewrite Ascii.eqb_refl, app_nil_r. reflexivity.
  - destruct (Ascii.eqb c LF) eqn:E.
    + apply Ascii.eqb_eq in E. exfalso. apply Hl. left; exact E.
    + rewrite IH by (intros H; apply Hl; right; exact H).
      cbn [rev]. rewrite <- app_assoc. reflexivity.
Qed.

Lemma length_list_ascii s :
  List.length (list_ascii_of_string s) = String.length s.
Proof. induction s as [|c s IH]; cbn; [reflexivity | rewrite IH; reflexivity]. Qed.

Lemma scanLines_unlines limit lines :
  Forall (plainLine limit) lines ->
  Bufio.scanLines limit (unlines lines) = (lines, false).
Proof.
  unfold Bufio.scanLines. induction 1 as [|line lines Hline _ IH]; [reflexivity|].
  destruct Hline as (_ & Hlen & Hlf & Hcr).
  cbn [unlines]. rewrite JSONFacts.list_ascii_of_string_app.
  cbn [list_ascii_of_string]. rewrite rawLines_line by exact Hlf.
  cbn [rev app Bufio.scanTokens]. rewrite length_list_ascii.
  unfold len in Hlen.
  destruct (Z.leb_spec limit (Z.of_nat (String.length line))); [lia|].
  rewrite IH, Hcr, string_of_list_ascii_of_string. reflexivity.
Qed.

(** [X14] [handleStderr] hands the lines of the child to the callback as they
    are.  When the child prints lines that end with a line feed, each of
    them not empty, shorter than the limit of the scanner (64 KiB) and not
    ending with a carriage return, the callback of the options is called
    once for each line, in order, with the line; without a callback
    nothing is called. *)
Theorem handleStderr_delivers_lines :
  forall (callback : option GoFunc) (lines : list string),
    Forall (plainLine MaxScanTokenSize) lines ->
    handleStderr callback (unlines lines)
    = match callback with
      | Some f => map (pair f) lines
      | None => []
      end.
Proof.
  intros callback lines Hlines. unfold handleStderr.
  rewrite (scanLines_unlines _ _ Hlines).
  induction Hlines as [|line lines (Hne & _) _ IH]; cbn [flat_map map].
  - destruct callback; reflexivity.
  - destruct (String.eqb_spec line "") as [->|_]; [congruence|].
    rewrite IH. destruct callback; reflexivity.
Qed.

End CommandMoreFacts.


(* ===================================================================== *)
(** * The theorems on concrete inputs                                    *)
(* ===================================================================== *)

Module Witnesses.

Import Transport Examples Cases Reader ReaderSpec.

Ltac compute_eq := vm_compute; reflexivity.

(** The framing theorem on [twoObjects]: two objects, the second on two
    lines. *)
Lemma ReadMessages_frames_objects_witness :
  msgCh (ReadMessages JSON.Unmarshal 1048576 None live twoObjects None WaitOK)
  = twoObjectsValues
  /\ errCh (ReadMessages JSON.Unmarshal 1048576 None live twoObjects None WaitOK)
     = closingErrors None WaitOK.
Proof.
  refine (ReaderFacts.ReadMessages_frames_objects
            1048576 None live twoObjects None WaitOK
            twoObjectsGroups twoObjectsValues _ _ _ _).
  - intros n; reflexivity.
  - compute_eq.
  - compute_eq.
  - unfold twoObjectsGroups, twoObjectsValues.
    apply Forall2_cons; [|apply Forall2_cons; [|apply Forall2_nil]];
      (apply conj; [compute_eq | vm_compute; discriminate]).
Defined.

(** [C1] as stated fails: [oversized] is made of two well-formed objects,
    the first, of 20 bytes, on two lines; with a buffer of 16 bytes the
    reader sends no object at all, and a decode error. *)
Lemma ReadMessages_drops_oversized_object :
  fragments oversized
  = [q "{'a':"; q "'0123456789ab'}"; q "{'b':1}"]
  /\ JSON.Unmarshal (q "{'a':" ++ q "'0123456789ab'}")
     = Some (JSON.Map [("a", JSON.Str "0123456789ab")])
  /\ JSON.Unmarshal (q "{'b':1}") = Some (JSON.Map [("b", JSON.Number "1")])
  /\ msgCh (ReadMessages JSON.Unmarshal 16 None live oversized None WaitOK) = []
  /\ errCh (ReadMessages JSON.Unmarshal 16 None live oversized None WaitOK)
     = [CLIJSONDecodeError 16 20].
Proof. repeat apply conj; compute_eq. Qed.

(** An object with a number too large for a [float64] is never sent:
    [json.Unmarshal] returns an error for it, the reader keeps it in the
    buffer, and the object that follows it is lost with it. *)
Example ReadMessages_keeps_object_out_of_range :
  JSON.Unmarshal (q "{'a':1e999}") = None
  /\ JSON.Unmarshal (q "{'a':1e308}")
     = Some (JSON.Map [("a", JSON.Number "1e308")])
  /\ msgCh (ReadMessages JSON.Unmarshal 1048576 None live
              (q "{'a':1e999}" ++ nl ++ q "{'b':1}" ++ nl) None WaitOK) = []
  /\ errCh (ReadMessages JSON.Unmarshal 1048576 None live
              (q "{'a':1e999}" ++ nl ++ q "{'b':1}" ++ nl) None WaitOK) = [].
Proof. repeat apply conj; compute_eq. Qed.

(** The overflow theorem on [oversized] with a buffer of 16 bytes. *)
Lemma ReadMessages_buffer_overflow_witness :
  [SendErr (CLIJSONDecodeError 16 20)]
  = [@SendErr JSON.GoMap
       (CLIJSONDecodeError 16 (len (q "{'a':'0123456789ab'}")))]
  /\ errCh ([@WriteString JSON.GoMap (q "{'a':")]
            ++ WriteString (q "{'a':'0123456789ab'}")
            :: [SendErr (CLIJSONDecodeError 16 20)])
     = [CLIJSONDecodeError 16 (len (q "{'a':'0123456789ab'}"))]
  /\ msgCh ([@WriteString JSON.GoMap (q "{'a':")]
            ++ WriteString (q "{'a':'0123456789ab'}")
            :: [SendErr (CLIJSONDecodeError 16 20)])
     = msgCh [@WriteString JSON.GoMap (q "{'a':")].
Proof.
  apply (ReaderFacts.ReadMessages_buffer_overflow JSON.GoMap JSON.Unmarshal
           16 None live oversized None WaitOK).
  - compute_eq.
  - compute_eq.
Defined.




(** [buildCommand] with an agent of 8000 bytes on Windows: the agents go
    to the temporary file. *)
Lemma buildCommand_spills_agents_witness :
  exists effs,
    buildCommand UnmarshalInto Marshal MarshalError os0 (transportOf optionsBigAgents)
    = Ok {| builtArgs :=
              argsBeforeAgents Marshal optionsBigAgents ["--system-prompt"; ""] ""
              ++ "--agents" :: "@/tmp/claude-agents-1.json"
              :: argsAfterAgents optionsBigAgents ["--input-format"; "stream-json"];
            builtTempFiles := [] ++ ["/tmp/claude-agents-1.json"];
            builtEffects := effs |}
    /\ In (WriteFile "/tmp/claude-agents-1.json" (Marshal (MAgents bigAgents)))
         effs.
Proof.
  apply (proj1 (CommandFacts.buildCommand_spills_agents
                  UnmarshalInto Marshal MarshalError os0 (transportOf optionsBigAgents)
                  ["--system-prompt"; ""] ""
                  ["--input-format"; "stream-json"]
                  eq_refl eq_refl eq_refl
                  ltac:(discriminate)
                  ltac:(vm_compute; intuition discriminate))
               "/tmp/claude-agents-1.json").
  - compute_eq.
  - reflexivity.
  - reflexivity.
Defined.

(** [C5] as stated fails: the same command when the temporary file
    cannot be created.  The joined arguments are longer than the limit,
    and [buildCommand] returns them as built, with no file recorded. *)
Lemma buildCommand_keeps_agents_without_temp_file :
  buildCommand UnmarshalInto Marshal MarshalError (setCreateTemp os0 None)
    (transportOf optionsBigAgents)
  = Ok {| builtArgs := bigArgs; builtTempFiles := [];
          builtEffects :=
            [PrintStderr "Warning: Failed to create temp file for long command"] |}
  /\ (len (Join bigArgs " ") >? cmdLengthLimit (setCreateTemp os0 None))%Z = true
  /\ nth 6 bigArgs "" = Marshal (MAgents bigAgents)
  /\ Agents optionsBigAgents <> [].
Proof. repeat apply conj; try compute_eq. discriminate. Qed.

(** The search for the flag stops at the first argument that reads
    ["--agents"].  With a system prompt that is this very text, the
    argument replaced is the flag itself, the text written to the file
    is ["--agents"], and the JSON of the agents stays on the command
    line. *)
Example buildCommand_takes_first_agents_text :
  buildCommand UnmarshalInto Marshal MarshalError os0 (transportOf optionsAgentsPrompt)
  = Ok {| builtArgs :=
            ["--output-format"; "stream-json"; "--verbose";
             "--system-prompt"; "--agents";
             "@/tmp/claude-agents-1.json"; Marshal (MAgents bigAgents);
             "--setting-sources"; ""; "--input-format"; "stream-json"];
          builtTempFiles := ["/tmp/claude-agents-1.json"];
          builtEffects :=
            builtEffects
              (builtOf (buildCommand UnmarshalInto Marshal MarshalError os0
                          (transportOf optionsAgentsPrompt))) |}
  /\ In (WriteFile "/tmp/claude-agents-1.json" "--agents")
       (builtEffects
          (builtOf (buildCommand UnmarshalInto Marshal MarshalError os0
                      (transportOf optionsAgentsPrompt)))).
Proof.
  apply conj; [compute_eq|].
  right; left. compute_eq.
Qed.



(** The contiguity theorem on the second of two interleaved calls. *)
Lemma concurrent_writes_contiguous_witness :
  let w := Concurrent.run interleaved
             (Concurrent.start true true false None ["ab"; "cd"]) in
  exists pre bs post rest,
    Concurrent.pipe w = pre ++ map (pair 1) bs ++ post
    /\ (forall x, In x pre \/ In x post -> fst x <> 1)
    /\ list_ascii_of_string "cd" = bs ++ rest
    /\ (Concurrent.returned w 1 None -> rest = []).
Proof.
  exact (ConcurrentFacts.concurrent_writes_contiguous true true false None
           ["ab"; "cd"] interleaved 1 "cd" eq_refl).
Defined.

(** What the pipe holds at the end of that interleaving, and what the
    two calls returned. *)
Example interleaved_pipe :
  let w := Concurrent.run interleaved
             (Concurrent.start true true false None ["ab"; "cd"]) in
  Concurrent.pipe w
  = [(0, "a"%char); (0, "b"%char); (1, "c"%char); (1, "d"%char)]
  /\ map Concurrent.at_ (Concurrent.goroutines w)
     = [Concurrent.Done None; Concurrent.Done None].
Proof. cbv zeta. apply conj; compute_eq. Qed.

(** [C4] as stated fails: on a connected transport, a [Write] whose
    write to stdin fails takes the state mutex while it holds the write
    mutex, and [Write] is not a close path. *)
Lemma Write_failure_locks_state_under_write_mutex :
  acquiresHolding mu writeMu false
    (callEffects UnmarshalInto Marshal MarshalError (setStdinWrite os0 false) "0.1.18"
       connected (CallWrite "x")) = true
  /\ isClosePath (CallWrite "x") = false
  /\ callEffects UnmarshalInto Marshal MarshalError (setStdinWrite os0 false) "0.1.18"
       connected (CallWrite "x")
     = [RLock mu; RUnlock mu; Lock writeMu; Lock mu; Unlock mu; Unlock writeMu].
Proof. repeat apply conj; compute_eq. Qed.

(** The frame theorem on a struct with a permission callback, in
    streaming mode. *)
Lemma validateAndConfigurePermissions_frame_witness :
  fst (Helpers.validateAndConfigurePermissions [optionsCanUseTool] (Some 0) true)
  = Helpers.Returned (Some 1) None
  /\ Helpers.deref
       (snd (Helpers.validateAndConfigurePermissions [optionsCanUseTool]
               (Some 0) true)) 0
     = Some optionsCanUseTool
  /\ Helpers.deref
       (snd (Helpers.validateAndConfigurePermissions [optionsCanUseTool]
               (Some 0) true)) 1
     = Some (setPermissionPromptToolName optionsCanUseTool (Some "stdio")).
Proof.
  assert (Hvalid : forall p, Some 0 = Some p -> p < List.length [optionsCanUseTool])
    by (intros p H; injection H as <-; cbn; lia).
  destruct (HelpersFacts.validateAndConfigurePermissions_frame
              [optionsCanUseTool] (Some 0) true Hvalid)
    as [Hframe (o & Ho & Hcase)].
  injection Ho as <-. cbn in Hcase. destruct Hcase as (Hr & Hd & _).
  repeat apply conj.
  - exact Hr.
  - apply Hframe. reflexivity.
  - exact Hd.
Defined.

(** [C10] as stated fails: on a nil argument the function returns
    neither its argument, nor an error, nor a copy whose
    [PermissionPromptToolName] is ["stdio"]: it returns the address of a
    fresh struct of zero values. *)
Lemma validateAndConfigurePermissions_nil :
  fst (Helpers.validateAndConfigurePermissions [] None true)
  = Helpers.Returned (Some 0) None
  /\ Helpers.deref (snd (Helpers.validateAndConfigurePermissions [] None true)) 0
     = Some zeroOptions
  /\ PermissionPromptToolName zeroOptions = None
  /\ CanUseTool zeroOptions = None.
Proof. repeat apply conj; reflexivity. Qed.

End Witnesses.


(* ===================================================================== *)
(** * The further theorems on concrete inputs                            *)
(* ===================================================================== *)

Module MoreWitnesses.

Import Transport Examples Cases MoreCases Reader ReaderSpec Lifecycle
  Conversions.

Ltac compute_eq := vm_compute; reflexivity.

(** 1.9.9 is below 2.0.0, which is below 2.0.50. *)
Lemma compareVersions_transitive_witness :
  (Version.compareVersions "1.9.9" "2.0.50" <= 0)%Z
  /\ ((Version.compareVersions "1.9.9" "2.0.0" < 0)%Z
      \/ (Version.compareVersions "2.0.0" "2.0.50" < 0)%Z ->
      (Version.compareVersions "1.9.9" "2.0.50" < 0)%Z).
Proof.
  apply (VersionFacts.compareVersions_transitive "1.9.9" "2.0.0" "2.0.50");
    vm_compute; discriminate.
Defined.

(** The SDK servers of [servers]. *)
Lemma extractSdkMcpServers_lookup_witness :
  (forall name,
     index (extractSdkMcpServers (Some servers)) name
     = sdkInstance (mapGet servers name))
  /\ extractSdkMcpServers (Some servers) <> Some []
  /\ extractSdkMcpServers None = None.
Proof.
  apply (ConversionFacts.extractSdkMcpServers_lookup servers).
  apply NoDup_cons; [intros [H|[]]; discriminate H|].
  apply NoDup_cons; [intros []|]. apply NoDup_nil.
Defined.

(** The internal form of [hooks]. *)
Lemma convertHooksToInternal_lookup_witness :
  (forall event,
     index (convertHooksToInternal (Some hooks)) event
     = match mapGet hooks event with
       | Some (m :: ms) => Some (map toInternal (m :: ms))
       | _ => None
       end)
  /\ convertHooksToInternal (Some hooks) <> None
  /\ convertHooksToInternal None = None.
Proof.
  apply (ConversionFacts.convertHooksToInternal_lookup hooks).
  apply NoDup_cons; [intros [H|[]]; discriminate H|].
  apply NoDup_cons; [intros []|]. apply NoDup_nil.
Defined.

(** [Connect] on a new transport, everything succeeding. *)
Lemma Connect_starts_child_iff_nil_witness :
  let r := Connect UnmarshalInto Marshal MarshalError os0 "0.1.18" (transportOf zeroOptions) in
  match value r with
  | Ok _ =>
      ready (after r) = true
      /\ exists c,
           cmd (after r) = Some c /\ spawned (effects r) = [c]
           /\ Process c = true /\ Dir c = cwd (transportOf zeroOptions)
           /\ cmdEnv c = buildEnv os0 "0.1.18" (transportOf zeroOptions)
  | _ => spawned (effects r) = []
         /\ ready (after r) = ready (transportOf zeroOptions)
  end.
Proof.
  exact (LifecycleFacts.Connect_starts_child_iff_nil UnmarshalInto Marshal MarshalError
           "0.1.18" os0 (transportOf zeroOptions) eq_refl).
Defined.

(** [Connect] with a missing directory, then the steps of
    [afterFailedConnect] and [Connect] again. *)
Lemma Connect_after_connection_error_does_nothing_witness :
  let t := fst (run UnmarshalInto Marshal MarshalError "0.1.18" []
                  (transportOf optionsMissingCwd)) in
  let r := run UnmarshalInto Marshal MarshalError "0.1.18" afterFailedConnect
             (after (Connect UnmarshalInto Marshal MarshalError
                       (osMissingCwd None) "0.1.18" t)) in
  spawned (effects (Connect UnmarshalInto Marshal MarshalError
                      (osMissingCwd None) "0.1.18" t)) = []
  /\ spawned (snd r) = []
  /\ ready (fst r) = false
  /\ Connect UnmarshalInto Marshal MarshalError os0 "0.1.18" (fst r)
     = {| value := Ok tt; after := fst r; effects := [Lock mu; Unlock mu] |}.
Proof.
  refine (LifecycleFacts.Connect_after_connection_error_does_nothing
            UnmarshalInto Marshal MarshalError "0.1.18"
            PromptChan (Some optionsMissingCwd) "claude" (Ok "claude")
            (transportOf optionsMissingCwd) [] (osMissingCwd None)
            "working directory does not exist: /missing"
            afterFailedConnect os0 _ _ _).
  - reflexivity.
  - compute_eq.
  - reflexivity.
Defined.

(** [Write] after the calls of [session]. *)
Lemma Write_never_dereferences_nil_witness :
  let t := fst (run UnmarshalInto Marshal MarshalError "0.1.18" session
                  (transportOf optionsBigAgents)) in
  consistent t /\ panics (value (Write os0 t "late")) = false.
Proof.
  refine (LifecycleFacts.Write_never_dereferences_nil UnmarshalInto Marshal MarshalError
            "0.1.18" PromptChan (Some optionsBigAgents) "claude" (Ok "claude")
            (transportOf optionsBigAgents) session os0 "late" _).
  reflexivity.
Defined.

(** The temporary file of the big agent over the calls of [session]. *)
Lemma temp_files_accounted_witness :
  let r := run UnmarshalInto Marshal MarshalError "0.1.18" session
             (transportOf optionsBigAgents) in
  created (snd r) = removed (snd r) ++ tempFiles (fst r)
  /\ removed (effects (Close os0 (fst r))) = tempFiles (fst r)
  /\ tempFiles (after (Close os0 (fst r))) = [].
Proof.
  refine (LifecycleFacts.temp_files_accounted UnmarshalInto Marshal MarshalError
            "0.1.18" PromptChan (Some optionsBigAgents) "claude" (Ok "claude")
            (transportOf optionsBigAgents) session os0 _).
  reflexivity.
Defined.

(** The file of the session was created once and removed once. *)
Example session_removes_its_file :
  created (snd (run UnmarshalInto Marshal MarshalError "0.1.18" session
                  (transportOf optionsBigAgents)))
  = ["/tmp/claude-agents-1.json"]
  /\ removed (snd (run UnmarshalInto Marshal MarshalError "0.1.18" session
                     (transportOf optionsBigAgents)))
     = ["/tmp/claude-agents-1.json"].
Proof. apply conj; compute_eq. Qed.

(** A write that fails on a connected transport, then the steps of
    [afterFailedWrite] and another write. *)
Lemma Write_error_is_final_witness :
  let t := fst (run UnmarshalInto Marshal MarshalError "0.1.18"
                  [Method os0 CallConnect] (transportOf zeroOptions)) in
  let r := run UnmarshalInto Marshal MarshalError "0.1.18" afterFailedWrite
             (after (Write (setStdinWrite os0 false) t "x")) in
  let w := Write os0 (fst r) "z" in
  (exists e', value w = Err e')
  /\ after w = fst r
  /\ written (effects w) = [].
Proof.
  refine (LifecycleFacts.Write_error_is_final
            UnmarshalInto Marshal MarshalError "0.1.18"
            PromptChan (Some zeroOptions) "claude" (Ok "claude")
            (transportOf zeroOptions) [Method os0 CallConnect]
            (setStdinWrite os0 false) "x"
            (CLIConnectionError "failed to write to process stdin")
            afterFailedWrite os0 "z" _ _ _).
  - reflexivity.
  - compute_eq.
  - compute_eq.
Defined.

(** The locks of [Connect] on a new transport. *)
Lemma methods_release_their_locks_witness :
  lockRun none
    (callEffects UnmarshalInto Marshal MarshalError os0 "0.1.18" (transportOf zeroOptions)
       CallConnect)
  = Some none.
Proof.
  refine (LifecycleFacts.methods_release_their_locks UnmarshalInto Marshal MarshalError
            os0 "0.1.18" (transportOf zeroOptions) CallConnect _).
  intros _. reflexivity.
Defined.

(** The first message of [twoObjects]. *)
Lemma ReadMessages_sends_decoded_buffers_witness :
  exists pre' buf,
    [WriteString (q "{'type':'system','subtype':'init'}")]
    = pre' ++ [@WriteString JSON.GoMap buf]
    /\ JSON.Unmarshal buf
       = Some (JSON.Map [("type", JSON.Str "system");
                         ("subtype", JSON.Str "init")])
    /\ (0 < len buf <= 1048576)%Z.
Proof.
  refine (TraceFacts.ReadMessages_sends_decoded_buffers JSON.Unmarshal 1048576
            None live twoObjects None WaitOK
            [WriteString (q "{'type':'system','subtype':'init'}")]
            (JSON.Map [("type", JSON.Str "system"); ("subtype", JSON.Str "init")])
            (skipn 2 (ReadMessages JSON.Unmarshal 1048576 None live twoObjects
                        None WaitOK)) _).
  compute_eq.
Defined.

(** [twoObjects] read with a buffer of size 0. *)
Lemma ReadMessages_without_buffer_sends_nothing_witness :
  msgCh (ReadMessages JSON.Unmarshal 0 None live twoObjects None WaitOK) = [].
Proof.
  refine (TraceFacts.ReadMessages_without_buffer_sends_nothing JSON.Unmarshal
            0 None live twoObjects None WaitOK _).
  apply Z.le_refl.
Defined.

(** A line of ten bytes and a buffer of eight. *)
Lemma ReadMessages_line_too_long_witness :
  errCh (ReadMessages JSON.Unmarshal 8 (Some 8%Z) live "0123456789" None WaitOK)
  = [CLIConnectionError "error reading from stdout"]
  \/ exists size,
       errCh (ReadMessages JSON.Unmarshal 8 (Some 8%Z) live "0123456789"
                None WaitOK)
       = [CLIJSONDecodeError 8 size].
Proof.
  refine (TraceFacts.ReadMessages_line_too_long JSON.Unmarshal 8 (Some 8%Z)
            live "0123456789" None WaitOK _ _).
  - intros n. reflexivity.
  - compute_eq.
Defined.

(** [twoObjects] and [twoObjectsPlain] are read alike. *)
Lemma ReadMessages_reads_fragments_only_witness :
  ReadMessages JSON.Unmarshal 1048576 None live twoObjects None WaitOK
  = ReadMessages JSON.Unmarshal 1048576 None live twoObjectsPlain None WaitOK.
Proof.
  refine (TraceFacts.ReadMessages_reads_fragments_only JSON.Unmarshal 1048576
            None live twoObjects twoObjectsPlain None WaitOK _ _ _ _).
  - intros n. reflexivity.
  - compute_eq.
  - compute_eq.
  - compute_eq.
Defined.

(** The command line of the big agent, whose agents go to a file. *)
Lemma buildCommand_keeps_frame_witness :
  exists middle input,
    inputArgs (transportOf optionsBigAgents) = Ok input
    /\ builtArgs (builtOf (buildCommand UnmarshalInto Marshal MarshalError os0
                             (transportOf optionsBigAgents)))
       = ["--output-format"; "stream-json"; "--verbose"] ++ middle ++ input.
Proof.
  refine (CommandMoreFacts.buildCommand_keeps_frame UnmarshalInto Marshal MarshalError os0
            (transportOf optionsBigAgents)
            (builtOf (buildCommand UnmarshalInto Marshal MarshalError os0
                        (transportOf optionsBigAgents))) _).
  compute_eq.
Defined.

(** A settings file that is not JSON. *)
Lemma buildSettingsValue_error_causes_witness :
  exists sandbox,
    Sandbox (options (transportOf optionsMissingCwd)) = Some sandbox
    /\ ((exists settings data,
           Settings (options (transportOf optionsMissingCwd)) = Some settings
           /\ ReadFile (osMissingCwd (Some "not json")) (TrimSpace settings)
              = Some data
           /\ (exists settingsObj, snd (UnmarshalInto data settingsObj) = false)
           /\ PlainError "failed to parse settings file settings.json"
              = PlainError ("failed to parse settings file " ++ TrimSpace settings))
        \/ (exists settingsObj msg,
              mapGet settingsObj "sandbox" = Some (sandboxJSON sandbox)
              /\ MarshalError (MSettings settingsObj) = Some msg
              /\ PlainError "failed to parse settings file settings.json"
                 = PlainError ("failed to marshal settings: " ++ msg))).
Proof.
  refine (CommandMoreFacts.buildSettingsValue_error_causes
            UnmarshalInto Marshal MarshalError (osMissingCwd (Some "not json"))
            (transportOf optionsMissingCwd)
            (PlainError "failed to parse settings file settings.json") _).
  compute_eq.
Defined.

(** A settings file with a sandbox of its own. *)
Lemma buildSettingsValue_sandbox_wins_witness :
  exists merged,
    buildSettingsValue UnmarshalInto Marshal MarshalError (osMissingCwd (Some settingsFile))
      (transportOf optionsMissingCwd)
    = Ok (Marshal (MSettings merged))
    /\ mapGet merged "sandbox" = Some (sandboxJSON sandboxOn)
    /\ forall key, key <> "sandbox" ->
         mapGet merged key
         = mapGet [("model", JSON.Str "x"); ("sandbox", JSON.Number "1")] key.
Proof.
  refine (CommandMoreFacts.buildSettingsValue_sandbox_wins UnmarshalInto
            Marshal MarshalError (osMissingCwd (Some settingsFile))
            (transportOf optionsMissingCwd) sandboxOn
            [("model", JSON.Str "x"); ("sandbox", JSON.Number "1")] _ _).
  - reflexivity.
  - compute_eq.
Defined.

(** A settings file that holds [null]. *)
Lemma buildSettingsValue_null_file_panics_witness :
  buildSettingsValue UnmarshalInto Marshal MarshalError (osMissingCwd (Some "null"))
    (transportOf optionsMissingCwd)
  = Panic "assignment to entry in nil map".
Proof.
  refine (CommandMoreFacts.buildSettingsValue_null_file_panics UnmarshalInto
            Marshal MarshalError (osMissingCwd (Some "null"))
            (transportOf optionsMissingCwd) "settings.json" sandboxOn "null"
            _ _ _ _ _); compute_eq.
Defined.

(** Two lines on stderr. *)
Lemma handleStderr_delivers_lines_witness :
  handleStderr (Some (goFunc 1)) (unlines stderrLines)
  = map (pair (goFunc 1)) stderrLines.
Proof.
  refine (CommandMoreFacts.handleStderr_delivers_lines (Some (goFunc 1))
            stderrLines _).
  unfold stderrLines.
  apply Forall_cons; [|apply Forall_cons; [|apply Forall_nil]];
    (apply conj; [discriminate|];
     apply conj; [compute_eq|];
     apply conj; [|compute_eq];
     intros Hin; vm_compute in Hin; intuition discriminate).
Defined.

End MoreWitnesses.
